(** * neuralmonkey.config.config_loader: a shallow embedding

    The module [neuralmonkey/config/config_loader.py] parses an INI-like
    experiment description, infers typed values from the raw strings and
    builds the graph of declared objects.  This file embeds its functions
    ([split_on_commas], [format_value], [get_config_dicts], [get_object],
    [load_config_file]) and proves properties of them.

    Conventions of the embedding:
    - a Python [str] is a [string]; its characters are code points below 256;
    - a Python [dict] is an association list in insertion order;
    - a Python [set] is a duplicate-free list, its iteration order being
      unspecified in Python, statements about sets speak of membership;
    - a raised exception is a value of type [exc];
    - the type registry ([importlib], [getattr]), signature introspection
      ([getargspec]) and the constructors of the domain objects are external
      to the module and appear as section variables or as data carried by
      the registry members. *)

From Stdlib Require Import String Ascii List Bool Arith ZArith Lia.
Import ListNotations.
Open Scope string_scope.
Open Scope list_scope.
Open Scope nat_scope.

Set Warnings "-register-all".

(** ** Python strings *)

Module PyStr.

Definition newline : ascii := "010"%char.

Definition is_digit (c : ascii) : bool :=
  let n := nat_of_ascii c in (48 <=? n) && (n <=? 57).

Definition is_alpha (c : ascii) : bool :=
  let n := nat_of_ascii c in
  ((65 <=? n) && (n <=? 90)) || ((97 <=? n) && (n <=? 122)).

(** the class "[a-zA-Z0-9_]" *)
Definition is_word (c : ascii) : bool :=
  is_alpha c || is_digit c || Ascii.eqb c "_".

(** [str.isspace] on code points below 256 *)
Definition is_space (c : ascii) : bool :=
  let n := nat_of_ascii c in
  ((9 <=? n) && (n <=? 13)) || ((28 <=? n) && (n <=? 32))
  || (n =? 133) || (n =? 160).

Fixpoint lstrip (s : string) : string :=
  match s with
  | String c r => if is_space c then lstrip r else s
  | EmptyString => EmptyString
  end.

Fixpoint rstrip (s : string) : string :=
  match s with
  | String c r =>
      match rstrip r with
      | EmptyString => if is_space c then EmptyString else String c EmptyString
      | r' => String c r'
      end
  | EmptyString => EmptyString
  end.

(** [s.strip()] *)
Definition strip (s : string) : string := rstrip (lstrip s).

(** [s.startswith(p)] *)
Definition startswith (p s : string) : bool := String.prefix p s.

(** [s[n:]] *)
Fixpoint drop (n : nat) (s : string) : string :=
  match n, s with
  | S n', String _ r => drop n' r
  | _, _ => s
  end.

(** the longest prefix whose characters satisfy [p], and the rest *)
Fixpoint span (p : ascii -> bool) (s : string) : string * string :=
  match s with
  | String c r =>
      if p c then let (a, b) := span p r in (String c a, b) else (EmptyString, s)
  | EmptyString => (EmptyString, EmptyString)
  end.

(** [sep.join(parts)] *)
Fixpoint join (sep : string) (parts : list string) : string :=
  match parts with
  | [] => EmptyString
  | [p] => p
  | p :: ps => p ++ sep ++ join sep ps
  end.

(** [s.split(sep)] for a separator of one character *)
Fixpoint split (sep : ascii) (s : string) : list string :=
  match s with
  | EmptyString => [EmptyString]
  | String c r =>
      if Ascii.eqb c sep then EmptyString :: split sep r
      else match split sep r with
           | p :: ps => String c p :: ps
           | [] => [String c EmptyString]
           end
  end.

(** the position [$] of a pattern compiled without flags: the end of the
    string, or just before a newline that ends the string *)
Definition at_dollar (s : string) : bool :=
  match s with
  | EmptyString => true
  | String c EmptyString => Ascii.eqb c newline
  | _ => false
  end.

(** [int(s)] for a string of decimal digits *)
Definition digit_val (c : ascii) : Z := Z.of_nat (nat_of_ascii c - 48).

Fixpoint int_of_digits (acc : Z) (s : string) : Z :=
  match s with
  | EmptyString => acc
  | String c r => int_of_digits (10 * acc + digit_val c) r
  end.

End PyStr.

Arguments PyStr.drop : simpl never.
Arguments PyStr.startswith : simpl never.

(** ** Python lists and dicts *)

Module PyList.

(** [l.pop()]: the last element and the list without it; [None] stands
    for the [IndexError] of an empty list *)
Definition pop {A : Type} (l : list A) : option (A * list A) :=
  match rev l with
  | [] => None
  | x :: r => Some (x, rev r)
  end.

(** [l[a:-n]] for the literal slice bounds of the source: the stop bound
    is the negation of [n], so [n = 0] gives the stop bound [0] *)
Definition slice_to_neg {A : Type} (a n : nat) (l : list A) : list A :=
  let stop := match n with 0 => 0 | _ => List.length l - n end in
  skipn a (firstn stop l).

(** [x in l] for strings *)
Definition mem (x : string) (l : list string) : bool :=
  existsb (String.eqb x) l.

(** [set.remove(x)] on a duplicate-free list *)
Definition remove (x : string) (l : list string) : list string :=
  filter (fun y => negb (String.eqb x y)) l.

(** [set.add(x)] *)
Definition add (x : string) (l : list string) : list string :=
  if mem x l then l else l ++ [x].

(** [set(l)] *)
Definition to_set (l : list string) : list string :=
  fold_left (fun acc x => add x acc) l [].

End PyList.

Module PyDict.

Definition dict (V : Type) : Type := list (string * V).

Definition empty {V : Type} : dict V := [].

Fixpoint get {V : Type} (k : string) (d : dict V) : option V :=
  match d with
  | [] => None
  | (k', v) :: r => if String.eqb k k' then Some v else get k r
  end.

Definition mem {V : Type} (k : string) (d : dict V) : bool :=
  match get k d with Some _ => true | None => false end.

(** [d[k] = v]: an existing key keeps its place, a new key goes last *)
Fixpoint set {V : Type} (k : string) (v : V) (d : dict V) : dict V :=
  match d with
  | [] => [(k, v)]
  | (k', v') :: r =>
      if String.eqb k k' then (k', v) :: r else (k', v') :: set k v r
  end.

Definition keys {V : Type} (d : dict V) : list string := map fst d.

End PyDict.

Import PyDict.

(** ** Values and exceptions *)

(** What [type(v)] can be for the values the loader handles. *)
Inductive pytype : Type :=
| TBool | TNoneType | TInt | TFloat | TStr | TList | TTuple
| TType | TFunction | TOther (tyname : string) | TInstance.

Definition pytype_eq_dec (a b : pytype) : {a = b} + {a <> b}.
Proof. decide equality; apply string_dec. Defined.

(** The result of [inspect.getargspec]; of [defaults] only the number of
    default values is used by the loader, they are kept as their texts. *)
Record ArgSpec : Type := mkArgSpec {
  args : list string;
  varargs : option string;
  keywords : option string;
  defaults : option (list string)
}.

Inductive member_kind : Type :=
| KClass                       (* [inspect.isclass] holds *)
| KFunction                    (* [inspect.isfunction] holds *)
| KOther (tyname : string).    (* any other object, with the name of its type *)

(** A member of the type registry: what [getattr(module, name)] gives.
    [obj_argspec] is what [getargspec] returns for the member (for a class,
    for its [__init__]); [None] means that [getargspec] raises. *)
Record pyobject : Type := mkObject {
  obj_name : string;
  obj_kind : member_kind;
  obj_argspec : option ArgSpec
}.

Inductive pyvalue : Type :=
| VBool (b : bool)
| VNone
| VInt (n : Z)
| VFloat (literal : string)    (* a float, kept as the literal it was read from *)
| VStr (s : string)
| VObj (o : pyobject)          (* a type reference *)
| VList (l : list pyvalue)
| VTuple (l : list pyvalue)
| VInst (id : nat).            (* a constructed instance, named by its identity *)

Definition type_of (v : pyvalue) : pytype :=
  match v with
  | VBool _ => TBool
  | VNone => TNoneType
  | VInt _ => TInt
  | VFloat _ => TFloat
  | VStr _ => TStr
  | VObj o => match obj_kind o with
              | KClass => TType
              | KFunction => TFunction
              | KOther n => TOther n
              end
  | VList _ => TList
  | VTuple _ => TTuple
  | VInst _ => TInstance
  end.

Inductive ini_message : Type :=
| DuplicitObjectKey (name : string) (line : nat)
| DuplicitKey (key : string) (line : nat)
| UnknownString (line : string)
| ErrorMessage.

Inductive exc : Type :=
| IndexError
| KeyError (key : option string)
| TypeError
| ValueError (text : string)
| ImportError (name : option string)
| CtorFailure (message : string)
| InvalidBracketEnd (bracket : ascii) (col : nat)
| ModuleDoesNotExist (text module_name : string)
| ClassDoesNotExist (text class_name : string)
| ListNotSameType (types : list pytype)
| IniSyntaxError (line : nat) (message : ini_message) (original_exc : option exc)
| ObjectNotDefined (name : string)
| DepthExceeded
| ClassNotDefined (name : string)
| NotTypeOrFunction (name : string) (found : pytype)
| MissingRequiredArgs (name : string) (required_args : list string)
| UnexpectedArgument (name : string) (additional_args : list string)
| MainBlockMissing
| ConfigBuildException (object_name : string) (original_exception : exc).

(** The outcome of a call: a value, a raised exception, or (for the
    functions defined with a recursion budget) an exhausted budget. *)
Inductive result (A : Type) : Type :=
| Ok (a : A)
| Raise (e : exc)
| OutOfFuel.

Arguments Ok {A} a.
Arguments Raise {A} e.
Arguments OutOfFuel {A}.

Definition bind {A B : Type} (r : result A) (k : A -> result B) : result B :=
  match r with
  | Ok a => k a
  | Raise e => Raise e
  | OutOfFuel => OutOfFuel
  end.

Notation "x <- c ;; k" := (bind c (fun x => k))
  (at level 61, c at next level, right associativity).

Fixpoint mapR {A B : Type} (f : A -> result B) (l : list A) : result (list B) :=
  match l with
  | [] => Ok []
  | x :: r => y <- f x ;; ys <- mapR f r ;; Ok (y :: ys)
  end.

(** ** [split_on_commas] *)

Record split_state : Type := mkSplit {
  items : list string;
  char_buffer : list ascii;
  openings : list ascii
}.

Definition join_chars (l : list ascii) : string := string_of_list_ascii l.

(** One turn of the loop [for i, char in enumerate(string)]. *)
Definition split_step (i : nat) (char : ascii) (st : split_state)
  : result split_state :=
  let push st' := Ok (mkSplit (items st') (char_buffer st' ++ [char]) (openings st')) in
  if Ascii.eqb char "," && (List.length (openings st) =? 0) then
    Ok (mkSplit (items st ++ [join_chars (char_buffer st)]) [] (openings st))
  else if Ascii.eqb char " " && (List.length (char_buffer st) =? 0) then
    Ok st
  else if Ascii.eqb char "(" || Ascii.eqb char "[" then
    push (mkSplit (items st) (char_buffer st) (openings st ++ [char]))
  else if Ascii.eqb char ")" then
    match PyList.pop (openings st) with
    | None => Raise IndexError
    | Some (top, rest) =>
        if negb (Ascii.eqb top "(") then Raise (InvalidBracketEnd ")" i)
        else push (mkSplit (items st) (char_buffer st) rest)
    end
  else if Ascii.eqb char "]" then
    match PyList.pop (openings st) with
    | None => Raise IndexError
    | Some (top, rest) =>
        if negb (Ascii.eqb top "[") then Raise (InvalidBracketEnd "]" i)
        else push (mkSplit (items st) (char_buffer st) rest)
    end
  else push st.

Fixpoint split_loop (i : nat) (text : string) (st : split_state)
  : result split_state :=
  match text with
  | EmptyString => Ok st
  | String char rest =>
      st' <- split_step i char st ;; split_loop (S i) rest st'
  end.

Definition split_on_commas (text : string) : result (list string) :=
  st <- split_loop 0 text (mkSplit [] [] []) ;;
  Ok (items st ++ [join_chars (char_buffer st)]).

(** ** The compiled patterns

    Each pattern of the module is embedded as the function that [match]
    computes for it: [None] when the pattern does not match at the start of
    the string, otherwise the groups the loader reads. *)

Module Re.
Import PyStr.

(** a letter, then letters, digits and underscores, as many as there are,
    at the start of [s]: the identifier and what follows it *)
Definition ident (s : string) : option (string * string) :=
  match s with
  | String c r =>
      if is_alpha c then let (a, b) := span is_word r in Some (String c a, b)
      else None
  | EmptyString => None
  end.

(** [OBJECT_NAME]: an identifier between square brackets, up to [$];
    group 1 is the identifier *)
Definition OBJECT_NAME (s : string) : option string :=
  match s with
  | String c r =>
      if Ascii.eqb c "[" then
        match ident r with
        | Some (name, String c' tail) =>
            if Ascii.eqb c' "]" && at_dollar tail then Some name else None
        | _ => None
        end
      else None
  | EmptyString => None
  end.

(** [OBJECT_REF]: an identifier between angle brackets, up to [$];
    group 1 is the identifier *)
Definition OBJECT_REF (s : string) : option string :=
  match s with
  | String c r =>
      if Ascii.eqb c "<" then
        match ident r with
        | Some (name, String c' tail) =>
            if Ascii.eqb c' ">" && at_dollar tail then Some name else None
        | _ => None
        end
      else None
  | EmptyString => None
  end.

(** [KEY_VALUE_PAIR]: an identifier (group 1), spaces, the equals sign,
    spaces, and one character or more other than a newline (group 2), up
    to [$].  After the
    spaces that follow [=], group 2 runs to the first newline; when
    nothing is left for it, it takes back the last of those spaces. *)
Definition KEY_VALUE_PAIR (s : string) : option (string * string) :=
  match ident s with
  | Some (key, r) =>
      match snd (span (Ascii.eqb " ") r) with
      | String c r1 =>
          if Ascii.eqb c "=" then
            let (spaces, r2) := span (Ascii.eqb " ") r1 in
            let (body, tail) := span (fun x => negb (Ascii.eqb x newline)) r2 in
            if at_dollar tail then
              match body, spaces with
              | String _ _, _ => Some (key, body)
              | EmptyString, String _ _ => Some (key, " ")
              | EmptyString, EmptyString => None
              end
            else None
          else None
      | EmptyString => None
      end
  | None => None
  end.

(** [INTEGER]: one digit or more, up to [$]; the digits *)
Definition INTEGER (s : string) : option string :=
  match span is_digit s with
  | (String c d, tail) => if at_dollar tail then Some (String c d) else None
  | (EmptyString, _) => None
  end.

(** [FLOAT]: digits, a point, digits, and maybe an exponent (the letter e,
    maybe a sign, one digit or more), up to [$]; the digits before and
    after the point *)
Definition FLOAT (s : string) : option (string * string) :=
  let (whole, r1) := span is_digit s in
  match r1 with
  | String c r2 =>
      if Ascii.eqb c "." then
        let (frac, r3) := span is_digit r2 in
        if at_dollar r3 then Some (whole, frac)
        else match r3 with
             | String e r4 =>
                 if Ascii.eqb e "e" then
                   let r5 := match r4 with
                             | String sg r' =>
                                 if Ascii.eqb sg "+" || Ascii.eqb sg "-"
                                 then r' else r4
                             | EmptyString => r4
                             end in
                   match span is_digit r5 with
                   | (String _ _, tail) =>
                       if at_dollar tail then Some (whole, frac) else None
                   | (EmptyString, _) => None
                   end
                 else None
             | EmptyString => None
             end
      else None
  | EmptyString => None
  end.

(** [s] without the newline that ends it, if one does *)
Fixpoint chomp (s : string) : string :=
  match s with
  | EmptyString => EmptyString
  | String c EmptyString => if Ascii.eqb c newline then EmptyString else s
  | String c r => String c (chomp r)
  end.

(** one segment of a dotted path, the whole of [p]: underscores, then an
    identifier *)
Definition segment (p : string) : bool :=
  match ident (snd (span (Ascii.eqb "_") p)) with
  | Some (_, EmptyString) => true
  | _ => false
  end.

(** [CLASS_NAME]: a segment, then a point and a segment once or more, up
    to [$]: no segment can hold a point or a newline, so the string up to [$] is cut at its
    points into two segments or more *)
Definition CLASS_NAME (s : string) : bool :=
  let parts := split "." (chomp s) in
  (2 <=? List.length parts) && forallb segment parts.

(** [LIST]: an opening square bracket, the characters up to the first
    closing square bracket (group 1), and that bracket; the pattern has
    no anchor at its end *)
Definition LIST (s : string) : option string :=
  match s with
  | String c r =>
      if Ascii.eqb c "[" then
        match span (fun x => negb (Ascii.eqb x "]")) r with
        | (content, String _ _) => Some content
        | (_, EmptyString) => None
        end
      else None
  | EmptyString => None
  end.

(** what comes before the last [c] of [s] *)
Fixpoint before_last (c : ascii) (s : string) : option string :=
  match s with
  | EmptyString => None
  | String x r =>
      match before_last c r with
      | Some p => Some (String x p)
      | None => if Ascii.eqb x c then Some EmptyString else None
      end
  end.

(** [TUPLE]: an opening parenthesis, one character or more other than a
    closing square bracket (group 1), and a closing parenthesis; the
    pattern has no anchor at its end and its group is greedy, so it stops
    before the last closing parenthesis that no closing square bracket
    precedes *)
Definition TUPLE (s : string) : option string :=
  match s with
  | String c r =>
      if Ascii.eqb c "(" then
        match before_last ")" (fst (span (fun x => negb (Ascii.eqb x "]")) r)) with
        | Some (String x p) => Some (String x p)
        | _ => None
        end
      else None
  | EmptyString => None
  end.

(** [re.sub] that deletes a hash sign and what follows it up to a newline *)
Fixpoint strip_comments (in_comment : bool) (s : string) : string :=
  match s with
  | EmptyString => EmptyString
  | String c r =>
      if Ascii.eqb c newline then String c (strip_comments false r)
      else if in_comment then strip_comments true r
      else if Ascii.eqb c "#" then strip_comments true r
      else String c (strip_comments false r)
  end.

(** [re.sub] that puts [time_stamp] for each dollar sign followed by TIME *)
Fixpoint sub_TIME (time_stamp : string) (s : string) : string :=
  match s with
  | String c0 r0 =>
      match r0 with
      | String c1 (String c2 (String c3 (String c4 r))) =>
          if Ascii.eqb c0 "$" && Ascii.eqb c1 "T" && Ascii.eqb c2 "I"
             && Ascii.eqb c3 "M" && Ascii.eqb c4 "E"
          then (time_stamp ++ sub_TIME time_stamp r)%string
          else String c0 (sub_TIME time_stamp r0)
      | _ => String c0 (sub_TIME time_stamp r0)
      end
  | EmptyString => EmptyString
  end.

End Re.

(** A sample of the external collaborators, for the concrete runs below. *)

Definition Net_spec : ArgSpec :=
  mkArgSpec ["self"; "size"; "dropout"] None None (Some ["0.5"]).
Definition Net : pyobject := mkObject "Net" KClass (Some Net_spec).
Definition Layer_spec : ArgSpec := mkArgSpec ["self"; "size"] None None None.
Definition Layer : pyobject := mkObject "Layer" KClass (Some Layer_spec).
Definition Link_spec : ArgSpec :=
  mkArgSpec ["self"; "next"] None None (Some ["None"]).
Definition Link : pyobject := mkObject "Link" KClass (Some Link_spec).

Inductive import_outcome : Type :=
| Imported (module : string)
| ImportFails (exc_name : option string).

Definition sample_import_module (module_name : string) : import_outcome :=
  if String.eqb module_name "neuralmonkey.pkg" then Imported module_name
  else ImportFails (Some module_name).

Definition sample_getattr (module class_name : string) : option pyvalue :=
  if String.eqb class_name "Net" then Some (VObj Net)
  else if String.eqb class_name "Layer" then Some (VObj Layer)
  else if String.eqb class_name "Link" then Some (VObj Link)
  else None.

Definition sample_time_stamp : string := "2016-05-01-12-00-00".

(** every constructor call of the sample succeeds *)
Definition sample_construct (clazz : pyobject) (kwargs : dict pyvalue)
  : option exc := None.

(** ** The state of one load

    [existing_objects] is the dictionary that [load_config_file] creates and
    every call of [get_object] shares.  The instances that the constructors
    return live in the heap: [VInst id] is the instance allocated as number
    [id], so two results are the same object exactly when their numbers are
    equal. *)

Record instance : Type := mkInstance {
  inst_name : string;            (* the section it was built from *)
  inst_class : pyobject;
  inst_kwargs : dict pyvalue
}.

Record build_state : Type := mkState {
  existing_objects : dict pyvalue;
  heap : list instance
}.

Definition M (A : Type) : Type := build_state -> result A * build_state.

Definition ret {A : Type} (a : A) : M A := fun st => (Ok a, st).
Definition raise {A : Type} (e : exc) : M A := fun st => (Raise e, st).
Definition bindM {A B : Type} (m : M A) (k : A -> M B) : M B :=
  fun st =>
    match m st with
    | (Ok a, st') => k a st'
    | (Raise e, st') => (Raise e, st')
    | (OutOfFuel, st') => (OutOfFuel, st')
    end.

Notation "x <~ c ;; k" := (bindM c (fun x => k))
  (at level 61, c at next level, right associativity).

Fixpoint mapM {A B : Type} (f : A -> M B) (l : list A) : M (list B) :=
  match l with
  | [] => ret []
  | x :: r => y <~ f x ;; ys <~ mapM f r ;; ret (y :: ys)
  end.

(** [existing_objects[key] = obj] *)
Definition store (key : string) (obj : pyvalue) : M unit :=
  fun st => (Ok tt, mkState (set key obj (existing_objects st)) (heap st)).

(** the allocation of the instance that a constructor returns *)
Definition allocate (name : string) (clazz : pyobject) (kwargs : dict pyvalue)
  : M pyvalue :=
  fun st =>
    (Ok (VInst (List.length (heap st))),
     mkState (existing_objects st) (heap st ++ [mkInstance name clazz kwargs])).

Definition truthy_name (o : option string) : bool :=
  match o with
  | Some (String _ _) => true
  | _ => false
  end.

(** the height of a value as a tree *)
Fixpoint height (v : pyvalue) : nat :=
  match v with
  | VList l | VTuple l => S (fold_right (fun x m => Nat.max (height x) m) 0 l)
  | _ => 1
  end.

Definition section_height (d : dict pyvalue) : nat :=
  fold_right (fun kv m => Nat.max (height (snd kv)) m) 0 d.

Definition document_height (all_dicts : dict (dict pyvalue)) : nat :=
  fold_right (fun kv m => Nat.max (section_height (snd kv)) m) 0 all_dicts.

Section Loader.

Set Default Proof Using "Type".

(** The type registry: [importlib.import_module], which gives a module or
    raises an [ImportError] with the attribute [name], and [getattr] on a
    module (a module is named by its path). *)
Variable import_module : string -> import_outcome.
Variable getattr : string -> string -> option pyvalue.

(** [time.strftime] at the start of a parse. *)
Variable time_stamp : string.

(** The call [clazz( **args )] of a registry member: [None] when it
    returns, the exception when it raises. *)
Variable construct : pyobject -> dict pyvalue -> option exc.

(** *** [format_value] *)

Fixpoint format_value_fuel (fuel : nat) (text : string) : result pyvalue :=
  match fuel with
  | 0 => OutOfFuel
  | S fuel' =>
    if String.eqb text "False" then Ok (VBool false)
    else if String.eqb text "True" then Ok (VBool true)
    else if String.eqb text "None" then Ok VNone
    else match Re.INTEGER text with
    | Some digits => Ok (VInt (PyStr.int_of_digits 0 digits))
    | None =>
    match Re.FLOAT text with
    | Some (EmptyString, EmptyString) => Raise (ValueError text)
    | Some _ => Ok (VFloat text)
    | None =>
    if Re.CLASS_NAME text then
      let class_parts := PyStr.split "." text in
      let class_name := last class_parts EmptyString in
      let module_name :=
        PyStr.join "." ("neuralmonkey" :: removelast class_parts) in
      match import_module module_name with
      | ImportFails exc_name =>
          match exc_name with
          | Some n =>
              if String.eqb n module_name
              then Raise (ModuleDoesNotExist text module_name)
              else Raise (ImportError exc_name)
          | None => Raise (ImportError exc_name)
          end
      | Imported module =>
          match getattr module class_name with
          | None => Raise (ClassDoesNotExist text class_name)
          | Some clazz => Ok clazz
          end
      end
    else
    match Re.OBJECT_REF text with
    | Some name => Ok (VStr ("object:" ++ name))
    | None =>
    match Re.LIST text with
    | Some matched_content =>
        if String.eqb matched_content EmptyString then Ok (VList [])
        else
          items <- split_on_commas matched_content ;;
          values <- mapR (format_value_fuel fuel') items ;;
          let types := map type_of values in
          if 1 <? List.length (nodup pytype_eq_dec types)
          then Raise (ListNotSameType types)
          else Ok (VList values)
    | None =>
    match Re.TUPLE text with
    | Some content =>
        items <- split_on_commas content ;;
        values <- mapR (format_value_fuel fuel') items ;;
        Ok (VTuple values)
    | None => Ok (VStr text)
    end end end end end
  end.

(** Every recursive call is on an item of the text between the brackets,
    which is shorter than the text: a budget above the length of the text
    is enough (lemma [format_value_fuel_enough]). *)
Definition format_value (text : string) : result pyvalue :=
  format_value_fuel (S (String.length text)) text.

(** *** [get_config_dicts] *)

Record parse_state : Type := mkParse {
  config_dicts : dict (dict pyvalue);
  current_name : option string
}.

(** The body of the [try] for the line number [i]. *)
Definition parse_line_body (i : nat) (line : string) (st : parse_state)
  : result parse_state :=
  let line := PyStr.strip line in
  let line := Re.strip_comments false line in
  let line := Re.sub_TIME time_stamp line in
  if String.eqb line EmptyString then Ok st
  else if PyStr.startswith ";" line then Ok st
  else
    match Re.OBJECT_NAME line with
    | Some name =>
        if mem name (config_dicts st)
        then Raise (IniSyntaxError i (DuplicitObjectKey name i) None)
        else Ok (mkParse (set name empty (config_dicts st)) (Some name))
    | None =>
        match Re.KEY_VALUE_PAIR line with
        | Some (key, value_string) =>
            match current_name st with
            | None => Raise (KeyError None)
            | Some cur =>
                match get cur (config_dicts st) with
                | None => Raise (KeyError (Some cur))
                | Some this_dict =>
                    if mem key this_dict
                    then Raise (IniSyntaxError i (DuplicitKey key i) None)
                    else
                      v <- format_value value_string ;;
                      Ok (mkParse (set cur (set key v this_dict) (config_dicts st))
                                  (current_name st))
                end
            end
        | None => Raise (IniSyntaxError i (UnknownString line) None)
        end
    end.

(** The [except] clauses: an [IniSyntaxError] goes through, any other
    exception is wrapped with the line number. *)
Definition parse_line (i : nat) (line : string) (st : parse_state)
  : result parse_state :=
  match parse_line_body i line st with
  | Raise (IniSyntaxError l m o) => Raise (IniSyntaxError l m o)
  | Raise e => Raise (IniSyntaxError i ErrorMessage (Some e))
  | r => r
  end.

(** [for i, line in enumerate(config_file)], from the index [i] on *)
Fixpoint parse_lines (i : nat) (config_file : list string) (st : parse_state)
  : result parse_state :=
  match config_file with
  | [] => Ok st
  | line :: rest => st' <- parse_line i line st ;; parse_lines (S i) rest st'
  end.

Definition get_config_dicts (config_file : list string)
  : result (dict (dict pyvalue)) :=
  st <- parse_lines 0 config_file (mkParse empty None) ;;
  Ok (config_dicts st).

(** *** [get_object] *)

(** The check of the supplied argument names against the signature: the
    loop over [args.keys()] and the two tests that follow it. *)
Definition check_key (all_args : list string) (acc : list string * list string)
  (key : string) : list string * list string :=
  let (required_args, additional_args) := acc in
  (if PyList.mem key required_args then PyList.remove key required_args
   else required_args,
   if negb (PyList.mem key all_args) then PyList.add key additional_args
   else additional_args).

Definition check_signature (name : string) (arg_spec : ArgSpec)
  (kwargs : dict pyvalue) : result unit :=
  if negb (truthy_name (keywords arg_spec)) then
    let defaults := match defaults arg_spec with Some d => d | None => [] end in
    match args arg_spec with
    | [] => Raise IndexError
    | first :: _ =>
        let required_args :=
          if String.eqb first "self"
          then PyList.to_set
                 (PyList.slice_to_neg 1 (List.length defaults) (args arg_spec))
          else PyList.to_set
                 (PyList.slice_to_neg 0 (List.length defaults) (args arg_spec)) in
        let all_args := PyList.to_set (args arg_spec) in
        let additional_args : list string := [] in
        let (required_args, additional_args) :=
          fold_left (check_key all_args) (keys kwargs)
                    (required_args, additional_args) in
        match required_args, additional_args with
        | _ :: _, _ => Raise (MissingRequiredArgs name required_args)
        | [], _ :: _ => Raise (UnexpectedArgument name additional_args)
        | [], [] => Ok tt
        end
    end
  else Ok tt.

(** the dict comprehension over [this_dict.items()] *)
Fixpoint process_args (process_arg : pyvalue -> M pyvalue) (this_dict : dict pyvalue)
  : M (dict pyvalue) :=
  match this_dict with
  | [] => ret []
  | (k, arg) :: rest =>
      if negb (String.eqb k "class") then
        v <~ process_arg arg ;;
        vs <~ process_args process_arg rest ;;
        ret ((k, v) :: vs)
      else process_args process_arg rest
  end.

(** [isclass(clazz) or isfunction(clazz)]: the registry member, when the
    value is one that can be called *)
Definition callable_of (clazz : pyvalue) : option pyobject :=
  match clazz with
  | VObj o =>
      match obj_kind o with
      | KClass | KFunction => Some o
      | KOther _ => None
      end
  | _ => None
  end.

(** From [getargspec] to the end of [get_object]: the check of the
    signature, the call of the constructor and the entry in
    [existing_objects] under [value], the string that named the object. *)
Definition instantiate (value name : string) (clazz : pyobject)
  (args : dict pyvalue) : M pyvalue :=
  match obj_argspec clazz with
  | None => raise TypeError
  | Some arg_spec =>
      match check_signature name arg_spec args with
      | Raise e => raise e
      | OutOfFuel => fun st => (OutOfFuel, st)
      | Ok _ =>
          match construct clazz args with
          | Some exc => raise (ConfigBuildException name exc)
          | None =>
              result <~ allocate name clazz args ;;
              _ <~ store value result ;;
              ret result
          end
      end
  end.

(** The body of [get_object], with [existing_objects] as the state of
    the monad [M] and the recursive calls made through [get_object] (its
    arguments [all_dicts], [existing_objects] and [ignore_names] are passed
    on unchanged).  A value that is not a string is equal to no string, so
    the two membership tests of the source are false for it; a registry
    member and an instance are taken not to be iterable. *)
Definition get_object_body (get_object : pyvalue -> nat -> M pyvalue)
  (value : pyvalue) (all_dicts : dict (dict pyvalue))
  (ignore_names : list string) (depth : nat) : M pyvalue :=
  match value with
  | VList l | VTuple l =>
      vals <~ mapM (fun val => get_object val (depth + 1)) l ;;
      ret (VList vals)
  | VStr s =>
      if PyList.mem s ignore_names then
        _ <~ store s VNone ;; ret VNone
      else fun st =>
      match get s (existing_objects st) with
      | Some obj => ret obj st
      | None =>
      if negb (PyStr.startswith "object:" s) then ret value st
      else
        let name := PyStr.drop 7 s in
        match get name all_dicts with
        | None => raise (ObjectNotDefined name) st
        | Some this_dict =>
        if 20 <? depth then raise DepthExceeded st
        else
        match get "class" this_dict with
        | None => raise (ClassNotDefined name) st
        | Some clazz =>
        match callable_of clazz with
        | None => raise (NotTypeOrFunction name (type_of clazz)) st
        | Some callee =>
            (args <~ process_args
                      (fun arg => get_object arg (depth + 1)) this_dict ;;
             instantiate s name callee args) st
        end end end
      end
  | _ => ret value
  end.

Fixpoint get_object_fuel (fuel : nat) (value : pyvalue)
  (all_dicts : dict (dict pyvalue)) (ignore_names : list string) (depth : nat)
  : M pyvalue :=
  match fuel with
  | 0 => fun st => (OutOfFuel, st)
  | S fuel' =>
      get_object_body
        (fun v d => get_object_fuel fuel' v all_dicts ignore_names d)
        value all_dicts ignore_names depth
  end.

(** The budget that is enough for a call at [depth] (theorem
    [get_object_fuel_enough]): below a reference the depth grows by one at
    each call, and a reference is followed only up to depth 20. *)
Definition enough_fuel (all_dicts : dict (dict pyvalue)) (value : pyvalue)
  (depth : nat) : nat :=
  height value + (21 - depth) * document_height all_dicts.

Definition get_object (value : pyvalue) (all_dicts : dict (dict pyvalue))
  (ignore_names : list string) (depth : nat) : M pyvalue :=
  get_object_fuel (enough_fuel all_dicts value depth) value all_dicts
                  ignore_names depth.

(** *** [load_config_file] *)

Fixpoint load_main (main_config : dict pyvalue) (config_dicts : dict (dict pyvalue))
  (ignore_names : list string) : M (dict pyvalue) :=
  match main_config with
  | [] => ret []
  | (key, value) :: rest =>
      if negb (PyList.mem key ignore_names) then
        fun st =>
          match get_object value config_dicts ignore_names 0 st with
          | (Ok obj, st') =>
              (configuration <~ load_main rest config_dicts ignore_names ;;
               ret ((key, obj) :: configuration)) st'
          | (Raise exc, st') => (Raise (ConfigBuildException key exc), st')
          | (OutOfFuel, st') => (OutOfFuel, st')
          end
      else load_main rest config_dicts ignore_names
  end.

Definition load_config_file (config_file : list string)
  (ignore_names : list string) : result (dict pyvalue) * build_state :=
  let existing_objects := mkState empty [] in
  match get_config_dicts config_file with
  | Ok config_dicts =>
      match get "main" config_dicts with
      | None => (Raise MainBlockMissing, existing_objects)
      | Some main_config =>
          load_main main_config config_dicts ignore_names existing_objects
      end
  | Raise e => (Raise e, existing_objects)
  | OutOfFuel => (OutOfFuel, existing_objects)
  end.

(** * Properties *)

(** [tauto] and [intuition] are run without the external collaborators
    in the context, so that a proof depends on them only through its
    statement. *)
Ltac drop_externals :=
  try clear import_module; try clear getattr; try clear time_stamp;
  try clear construct.

(** ** The bracket-aware splitter *)












(** ** The document parser *)

Definition is_ini_error (e : exc) : bool :=
  match e with
  | IniSyntaxError _ _ _ => true
  | _ => false
  end.

(** the line number that a message spells out, if it has one *)
Definition message_line (m : ini_message) : option nat :=
  match m with
  | DuplicitObjectKey _ l => Some l
  | DuplicitKey _ l => Some l
  | UnknownString _ => None
  | ErrorMessage => None
  end.

Lemma mapR_raise {A B : Type} (f : A -> result B) (l : list A) (e : exc) :
  mapR f l = Raise e -> exists x, In x l /\ f x = Raise e.
Proof.
  induction l as [|x l IH]; simpl; [discriminate|].
  destruct (f x) eqn:Ex; simpl.
  - destruct (mapR f l); simpl; try discriminate.
    intros H. destruct IH as [y [Hy Hf]]; [assumption|]. eauto.
  - intros H. injection H as <-. eauto.
  - discriminate.
Qed.

Lemma split_step_raise (i : nat) (c : ascii) (st : split_state) (e : exc) :
  split_step i c st = Raise e -> is_ini_error e = false.
Proof.
  unfold split_step.
  repeat match goal with
         | |- context [if ?b then _ else _] => destruct b
         | |- context [match PyList.pop ?l with _ => _ end] =>
             destruct (PyList.pop l) as [[? ?]|]
         end; intros H; try discriminate; injection H as <-; reflexivity.
Qed.

Lemma split_loop_raise (text : string) (e : exc) :
  forall i st, split_loop i text st = Raise e -> is_ini_error e = false.
Proof.
  induction text as [|c text IH]; simpl; intros i st; [discriminate|].
  destruct (split_step i c st) eqn:E; simpl.
  - apply IH.
  - intros H. injection H as <-. eapply split_step_raise; eassumption.
  - discriminate.
Qed.

Lemma split_on_commas_raise (text : string) (e : exc) :
  split_on_commas text = Raise e -> is_ini_error e = false.
Proof.
  unfold split_on_commas.
  destruct (split_loop 0 text (mkSplit [] [] [])) eqn:E; simpl;
    try discriminate.
  intros H. injection H as <-. eapply split_loop_raise; eassumption.
Qed.

Lemma format_value_fuel_raise (fuel : nat) :
  forall text e,
    format_value_fuel fuel text = Raise e -> is_ini_error e = false.
Proof.
  induction fuel as [|fuel IH]; intros text e; simpl; [discriminate|].
  repeat match goal with
         | |- context [if ?b then _ else _] => destruct b
         | |- context [match ?x with _ => _ end] =>
             lazymatch x with
             | split_on_commas _ => fail
             | mapR _ _ => fail
             | _ => destruct x eqn:?
             end
         end;
    try discriminate;
    try (intros H; injection H as <-; reflexivity).
  - destruct (split_on_commas s) as [items| |] eqn:Es; simpl; try discriminate.
    + destruct (mapR (format_value_fuel fuel) items) as [values| |] eqn:Em;
        simpl; try discriminate.
      * destruct (1 <? _); try discriminate.
        intros H; injection H as <-; reflexivity.
      * intros H; injection H as <-.
        apply mapR_raise in Em as [x [_ Hx]]. eapply IH; eassumption.
    + intros H; injection H as <-. eapply split_on_commas_raise; eassumption.
  - destruct (split_on_commas s) as [items| |] eqn:Es; simpl; try discriminate.
    + destruct (mapR (format_value_fuel fuel) items) as [values| |] eqn:Em;
        simpl; try discriminate.
      intros H; injection H as <-.
      apply mapR_raise in Em as [x [_ Hx]]. eapply IH; eassumption.
    + intros H; injection H as <-. eapply split_on_commas_raise; eassumption.
Qed.

(** An error of one line carries the index that [enumerate] gave to the
    line, also inside the message. *)
Lemma parse_line_raise (i : nat) (line : string) (st : parse_state) (e : exc) :
  parse_line i line st = Raise e ->
  exists m o, e = IniSyntaxError i m o
              /\ (forall l, message_line m = Some l -> l = i).
Proof.
  unfold parse_line.
  destruct (parse_line_body i line st) as [st'|e'|] eqn:E; try discriminate.
  assert (Hbody : (exists m, e' = IniSyntaxError i m None
                             /\ forall l, message_line m = Some l -> l = i)
                  \/ is_ini_error e' = false).
  { revert E. unfold parse_line_body.
    repeat match goal with
           | |- context [if ?b then _ else _] => destruct b
           | |- context [match ?x with _ => _ end] =>
               lazymatch x with
               | format_value _ => fail
               | _ => destruct x eqn:?
               end
           end;
      try discriminate;
      try (intros H; injection H as <-;
           first [ right; reflexivity
                 | left; eexists; split; [reflexivity|];
                   simpl; intros l Hl; congruence ]).
    destruct (format_value s0) eqn:Ef; simpl; try discriminate.
    intros H; injection H as <-. right.
    eapply format_value_fuel_raise. exact Ef. }
  destruct Hbody as [[m [-> Hm]]|Hni].
  - intros H; injection H as <-. eauto.
  - destruct e'; try discriminate Hni;
      intros H; injection H as <-;
      exists ErrorMessage; eexists; (split; [reflexivity|]);
      simpl; discriminate.
Qed.

Lemma parse_lines_raise (config_file : list string) (e : exc) :
  forall i st,
    parse_lines i config_file st = Raise e ->
    exists pre line post st',
      config_file = pre ++ line :: post
      /\ parse_lines i pre st = Ok st'
      /\ parse_line (i + List.length pre) line st' = Raise e.
Proof.
  induction config_file as [|l rest IH]; simpl; intros i st; [discriminate|].
  destruct (parse_line i l st) as [st1|e1|] eqn:E; simpl; try discriminate.
  - intros H. apply IH in H as (pre & line & post & st' & -> & Hpre & Hline).
    exists (l :: pre), line, post, st'. simpl. rewrite E. simpl.
    rewrite Nat.add_succ_r. auto.
  - intros H; injection H as <-.
    exists [], l, rest, st. simpl. rewrite Nat.add_0_r. auto.
Qed.

(** C9 (amended).  A syntax error of the parser carries the zero-based
    index of the offending line (the line before which every line was
    accepted): the number that [enumerate] counts from 0, which is one less
    than the one-based position.  The messages that spell a line number
    out spell the same number. *)
Theorem get_config_dicts_error_line (config_file : list string) (e : exc) :
  get_config_dicts config_file = Raise e ->
  exists pre line post st m o,
    config_file = pre ++ line :: post
    /\ parse_lines 0 pre (mkParse empty None) = Ok st
    /\ parse_line (List.length pre) line st = Raise e
    /\ e = IniSyntaxError (List.length pre) m o
    /\ (forall l, message_line m = Some l -> l = List.length pre).
Proof.
  unfold get_config_dicts.
  destruct (parse_lines 0 config_file (mkParse empty None)) as [st|e'|] eqn:E;
    simpl; try discriminate.
  intros H; injection H as <-.
  apply parse_lines_raise in E as (pre & line & post & st & -> & Hpre & Hline).
  simpl in Hline.
  destruct (parse_line_raise _ _ _ _ Hline) as (m & o & -> & Hm).
  exists pre, line, post, st, m, o. auto.
Qed.


(** ** The value formatter *)

Lemma join_chars_length (l : list ascii) :
  String.length (join_chars l) = List.length l.
Proof.
  unfold join_chars. induction l; simpl; congruence.
Qed.

Definition split_bounded (bound : nat) (rest : nat) (st : split_state) : Prop :=
  Forall (fun x => String.length x <= bound) (items st)
  /\ List.length (char_buffer st) + rest <= bound.

Lemma split_step_bounded (bound rest i : nat) (c : ascii) (st st' : split_state) :
  split_bounded bound (S rest) st ->
  split_step i c st = Ok st' ->
  split_bounded bound rest st'.
Proof.
  intros [Hit Hbuf]. unfold split_step.
  repeat match goal with
         | |- context [if ?b then _ else _] => destruct b
         | |- context [match PyList.pop ?l with _ => _ end] =>
             destruct (PyList.pop l) as [[? ?]|]
         end; intros H; try discriminate; injection H as <-;
    unfold split_bounded; simpl;
    try rewrite length_app; simpl; (split; [|lia]); auto.
  apply Forall_app; split; auto.
  constructor; [|constructor]. rewrite join_chars_length. lia.
Qed.

Lemma split_loop_bounded (bound : nat) (text : string) :
  forall i st st',
    split_bounded bound (String.length text) st ->
    split_loop i text st = Ok st' ->
    split_bounded bound 0 st'.
Proof.
  induction text as [|c text IH]; simpl; intros i st st' Hb.
  - intros H; injection H as <-. assumption.
  - destruct (split_step i c st) as [st1| |] eqn:E; simpl; try discriminate.
    apply IH. eapply split_step_bounded; eassumption.
Qed.

(** The items are not longer than the text they are cut from. *)
Lemma split_on_commas_length (text : string) (l : list string) :
  split_on_commas text = Ok l ->
  Forall (fun x => String.length x <= String.length text) l.
Proof.
  unfold split_on_commas.
  destruct (split_loop 0 text (mkSplit [] [] [])) as [st| |] eqn:E; simpl;
    try discriminate.
  intros H; injection H as <-.
  apply split_loop_bounded with (bound := String.length text) in E.
  - destruct E as [Hit Hbuf]. apply Forall_app; split; auto.
    constructor; [|constructor]. rewrite join_chars_length. lia.
  - split; simpl; auto.
Qed.

Lemma span_length (p : ascii -> bool) (s : string) :
  String.length (fst (PyStr.span p s)) + String.length (snd (PyStr.span p s))
  = String.length s.
Proof.
  induction s as [|c s IH]; simpl; auto.
  destruct (p c); simpl; auto.
  destruct (PyStr.span p s); simpl in *. lia.
Qed.

Lemma LIST_length (text content : string) :
  Re.LIST text = Some content -> String.length content < String.length text.
Proof.
  unfold Re.LIST. destruct text as [|c r]; [discriminate|].
  destruct (Ascii.eqb c "["); [|discriminate].
  pose proof (span_length (fun x => negb (Ascii.eqb x "]")) r) as Hs.
  destruct (PyStr.span _ r) as [a b]; simpl in *.
  destruct b; [discriminate|]. intros H; injection H as <-. lia.
Qed.

Lemma before_last_length (c : ascii) (s p : string) :
  Re.before_last c s = Some p -> String.length p < String.length s.
Proof.
  revert p. induction s as [|x s IH]; simpl; intros p; [discriminate|].
  destruct (Re.before_last c s) as [q|].
  - intros H; injection H as <-. specialize (IH q eq_refl). simpl. lia.
  - destruct (Ascii.eqb x c); [|discriminate].
    intros H; injection H as <-. simpl. lia.
Qed.

Lemma TUPLE_length (text content : string) :
  Re.TUPLE text = Some content -> String.length content < String.length text.
Proof.
  unfold Re.TUPLE. destruct text as [|c r]; [discriminate|].
  destruct (Ascii.eqb c "("); [|discriminate].
  pose proof (span_length (fun x => negb (Ascii.eqb x "]")) r) as Hs.
  destruct (Re.before_last _ _) as [p|] eqn:E; [|discriminate].
  apply before_last_length in E.
  destruct p; [discriminate|]. intros H; injection H as <-. simpl in *. lia.
Qed.

Lemma mapR_ext_in {A B : Type} (f g : A -> result B) (l : list A) :
  (forall x, In x l -> f x = g x) -> mapR f l = mapR g l.
Proof.
  induction l as [|x l IH]; simpl; intros H; auto.
  rewrite (H x) by auto. rewrite IH by auto. reflexivity.
Qed.

Lemma mapR_fuel {A B : Type} (f : A -> result B) (l : list A) :
  (forall x, In x l -> f x <> OutOfFuel) -> mapR f l <> OutOfFuel.
Proof.
  induction l as [|x l IH]; simpl; intros H; [discriminate|].
  destruct (f x) eqn:E; simpl; try discriminate.
  - destruct (mapR f l); simpl; try discriminate. apply IH; auto.
  - intros _. exact (H x (or_introl eq_refl) E).
Qed.

Lemma split_on_commas_fuel (text : string) : split_on_commas text <> OutOfFuel.
Proof.
  unfold split_on_commas.
  assert (H : forall i st, split_loop i text st <> OutOfFuel).
  { induction text as [|c text IH]; simpl; intros i st; [discriminate|].
    destruct (split_step i c st) eqn:E; simpl; try discriminate; auto.
    revert E. unfold split_step.
    repeat match goal with
           | |- context [if ?b then _ else _] => destruct b
           | |- context [match PyList.pop ?l with _ => _ end] =>
               destruct (PyList.pop l) as [[? ?]|]
           end; discriminate. }
  specialize (H 0 (mkSplit [] [] [])).
  destruct (split_loop 0 text _); simpl; congruence.
Qed.

(** A budget above the length of the text is never exhausted, and the
    result does not depend on it. *)
Lemma format_value_fuel_enough (fuel : nat) :
  forall text,
    String.length text < fuel ->
    format_value_fuel fuel text <> OutOfFuel
    /\ forall fuel', String.length text < fuel' ->
                     format_value_fuel fuel' text = format_value_fuel fuel text.
Proof.
  induction fuel as [|fuel IH]; intros text Hlen; [lia|].
  assert (Hitems : forall content items,
             String.length content < String.length text ->
             split_on_commas content = Ok items ->
             forall x, In x items -> String.length x < fuel).
  { intros content items Hc Hs x Hx.
    apply split_on_commas_length in Hs.
    rewrite Forall_forall in Hs. specialize (Hs x Hx). lia. }
  split.
  - simpl.
    repeat match goal with
           | |- context [if ?b then _ else _] => destruct b
           | |- context [match ?x with _ => _ end] =>
               lazymatch x with
               | split_on_commas _ => fail
               | mapR _ _ => fail
               | _ => destruct x eqn:?
               end
           end; try discriminate.
    + destruct (split_on_commas s) as [items| |] eqn:Es; simpl; try discriminate.
      * pose proof (mapR_fuel (format_value_fuel fuel) items) as Hm.
        destruct (mapR (format_value_fuel fuel) items); simpl; try discriminate.
        -- destruct (1 <? _); discriminate.
        -- intros _. apply Hm; [|reflexivity]. intros x Hx. apply IH.
           eapply Hitems; eauto using LIST_length.
      * intros _. exact (split_on_commas_fuel s Es).
    + destruct (split_on_commas s) as [items| |] eqn:Es; simpl; try discriminate.
      * pose proof (mapR_fuel (format_value_fuel fuel) items) as Hm.
        destruct (mapR (format_value_fuel fuel) items); simpl; try discriminate.
        intros _. apply Hm; [|reflexivity]. intros x Hx. apply IH.
        eapply Hitems; eauto using TUPLE_length.
      * intros _. exact (split_on_commas_fuel s Es).
  - intros [|fuel'] Hlen'; [lia|]. simpl.
    repeat match goal with
           | |- context [if ?b then _ else _] => destruct b
           | |- context [match ?x with _ => _ end] =>
               lazymatch x with
               | split_on_commas _ => fail
               | mapR _ _ => fail
               | _ => destruct x eqn:?
               end
           end; try reflexivity.
    + destruct (split_on_commas s) as [items| |] eqn:Es; simpl; try reflexivity.
      rewrite (mapR_ext_in (format_value_fuel fuel') (format_value_fuel fuel) items);
        [reflexivity|].
      intros x Hx.
      assert (Hx' : String.length x < fuel) by (eapply Hitems; eauto using LIST_length).
      apply (proj2 (IH x Hx')).
      apply split_on_commas_length in Es. rewrite Forall_forall in Es.
      specialize (Es x Hx). apply LIST_length in Heqo2. lia.
    + destruct (split_on_commas s) as [items| |] eqn:Es; simpl; try reflexivity.
      rewrite (mapR_ext_in (format_value_fuel fuel') (format_value_fuel fuel) items);
        [reflexivity|].
      intros x Hx.
      assert (Hx' : String.length x < fuel) by (eapply Hitems; eauto using TUPLE_length).
      apply (proj2 (IH x Hx')).
      apply split_on_commas_length in Es. rewrite Forall_forall in Es.
      specialize (Es x Hx). apply TUPLE_length in Heqo3. lia.
Qed.


(** C7.  The run of [format_value] on a nested list literal.
    The pattern [LIST] stops its group at the first closing square
    bracket, so the text handed to the splitter is not the full inner
    text of the literal: the result is a list of one raw string, where
    the top-level items of the literal, formatted, are the two lists of
    integers. *)
Theorem format_value_nested_list :
  Re.LIST "[[1,2],[3,4]]" = Some "[1,2"
  /\ format_value "[[1,2],[3,4]]" = Ok (VList [VStr "[1,2"])
  /\ split_on_commas "[1,2],[3,4]" = Ok ["[1,2]"; "[3,4]"]
  /\ format_value "[1,2]" = Ok (VList [VInt 1; VInt 2])
  /\ format_value "[3,4]" = Ok (VList [VInt 3; VInt 4]).
Proof.
  repeat split.
Qed.


(** ** The object graph builder: the recursion budget *)

Lemma bindM_fuel {A B : Type} (m : M A) (k : A -> M B) (st : build_state) :
  fst (bindM m k st) <> OutOfFuel -> fst (m st) <> OutOfFuel.
Proof.
  unfold bindM. destruct (m st) as [[a|e|] st1]; simpl; congruence.
Qed.

Lemma bindM_ext {A B : Type} (m m' : M A) (k : A -> M B) (st : build_state) :
  m' st = m st -> bindM m' k st = bindM m k st.
Proof.
  unfold bindM. intros ->. reflexivity.
Qed.

Lemma mapM_ext {A B : Type} (g g' : A -> M B) (l : list A) :
  (forall x st, In x l -> fst (g x st) <> OutOfFuel -> g' x st = g x st) ->
  forall st, fst (mapM g l st) <> OutOfFuel -> mapM g' l st = mapM g l st.
Proof.
  induction l as [|x l IH]; simpl; intros Hg st H; [reflexivity|].
  pose proof (bindM_fuel _ _ _ H) as Hx.
  unfold bindM in *. rewrite (Hg x st) by auto.
  destruct (g x st) as [[y|e|] st1]; simpl in *; try reflexivity.
  assert (Hl : fst (mapM g l st1) <> OutOfFuel).
  { destruct (mapM g l st1) as [[ys|e|] st2]; simpl in *; congruence. }
  rewrite IH by auto. reflexivity.
Qed.

Lemma mapM_fuel {A B : Type} (g : A -> M B) (l : list A) :
  (forall x st, In x l -> fst (g x st) <> OutOfFuel) ->
  forall st, fst (mapM g l st) <> OutOfFuel.
Proof.
  induction l as [|x l IH]; simpl; intros Hg st; [discriminate|].
  unfold bindM. pose proof (Hg x st (or_introl eq_refl)) as Hx.
  destruct (g x st) as [[y|e|] st1]; simpl in *; try congruence.
  specialize (IH (fun z s Hz => Hg z s (or_intror Hz)) st1).
  destruct (mapM g l st1) as [[ys|e|] st2]; simpl in *; congruence.
Qed.

Lemma process_args_ext (g g' : pyvalue -> M pyvalue) (this_dict : dict pyvalue) :
  (forall k x st, In (k, x) this_dict ->
                  fst (g x st) <> OutOfFuel -> g' x st = g x st) ->
  forall st, fst (process_args g this_dict st) <> OutOfFuel ->
             process_args g' this_dict st = process_args g this_dict st.
Proof.
  induction this_dict as [|[k x] l IH]; simpl; intros Hg st H; [reflexivity|].
  destruct (negb (k =? "class")%string).
  - pose proof (bindM_fuel _ _ _ H) as Hx.
    unfold bindM in *. rewrite (Hg k x st) by auto.
    destruct (g x st) as [[y|e|] st1]; simpl in *; try reflexivity.
    assert (Hl : fst (process_args g l st1) <> OutOfFuel).
    { destruct (process_args g l st1) as [[ys|e|] st2]; simpl in *;
        try discriminate. exfalso; apply H; reflexivity. }
    rewrite IH; eauto.
  - apply IH; eauto.
Qed.

Lemma process_args_fuel (g : pyvalue -> M pyvalue) (this_dict : dict pyvalue) :
  (forall k x st, In (k, x) this_dict -> fst (g x st) <> OutOfFuel) ->
  forall st, fst (process_args g this_dict st) <> OutOfFuel.
Proof.
  induction this_dict as [|[k x] l IH]; simpl; intros Hg st; [discriminate|].
  destruct (negb (k =? "class")%string).
  - unfold bindM. pose proof (Hg k x st (or_introl eq_refl)) as Hx.
    destruct (g x st) as [[y|e|] st1]; simpl in *; try congruence.
    specialize (IH (fun k' z s Hz => Hg k' z s (or_intror Hz)) st1).
    destruct (process_args g l st1) as [[ys|e|] st2]; simpl in *;
      try discriminate. assumption.
  - apply IH. eauto.
Qed.

Lemma check_signature_fuel (name : string) (arg_spec : ArgSpec)
  (kwargs : dict pyvalue) :
  check_signature name arg_spec kwargs <> OutOfFuel.
Proof.
  unfold check_signature.
  destruct (negb _); [|discriminate].
  destruct (args arg_spec); [discriminate|].
  destruct (fold_left _ _ _) as [[|? ?] [|? ?]]; discriminate.
Qed.

Lemma instantiate_fuel (value name : string) (clazz : pyobject)
  (kwargs : dict pyvalue) (st : build_state) :
  fst (instantiate value name clazz kwargs st) <> OutOfFuel.
Proof.
  unfold instantiate.
  destruct (obj_argspec clazz); [|discriminate].
  pose proof (check_signature_fuel name a kwargs).
  destruct (check_signature name a kwargs); try congruence; try discriminate.
  destruct (construct clazz kwargs); discriminate.
Qed.

(** A budget that was not exhausted can be raised without changing the
    result. *)
Lemma get_object_fuel_mono (all_dicts : dict (dict pyvalue))
  (ignore_names : list string) (fuel : nat) :
  forall value depth st,
    fst (get_object_fuel fuel value all_dicts ignore_names depth st) <> OutOfFuel ->
    forall fuel', fuel <= fuel' ->
      get_object_fuel fuel' value all_dicts ignore_names depth st
      = get_object_fuel fuel value all_dicts ignore_names depth st.
Proof.
  induction fuel as [|fuel IH]; intros value depth st H fuel' Hle.
  - simpl in H. congruence.
  - destruct fuel' as [|fuel']; [lia|]. apply le_S_n in Hle.
    simpl in *. unfold get_object_body in *.
    destruct value; try reflexivity.
    + destruct (PyList.mem s ignore_names); [reflexivity|].
      destruct (get s (existing_objects st)); [reflexivity|].
      destruct (negb _); [reflexivity|].
      destruct (get (PyStr.drop 7 s) all_dicts) as [this_dict|]; [|reflexivity].
      destruct (20 <? depth); [reflexivity|].
      destruct (get "class" this_dict) as [clazz|]; [|reflexivity].
      destruct (callable_of clazz) as [callee|]; [|reflexivity].
      apply bindM_fuel in H. apply bindM_ext.
      apply process_args_ext; [|assumption].
      intros k x st0 _ Hx. apply IH; assumption.
    + apply bindM_fuel in H. apply bindM_ext.
      apply mapM_ext; [|assumption].
      intros x st0 _ Hx. apply IH; assumption.
    + apply bindM_fuel in H. apply bindM_ext.
      apply mapM_ext; [|assumption].
      intros x st0 _ Hx. apply IH; assumption.
Qed.

Lemma height_in (x : pyvalue) (l : list pyvalue) :
  In x l -> height x <= fold_right (fun y m => Nat.max (height y) m) 0 l.
Proof.
  induction l as [|y l IH]; simpl; [(drop_externals; tauto)|].
  intros [->|H]; [lia|]. specialize (IH H). lia.
Qed.

Lemma section_height_in (k : string) (x : pyvalue) (d : dict pyvalue) :
  In (k, x) d -> height x <= section_height d.
Proof.
  unfold section_height.
  induction d as [|[k' y] d IH]; simpl; [(drop_externals; tauto)|].
  intros [H|H]; [injection H as _ ->; lia|]. specialize (IH H). lia.
Qed.

Lemma document_height_get (name : string) (this_dict : dict pyvalue)
  (all_dicts : dict (dict pyvalue)) :
  get name all_dicts = Some this_dict ->
  section_height this_dict <= document_height all_dicts.
Proof.
  unfold document_height.
  induction all_dicts as [|[k d] l IH]; simpl; [discriminate|].
  destruct (name =? k)%string.
  - intros H; injection H as ->. lia.
  - intros H. specialize (IH H). lia.
Qed.

(** The budget [enough_fuel] is never exhausted. *)
Lemma get_object_fuel_total (all_dicts : dict (dict pyvalue))
  (ignore_names : list string) (fuel : nat) :
  forall value depth st,
    enough_fuel all_dicts value depth <= fuel ->
    fst (get_object_fuel fuel value all_dicts ignore_names depth st) <> OutOfFuel.
Proof.
  unfold enough_fuel.
  induction fuel as [|fuel IH]; intros value depth st Hle.
  - destruct value; simpl in Hle; lia.
  - simpl. unfold get_object_body. destruct value; try discriminate.
    + destruct (PyList.mem s ignore_names); [discriminate|].
      destruct (get s (existing_objects st)); [discriminate|].
      destruct (negb _); [discriminate|].
      destruct (get (PyStr.drop 7 s) all_dicts) as [this_dict|] eqn:Ed;
        [|discriminate].
      destruct (20 <? depth) eqn:Edepth; [discriminate|].
      destruct (get "class" this_dict) as [clazz|]; [|discriminate].
      destruct (callable_of clazz) as [callee|]; [|discriminate].
      apply Nat.ltb_ge in Edepth.
      assert (Hargs : forall st0,
                 fst (process_args
                        (fun arg => get_object_fuel fuel arg all_dicts
                                      ignore_names (depth + 1))
                        this_dict st0) <> OutOfFuel).
      { apply process_args_fuel. intros k x st0 Hin. apply IH.
        apply section_height_in in Hin.
        apply document_height_get in Ed.
        change (height (VStr s)) with 1 in Hle.
        assert (E21 : 21 - depth = S (21 - (depth + 1))) by lia.
        rewrite E21, Nat.mul_succ_l in Hle. lia. }
      unfold bindM. specialize (Hargs st).
      destruct (process_args _ this_dict st) as [[kw|e|] st1]; simpl in *;
        try congruence.
      apply instantiate_fuel.
    + assert (Hall : forall st0,
                 fst (mapM (fun val => get_object_fuel fuel val all_dicts
                                         ignore_names (depth + 1)) l st0)
                 <> OutOfFuel).
      { apply mapM_fuel. intros x st0 Hin. apply IH.
        apply height_in in Hin. cbn [height] in Hle.
        assert ((21 - (depth + 1)) * document_height all_dicts
                <= (21 - depth) * document_height all_dicts)
          by (apply Nat.mul_le_mono_r; lia).
        lia. }
      unfold bindM. specialize (Hall st).
      destruct (mapM _ l st) as [[vs|e|] st1]; simpl in *; congruence.
    + assert (Hall : forall st0,
                 fst (mapM (fun val => get_object_fuel fuel val all_dicts
                                         ignore_names (depth + 1)) l st0)
                 <> OutOfFuel).
      { apply mapM_fuel. intros x st0 Hin. apply IH.
        apply height_in in Hin. cbn [height] in Hle.
        assert ((21 - (depth + 1)) * document_height all_dicts
                <= (21 - depth) * document_height all_dicts)
          by (apply Nat.mul_le_mono_r; lia).
        lia. }
      unfold bindM. specialize (Hall st).
      destruct (mapM _ l st) as [[vs|e|] st1]; simpl in *; congruence.
Qed.

(** [get_object] always returns: its result is a value or an exception,
    and every larger budget gives the same result. *)
Lemma get_object_fuel_enough (all_dicts : dict (dict pyvalue))
  (ignore_names : list string) (value : pyvalue) (depth : nat)
  (st : build_state) :
  fst (get_object value all_dicts ignore_names depth st) <> OutOfFuel
  /\ forall fuel, enough_fuel all_dicts value depth <= fuel ->
       get_object_fuel fuel value all_dicts ignore_names depth st
       = get_object value all_dicts ignore_names depth st.
Proof.
  unfold get_object. split.
  - apply get_object_fuel_total. lia.
  - intros fuel Hle. apply get_object_fuel_mono; [|assumption].
    apply get_object_fuel_total. lia.
Qed.


Lemma enough_fuel_member (all_dicts : dict (dict pyvalue)) (l : list pyvalue)
  (x : pyvalue) (depth fuel : nat) :
  In x l ->
  S (fold_right (fun y m => Nat.max (height y) m) 0 l)
  + (21 - depth) * document_height all_dicts = S fuel ->
  enough_fuel all_dicts x (depth + 1) <= fuel.
Proof.
  intros Hin Hle. unfold enough_fuel. apply height_in in Hin.
  assert ((21 - (depth + 1)) * document_height all_dicts
          <= (21 - depth) * document_height all_dicts)
    by (apply Nat.mul_le_mono_r; lia).
  lia.
Qed.

Lemma enough_fuel_arg (all_dicts : dict (dict pyvalue)) (name k : string)
  (this_dict : dict pyvalue) (x : pyvalue) (depth fuel : nat) :
  get name all_dicts = Some this_dict ->
  In (k, x) this_dict ->
  depth <= 20 ->
  1 + (21 - depth) * document_height all_dicts = S fuel ->
  enough_fuel all_dicts x (depth + 1) <= fuel.
Proof.
  intros Hget Hin Hd Hle. unfold enough_fuel.
  apply section_height_in in Hin. apply document_height_get in Hget.
  assert (E21 : 21 - depth = S (21 - (depth + 1))) by lia.
  rewrite E21, Nat.mul_succ_l in Hle. lia.
Qed.

(** The equation of [get_object]: its body, with the recursive calls made
    by [get_object] itself. *)
Lemma get_object_eq (all_dicts : dict (dict pyvalue))
  (ignore_names : list string) (value : pyvalue) (depth : nat)
  (st : build_state) :
  get_object value all_dicts ignore_names depth st
  = get_object_body (fun v d => get_object v all_dicts ignore_names d)
      value all_dicts ignore_names depth st.
Proof.
  unfold get_object at 1.
  destruct (enough_fuel all_dicts value depth) as [|fuel] eqn:Efuel.
  { unfold enough_fuel in Efuel. destruct value; simpl in Efuel; lia. }
  simpl. unfold get_object_body.
  assert (Hnever : forall x d st0,
             fst (get_object x all_dicts ignore_names d st0) <> OutOfFuel).
  { intros x d st0. apply get_object_fuel_enough. }
  unfold enough_fuel in Efuel.
  destruct value; try reflexivity.
  - destruct (PyList.mem s ignore_names); [reflexivity|].
    destruct (get s (existing_objects st)); [reflexivity|].
    destruct (negb _); [reflexivity|].
    destruct (get (PyStr.drop 7 s) all_dicts) as [this_dict|] eqn:Ed;
      [|reflexivity].
    destruct (20 <? depth) eqn:Edepth; [reflexivity|].
    destruct (get "class" this_dict) as [clazz|]; [|reflexivity].
    destruct (callable_of clazz) as [callee|]; [|reflexivity].
    apply Nat.ltb_ge in Edepth.
    apply bindM_ext.
    apply (process_args_ext
             (fun arg => get_object arg all_dicts ignore_names (depth + 1))).
    + intros k x st0 Hin _. apply get_object_fuel_enough.
      eapply enough_fuel_arg; eassumption.
    + apply process_args_fuel. intros; apply Hnever.
  - apply bindM_ext.
    apply (mapM_ext (fun val => get_object val all_dicts ignore_names (depth + 1))).
    + intros x st0 Hin _. apply get_object_fuel_enough.
      eapply enough_fuel_member; eassumption.
    + apply mapM_fuel. intros; apply Hnever.
  - apply bindM_ext.
    apply (mapM_ext (fun val => get_object val all_dicts ignore_names (depth + 1))).
    + intros x st0 Hin _. apply get_object_fuel_enough.
      eapply enough_fuel_member; eassumption.
    + apply mapM_fuel. intros; apply Hnever.
Qed.


(** ** The object graph builder: sequences *)

(** The members of a sequence resolved from left to right at
    [depth + 1], each in the state its predecessor left. *)
Inductive resolves_each (all_dicts : dict (dict pyvalue))
  (ignore_names : list string) (depth : nat)
  : list pyvalue -> build_state -> list pyvalue -> build_state -> Prop :=
| resolves_nil : forall st,
    resolves_each all_dicts ignore_names depth [] st [] st
| resolves_cons : forall val l st obj st1 objs st2,
    get_object val all_dicts ignore_names (depth + 1) st = (Ok obj, st1) ->
    resolves_each all_dicts ignore_names depth l st1 objs st2 ->
    resolves_each all_dicts ignore_names depth (val :: l) st (obj :: objs) st2.

Lemma mapM_resolves_each (all_dicts : dict (dict pyvalue))
  (ignore_names : list string) (depth : nat) (l : list pyvalue) :
  forall st objs st',
    mapM (fun val => get_object val all_dicts ignore_names (depth + 1)) l st
    = (Ok objs, st')
    <-> resolves_each all_dicts ignore_names depth l st objs st'.
Proof.
  induction l as [|val l IH]; intros st objs st'; simpl.
  - unfold ret. split.
    + intros H; injection H as <- <-. constructor.
    + intros H; inversion H; reflexivity.
  - unfold bindM. split.
    + destruct (get_object val all_dicts ignore_names (depth + 1) st)
        as [[obj|e|] st1] eqn:E1; try discriminate.
      destruct (mapM _ l st1) as [[objs'|e|] st2] eqn:E2; try discriminate.
      unfold ret. intros H; injection H as <- <-.
      econstructor; [eassumption|]. apply IH. assumption.
    + intros H; inversion H as [|? ? ? obj st1 objs' ? H1 H2]; subst.
      rewrite H1. apply IH in H2. rewrite H2. reflexivity.
Qed.

(** C5 (amended).  A list and a tuple are resolved alike: the result is
    always a list (the sequence kind of a tuple is not kept), whose
    members are the resolutions of the members of the value, made from
    left to right at [depth + 1]. *)
Theorem get_object_sequence (all_dicts : dict (dict pyvalue))
  (ignore_names : list string) (l : list pyvalue) (depth : nat)
  (st : build_state) :
  get_object (VTuple l) all_dicts ignore_names depth st
  = get_object (VList l) all_dicts ignore_names depth st
  /\ forall obj st',
       get_object (VList l) all_dicts ignore_names depth st = (Ok obj, st')
       <-> exists objs,
             obj = VList objs
             /\ resolves_each all_dicts ignore_names depth l st objs st'.
Proof.
  split.
  - rewrite !get_object_eq. reflexivity.
  - intros obj st'. rewrite get_object_eq. simpl. unfold bindM.
    split.
    + destruct (mapM _ l st) as [[objs|e|] st1] eqn:E; try discriminate.
      unfold ret. intros H; injection H as <- <-.
      exists objs. split; [reflexivity|].
      apply mapM_resolves_each. assumption.
    + intros [objs [-> H]]. apply mapM_resolves_each in H.
      rewrite H. reflexivity.
Qed.


(** ** The object graph builder: the check of the signature *)

(** the names that an error of the check lists *)
Definition names_in (e : exc) : list string :=
  match e with
  | MissingRequiredArgs _ l => l
  | UnexpectedArgument _ l => l
  | _ => []
  end.

(** [required_args] as line 224 or 226 of the source computes it *)
Definition required_of (arg_spec : ArgSpec) : list string :=
  let n := List.length (match defaults arg_spec with Some d => d | None => [] end) in
  match args arg_spec with
  | [] => []
  | first :: _ =>
      PyList.to_set
        (PyList.slice_to_neg (if String.eqb first "self" then 1 else 0) n
           (args arg_spec))
  end.

Lemma mem_In (x : string) (l : list string) :
  PyList.mem x l = true <-> In x l.
Proof.
  unfold PyList.mem. rewrite existsb_exists. split.
  - intros [y [Hy E]]. apply String.eqb_eq in E. now subst.
  - intros H. exists x. split; [assumption|apply String.eqb_refl].
Qed.

Lemma add_In (x y : string) (l : list string) :
  In y (PyList.add x l) <-> y = x \/ In y l.
Proof.
  unfold PyList.add. destruct (PyList.mem x l) eqn:E.
  - apply mem_In in E. split; [auto|]. intros [->|H]; assumption.
  - rewrite in_app_iff. simpl. (drop_externals; intuition).
Qed.

Lemma to_set_In (x : string) (l : list string) :
  In x (PyList.to_set l) <-> In x l.
Proof.
  unfold PyList.to_set.
  assert (H : forall acc, In x (fold_left (fun a y => PyList.add y a) l acc)
                          <-> In x acc \/ In x l).
  { induction l as [|y l IH]; simpl; intros acc; [(drop_externals; tauto)|].
    rewrite IH, add_In. (drop_externals; intuition). }
  rewrite H. simpl. (drop_externals; tauto).
Qed.

Lemma remove_filter (key : string) (l : list string) :
  (if PyList.mem key l then PyList.remove key l else l)
  = filter (fun r => negb (String.eqb key r)) l.
Proof.
  destruct (PyList.mem key l) eqn:E; [reflexivity|].
  symmetry. apply forallb_filter_id. apply forallb_forall. intros r Hr.
  destruct (String.eqb key r) eqn:Er; [|reflexivity].
  apply String.eqb_eq in Er. subst r.
  apply mem_In in Hr. congruence.
Qed.

(** The loop over the supplied names: a required name stays when it was
    not supplied, and a supplied name is unexpected when the signature
    does not have it. *)
Lemma check_keys_spec (all_args : list string) (supplied : list string) :
  forall required additional,
    fst (fold_left (check_key all_args) supplied (required, additional))
    = filter (fun r => negb (PyList.mem r supplied)) required
    /\ forall k,
         In k (snd (fold_left (check_key all_args) supplied (required, additional)))
         <-> In k additional \/ (In k supplied /\ ~ In k all_args).
Proof.
  induction supplied as [|key supplied IH]; intros required additional.
  - simpl. split.
    + symmetry. apply forallb_filter_id. apply forallb_forall. reflexivity.
    + intros k. (drop_externals; tauto).
  - cbn [fold_left check_key]. rewrite remove_filter.
    destruct (IH (filter (fun r => negb (String.eqb key r)) required)
                (if negb (PyList.mem key all_args)
                 then PyList.add key additional else additional))
      as [IH1 IH2].
    split.
    + rewrite IH1. clear. induction required as [|r l IHl]; simpl; auto.
      rewrite (String.eqb_sym r key).
      destruct (String.eqb key r); simpl; [assumption|].
      destruct (PyList.mem r supplied); simpl;
        first [exact IHl | f_equal; exact IHl].
    + intros k. rewrite IH2. simpl.
      destruct (PyList.mem key all_args) eqn:E; simpl.
      * apply mem_In in E. (drop_externals; intuition). subst. contradiction.
      * rewrite add_In.
        assert (~ In key all_args) by (rewrite <- mem_In; congruence).
        (drop_externals; intuition). subst. auto.
Qed.

(** C4 (amended).  The check of a signature without variadic keywords
    raises one of two errors.  When a required name is missing, the error
    lists the missing names and nothing else, whether or not unexpected
    names were supplied; the unexpected names are listed, in an error of
    their own, only when no required name is missing. *)
Theorem check_signature_reports (name : string) (arg_spec : ArgSpec)
  (kwargs : dict pyvalue) :
  truthy_name (keywords arg_spec) = false ->
  args arg_spec <> [] ->
  let missing :=
    filter (fun r => negb (PyList.mem r (keys kwargs))) (required_of arg_spec) in
  (missing <> [] ->
   check_signature name arg_spec kwargs = Raise (MissingRequiredArgs name missing))
  /\ (missing = [] ->
      (exists k, In k (keys kwargs) /\ ~ In k (args arg_spec)) ->
      exists additional,
        check_signature name arg_spec kwargs
        = Raise (UnexpectedArgument name additional)
        /\ forall k, In k additional
                     <-> In k (keys kwargs) /\ ~ In k (args arg_spec))
  /\ (missing = [] ->
      (forall k, In k (keys kwargs) -> In k (args arg_spec)) ->
      check_signature name arg_spec kwargs = Ok tt).
Proof.
  intros Hkw Hargs missing.
  unfold check_signature. rewrite Hkw. simpl negb. cbv iota.
  destruct (args arg_spec) as [|first rest] eqn:Eargs; [congruence|].
  set (required :=
         if String.eqb first "self"
         then PyList.to_set (PyList.slice_to_neg 1 _ (first :: rest))
         else PyList.to_set (PyList.slice_to_neg 0 _ (first :: rest))).
  assert (Hreq : required = required_of arg_spec).
  { unfold required, required_of. rewrite Eargs.
    destruct (String.eqb first "self"); reflexivity. }
  destruct (check_keys_spec (PyList.to_set (first :: rest)) (keys kwargs)
              required []) as [H1 H2].
  destruct (fold_left _ (keys kwargs) (required, []))
    as [required_left additional] eqn:Efold.
  simpl in H1, H2. rewrite Hreq in H1. fold missing in H1. subst required_left.
  assert (H3 : forall k, In k additional
                         <-> In k (keys kwargs) /\ ~ In k (first :: rest)).
  { intros k. rewrite H2, to_set_In. (drop_externals; tauto). }
  repeat split.
  - intros Hm. destruct missing; [congruence|reflexivity].
  - intros Hm [k Hk]. rewrite Hm.
    destruct additional as [|a l] eqn:Ea.
    + apply H3 in Hk. destruct Hk.
    + exists (a :: l). split; [reflexivity|assumption].
  - intros Hm Hall. rewrite Hm.
    destruct additional as [|a l]; [reflexivity|].
    destruct (proj1 (H3 a) (or_introl eq_refl)) as [Ha Hn].
    elim Hn. apply Hall. assumption.
Qed.


(** Without default values the set of required names is empty, whatever
    the parameters are: the stop bound of the slice is 0. *)
Lemma required_of_no_defaults (arg_spec : ArgSpec) :
  defaults arg_spec = None \/ defaults arg_spec = Some [] ->
  required_of arg_spec = [].
Proof.
  unfold required_of. intros [-> | ->]; simpl;
    destruct (args arg_spec) as [|first rest]; try reflexivity;
    unfold PyList.slice_to_neg; simpl; destruct (String.eqb first "self");
    reflexivity.
Qed.

(** C3.  The check of the signature on a class whose parameters have no
    default value.  The stop bound of the slice that computes
    [required_args] is the negation of the number of defaults, which is 0
    here, so the slice is empty: the parameter [size] of [Layer] is not in
    the set of required names, the check accepts the object that omits
    it, and the loader goes on to call the constructor. *)
Theorem check_signature_without_defaults :
  args Layer_spec = ["self"; "size"]
  /\ defaults Layer_spec = None
  /\ required_of Layer_spec = []
  /\ check_signature "net" Layer_spec [] = Ok tt
  /\ get_object (VStr "object:net") [("net", [("class", VObj Layer)])] [] 0
       (mkState [] [])
     = match construct Layer [] with
       | Some exc => (Raise (ConfigBuildException "net" exc), mkState [] [])
       | None => (Ok (VInst 0),
                  mkState [("object:net", VInst 0)]
                          [mkInstance "net" Layer []])
       end.
Proof.
  repeat split.
  unfold get_object. simpl. unfold get_object_body. simpl.
  unfold bindM, ret, instantiate. simpl.
  destruct (construct Layer []); reflexivity.
Qed.

(** ** The object graph builder: strings *)

Lemma instantiate_ok (value name : string) (clazz : pyobject)
  (kwargs : dict pyvalue) (st st' : build_state) (obj : pyvalue) :
  instantiate value name clazz kwargs st = (Ok obj, st') ->
  obj = VInst (List.length (heap st))
  /\ st' = mkState (set value obj (existing_objects st))
                   (heap st ++ [mkInstance name clazz kwargs]).
Proof.
  unfold instantiate.
  destruct (obj_argspec clazz); [|discriminate].
  destruct (check_signature name a kwargs); try discriminate.
  destruct (construct clazz kwargs); [discriminate|].
  unfold bindM, allocate, store, ret. simpl.
  intros H; injection H as <- <-. auto.
Qed.

Lemma instantiate_raise (value name : string) (clazz : pyobject)
  (kwargs : dict pyvalue) (st st' : build_state) (e : exc) :
  instantiate value name clazz kwargs st = (Raise e, st') -> st' = st.
Proof.
  unfold instantiate.
  destruct (obj_argspec clazz); [|unfold raise; congruence].
  destruct (check_signature name a kwargs); unfold raise; try congruence.
  destruct (construct clazz kwargs); unfold raise; [congruence|].
  unfold bindM, allocate, store, ret. simpl. discriminate.
Qed.

(** The test [value in ignore_names] compares the whole string. *)
Lemma get_object_ignored (all_dicts : dict (dict pyvalue))
  (ignore_names : list string) (s : string) (depth : nat) (st : build_state) :
  PyList.mem s ignore_names = true ->
  get_object (VStr s) all_dicts ignore_names depth st
  = (Ok VNone, mkState (set s VNone (existing_objects st)) (heap st)).
Proof.
  intros H. rewrite get_object_eq. simpl. rewrite H. reflexivity.
Qed.

(** The test [value in existing_objects]: the object comes from the
    dictionary, and nothing is built. *)
Lemma get_object_cached (all_dicts : dict (dict pyvalue))
  (ignore_names : list string) (s : string) (depth : nat) (st : build_state)
  (obj : pyvalue) :
  PyList.mem s ignore_names = false ->
  get s (existing_objects st) = Some obj ->
  get_object (VStr s) all_dicts ignore_names depth st = (Ok obj, st).
Proof.
  intros Hi Hc. rewrite get_object_eq. simpl. rewrite Hi, Hc. reflexivity.
Qed.

Lemma set_get_same {V : Type} (k : string) (v : V) (d : dict V) :
  get k (set k v d) = Some v.
Proof.
  induction d as [|[k' v'] d IH]; simpl.
  - now rewrite String.eqb_refl.
  - destruct (String.eqb k k') eqn:E; simpl; rewrite E; auto.
Qed.

Lemma set_get_other {V : Type} (k k' : string) (v : V) (d : dict V) :
  k' <> k -> get k' (set k v d) = get k' d.
Proof.
  intros Hne. induction d as [|[k0 v0] d IH]; simpl.
  - destruct (String.eqb k' k) eqn:E; [|reflexivity].
    apply String.eqb_eq in E. contradiction.
  - destruct (String.eqb k k0) eqn:E; simpl.
    + apply String.eqb_eq in E. subst k0.
      destruct (String.eqb k' k) eqn:E'; [|reflexivity].
      apply String.eqb_eq in E'. contradiction.
    + destruct (String.eqb k' k0); auto.
Qed.

(** a value that is neither a string nor a sequence: [get_object] returns
    it as it is *)
Definition scalar (v : pyvalue) : bool :=
  match v with
  | VStr _ | VList _ | VTuple _ => false
  | _ => true
  end.

Lemma get_object_scalar (all_dicts : dict (dict pyvalue))
  (ignore_names : list string) (v : pyvalue) (depth : nat) (st : build_state) :
  scalar v = true ->
  get_object v all_dicts ignore_names depth st = (Ok v, st).
Proof.
  intros H. rewrite get_object_eq.
  destruct v; try discriminate H; reflexivity.
Qed.

(** ** The object graph builder: the guard on the depth *)

(** the marker of a reference to the section [name] *)
Definition ref (name : string) : pyvalue := VStr ("object:" ++ name).

(** the entries of a section that are arguments of its constructor *)
Definition section_args (this_dict : dict pyvalue) : dict pyvalue :=
  filter (fun kv => negb (String.eqb (fst kv) "class")) this_dict.

Lemma startswith_ref (name : string) :
  PyStr.startswith "object:" ("object:" ++ name) = true.
Proof.
  unfold PyStr.startswith. simpl.
  repeat (destruct (ascii_dec _ _); [|congruence]).
  destruct name; reflexivity.
Qed.

Lemma drop_ref (name : string) : PyStr.drop 7 ("object:" ++ name) = name.
Proof. destruct name; reflexivity. Qed.

Lemma process_args_section_args (g : pyvalue -> M pyvalue)
  (this_dict : dict pyvalue) (st : build_state) :
  process_args g this_dict st = process_args g (section_args this_dict) st.
Proof.
  revert st. induction this_dict as [|[k x] l IH]; intros st; [reflexivity|].
  unfold section_args. simpl.
  destruct (negb (String.eqb k "class")) eqn:E; simpl.
  - rewrite E. unfold bindM. destruct (g x st) as [[y|e|] st1]; try reflexivity.
    fold (section_args l). rewrite IH. reflexivity.
  - apply IH.
Qed.

Definition scalars (d : dict pyvalue) : bool :=
  forallb (fun kv => scalar (snd kv)) d.

(** [link_by all_dicts name next ...]: the class of the section [name] can
    be called, and the first of its arguments that is not a scalar is a
    reference to the section [next].  [pure_link] asks in addition that
    every other argument is a scalar. *)
Definition link_by (all_dicts : dict (dict pyvalue)) (name next : string)
  (this_dict : dict pyvalue) (callee : pyobject)
  (before : dict pyvalue) (k : string) (after : dict pyvalue) : Prop :=
  get name all_dicts = Some this_dict
  /\ (exists clazz, get "class" this_dict = Some clazz
                    /\ callable_of clazz = Some callee)
  /\ section_args this_dict = before ++ (k, ref next) :: after
  /\ scalars before = true.

Definition pure_link (all_dicts : dict (dict pyvalue)) (name next : string)
  : Prop :=
  exists this_dict callee before k after,
    link_by all_dicts name next this_dict callee before k after
    /\ scalars after = true.

(** A chain of [n] pure links that ends in a section whose arguments are
    scalars. *)
Inductive chain (all_dicts : dict (dict pyvalue)) : nat -> string -> Prop :=
| chain_end : forall name this_dict,
    get name all_dicts = Some this_dict ->
    scalars (section_args this_dict) = true ->
    chain all_dicts 0 name
| chain_link : forall n name next,
    pure_link all_dicts name next ->
    chain all_dicts n next ->
    chain all_dicts (S n) name.

Lemma section_args_keys (this_dict : dict pyvalue) :
  forallb (fun kv => negb (String.eqb (fst kv) "class")) (section_args this_dict)
  = true.
Proof.
  apply forallb_forall. intros kv H. apply filter_In in H. exact (proj2 H).
Qed.

Lemma process_args_app (g : pyvalue -> M pyvalue) (d1 d2 : dict pyvalue) :
  forall st,
    process_args g (d1 ++ d2) st
    = (a <~ process_args g d1 ;; b <~ process_args g d2 ;; ret (a ++ b)) st.
Proof.
  induction d1 as [|[k x] d1 IH]; intros st; simpl.
  - unfold bindM, ret. destruct (process_args g d2 st) as [[b|e|] st1]; reflexivity.
  - destruct (negb (String.eqb k "class")).
    + unfold bindM, ret in *. destruct (g x st) as [[y|e|] st1]; try reflexivity.
      rewrite IH. destruct (process_args g d1 st1) as [[a|e|] st2]; try reflexivity.
      destruct (process_args g d2 st2) as [[b|e|] st3]; reflexivity.
    + apply IH.
Qed.

Lemma process_args_scalars (g : pyvalue -> M pyvalue) (d : dict pyvalue) :
  (forall v st, scalar v = true -> g v st = (Ok v, st)) ->
  forallb (fun kv => negb (String.eqb (fst kv) "class")) d = true ->
  scalars d = true ->
  forall st, process_args g d st = (Ok d, st).
Proof.
  intros Hg. induction d as [|[k x] d IH]; intros Hk Hs st; [reflexivity|].
  simpl in *. apply andb_true_iff in Hk as [Hk Hk'].
  apply andb_true_iff in Hs as [Hs Hs'].
  rewrite Hk. unfold bindM, ret. rewrite (Hg x st Hs), (IH Hk' Hs' st).
  reflexivity.
Qed.

(** The call on a reference to a linked section, once the tests on the
    string are passed: the scalars before the reference are taken as they
    are, then the reference to the next section is resolved one level
    deeper. *)
Lemma get_object_link (all_dicts : dict (dict pyvalue))
  (ignore_names : list string) (name next : string)
  (this_dict : dict pyvalue) (callee : pyobject)
  (before : dict pyvalue) (k : string) (after : dict pyvalue)
  (depth : nat) (st : build_state) :
  link_by all_dicts name next this_dict callee before k after ->
  PyList.mem ("object:" ++ name) ignore_names = false ->
  get ("object:" ++ name) (existing_objects st) = None ->
  depth <= 20 ->
  get_object (ref name) all_dicts ignore_names depth st
  = (args <~ (obj <~ get_object (ref next) all_dicts ignore_names (depth + 1) ;;
              rest <~ process_args
                        (fun arg => get_object arg all_dicts ignore_names (depth + 1))
                        after ;;
              ret (before ++ (k, obj) :: rest)) ;;
     instantiate ("object:" ++ name) name callee args) st.
Proof.
  intros (Hget & (clazz & Hclass & Hcall) & Hargs & Hbefore) Hi Hc Hd.
  rewrite get_object_eq. unfold ref at 1. cbn [get_object_body].
  rewrite Hi, Hc, startswith_ref, drop_ref, Hget. simpl negb. cbv iota.
  apply Nat.ltb_ge in Hd. rewrite Hd, Hclass, Hcall.
  pose proof (section_args_keys this_dict) as Hkeys.
  rewrite Hargs in Hkeys. rewrite forallb_app in Hkeys.
  apply andb_true_iff in Hkeys as [Hkb Hka]. simpl in Hka.
  apply andb_true_iff in Hka as [Hk Hka].
  unfold bindM at 1 3. rewrite process_args_section_args, Hargs.
  rewrite process_args_app. unfold bindM at 1.
  rewrite (process_args_scalars _ before
             (fun v st0 => get_object_scalar all_dicts ignore_names v (depth + 1) st0)
             Hkb Hbefore).
  cbn [process_args]. rewrite Hk. unfold bindM, ret.
  destruct (get_object (ref next) all_dicts ignore_names (depth + 1) st)
    as [[obj|e|] st1]; try reflexivity.
  destruct (process_args _ after st1) as [[rest|e|] st2]; reflexivity.
Qed.

Lemma get_object_too_deep (all_dicts : dict (dict pyvalue))
  (ignore_names : list string) (s : string) (this_dict : dict pyvalue)
  (depth : nat) (st : build_state) :
  PyList.mem s ignore_names = false ->
  get s (existing_objects st) = None ->
  PyStr.startswith "object:" s = true ->
  get (PyStr.drop 7 s) all_dicts = Some this_dict ->
  20 < depth ->
  get_object (VStr s) all_dicts ignore_names depth st
  = (Raise DepthExceeded, st).
Proof.
  intros Hi Hc Hp Hget Hd. rewrite get_object_eq. simpl.
  rewrite Hi, Hc, Hp, Hget. apply Nat.ltb_lt in Hd. rewrite Hd. reflexivity.
Qed.

Lemma instantiate_not_too_deep (value name : string) (clazz : pyobject)
  (kwargs : dict pyvalue) (st : build_state) :
  fst (instantiate value name clazz kwargs st) <> Raise DepthExceeded.
Proof.
  unfold instantiate.
  destruct (obj_argspec clazz) as [arg_spec|]; [|discriminate].
  destruct (check_signature name arg_spec kwargs) as [|e|] eqn:E;
    try discriminate.
  - destruct (construct clazz kwargs); discriminate.
  - revert E. unfold check_signature.
    destruct (negb _); [|discriminate].
    destruct (args arg_spec); [intros H; injection H as <-; discriminate|].
    destruct (fold_left _ _ _) as [[|? ?] [|? ?]];
      intros H; try discriminate H; injection H as <-; discriminate.
Qed.

(** The guard does not reject a pure chain whose deepest section is
    reached at a depth of 20 or less. *)
Lemma get_object_chain (all_dicts : dict (dict pyvalue))
  (ignore_names : list string) (n : nat) :
  forall name depth st,
    chain all_dicts n name ->
    depth + n <= 20 ->
    fst (get_object (ref name) all_dicts ignore_names depth st)
    <> Raise DepthExceeded.
Proof.
  induction n as [|n IH]; intros name depth st Hchain Hd.
  - inversion Hchain as [? this_dict Hget Hargs|]; subst.
    rewrite get_object_eq. unfold ref. cbn [get_object_body].
    destruct (PyList.mem _ ignore_names); [discriminate|].
    destruct (get _ (existing_objects st)); [discriminate|].
    rewrite startswith_ref, drop_ref, Hget. simpl negb. cbv iota.
    assert (E : (20 <? depth) = false) by (apply Nat.ltb_ge; lia).
    rewrite E.
    destruct (get "class" this_dict) as [clazz|]; [|discriminate].
    destruct (callable_of clazz) as [callee|]; [|discriminate].
    unfold bindM. rewrite process_args_section_args.
    rewrite (process_args_scalars _ (section_args this_dict)
               (fun v st0 => get_object_scalar all_dicts ignore_names v (depth + 1) st0)
               (section_args_keys this_dict) Hargs).
    apply instantiate_not_too_deep.
  - inversion Hchain as [|? ? next Hlink Hnext]; subst.
    destruct (PyList.mem ("object:" ++ name) ignore_names) eqn:Hi.
    { unfold ref. rewrite get_object_ignored by assumption. discriminate. }
    destruct (get ("object:" ++ name) (existing_objects st)) as [obj|] eqn:Hc.
    { unfold ref. rewrite (get_object_cached _ _ _ _ _ obj) by assumption.
      discriminate. }
    destruct Hlink as (this_dict & callee & before & k & after & Hlink & Hafter).
    rewrite (get_object_link all_dicts ignore_names name next this_dict callee
               before k after depth st Hlink Hi Hc ltac:(lia)).
    specialize (IH next (depth + 1) st Hnext ltac:(lia)).
    unfold bindM.
    destruct (get_object (ref next) all_dicts ignore_names (depth + 1) st)
      as [[obj|e|] st1]; simpl in *; try congruence.
    assert (Hkeys : forallb (fun kv => negb (String.eqb (fst kv) "class")) after
                    = true).
    { destruct Hlink as (_ & _ & Hargs & _).
      pose proof (section_args_keys this_dict) as H.
      rewrite Hargs, forallb_app in H. apply andb_true_iff in H as [_ H].
      simpl in H. apply andb_true_iff in H as [_ H]. exact H. }
    rewrite (process_args_scalars _ after
               (fun v st0 => get_object_scalar all_dicts ignore_names v (depth + 1) st0)
               Hkeys Hafter).
    unfold ret. apply instantiate_not_too_deep.
Qed.

(** ** The object graph builder: one instance for each name *)

(** Induction on a value and on the members of its sequences. *)
Lemma pyvalue_rect_members (P : pyvalue -> Prop) :
  (forall b, P (VBool b)) -> P VNone -> (forall n, P (VInt n)) ->
  (forall s, P (VFloat s)) -> (forall s, P (VStr s)) ->
  (forall o, P (VObj o)) ->
  (forall l, Forall P l -> P (VList l)) ->
  (forall l, Forall P l -> P (VTuple l)) ->
  (forall id, P (VInst id)) ->
  forall v, P v.
Proof.
  intros Hb Hn Hi Hf Hs Ho Hl Ht Hinst.
  fix rec 1. intros v.
  destruct v as [b| |n|s|s|o|l|l|id].
  - apply Hb.
  - apply Hn.
  - apply Hi.
  - apply Hf.
  - apply Hs.
  - apply Ho.
  - apply Hl. induction l as [|x l IH]; constructor; [apply rec|exact IH].
  - apply Ht. induction l as [|x l IH]; constructor; [apply rec|exact IH].
  - apply Hinst.
Qed.

(** the strings at the leaves of a value *)
Fixpoint strings_of (v : pyvalue) : list string :=
  match v with
  | VStr s => [s]
  | VList l | VTuple l => flat_map strings_of l
  | _ => []
  end.

(** What resolution makes of a value, read off [existing_objects]: a
    string that has an entry becomes the object of the entry, a sequence
    becomes the list of its resolved members. *)
Fixpoint resolved (existing : dict pyvalue) (v : pyvalue) : pyvalue :=
  match v with
  | VStr s => match get s existing with Some obj => obj | None => v end
  | VList l | VTuple l => VList (map (resolved existing) l)
  | _ => v
  end.

Definition resolved_args (existing : dict pyvalue) (this_dict : dict pyvalue)
  : dict pyvalue :=
  map (fun kv => (fst kv, resolved existing (snd kv))) (section_args this_dict).

Definition arg_strings (this_dict : dict pyvalue) : list string :=
  flat_map (fun kv => strings_of (snd kv)) (section_args this_dict).

Definition cached (st : build_state) (k : string) : Prop :=
  get k (existing_objects st) <> None.

Lemma cached_set (st : build_state) (k k' : string) (obj : pyvalue)
  (h : list instance) :
  cached st k' -> cached (mkState (set k obj (existing_objects st)) h) k'.
Proof.
  unfold cached. simpl. intros H.
  destruct (string_dec k' k) as [->|Hne].
  - rewrite set_get_same. discriminate.
  - rewrite set_get_other by assumption. assumption.
Qed.

Lemma prefix_drop (s : string) :
  PyStr.startswith "object:" s = true -> ("object:" ++ PyStr.drop 7 s)%string = s.
Proof.
  unfold PyStr.startswith. intros H.
  apply String.prefix_correct in H. simpl in H.
  do 7 (destruct s as [|? s]; [discriminate H|]).
  injection H as <- <- <- <- <- <- <-. reflexivity.
Qed.


(** ** The object graph builder: what is a reference *)

(** C10.  A scalar is returned as it is, and a string that is neither
    ignored nor in [existing_objects] is an object reference exactly when
    it begins with "object:".  Without the prefix it is returned unchanged.
    With it, the string is the prefix followed by a name, and that name,
    the text after the prefix, is the section that is looked up: the call
    fails when no such section is declared; when it succeeds the result is
    a new instance built from that section and stored in
    [existing_objects] under the whole prefixed string; and it does
    succeed, with the instance and the entry given here, when the section
    has a class that can be called, scalar arguments that the signature
    accepts and a constructor that returns.  The value grammar leaves the
    text object:foo as it is, so such a text is a reference. *)
Theorem get_object_reference_prefix (all_dicts : dict (dict pyvalue))
  (ignore_names : list string) (s : string) (depth : nat) (st : build_state) :
  PyList.mem s ignore_names = false ->
  get s (existing_objects st) = None ->
  (PyStr.startswith "object:" s = false ->
   get_object (VStr s) all_dicts ignore_names depth st = (Ok (VStr s), st))
  /\ (PyStr.startswith "object:" s = true ->
      exists name,
        s = ("object:" ++ name)%string
        /\ (get name all_dicts = None ->
            get_object (VStr s) all_dicts ignore_names depth st
            = (Raise (ObjectNotDefined name), st))
        /\ (forall obj st',
               get_object (VStr s) all_dicts ignore_names depth st
               = (Ok obj, st') ->
               get s (existing_objects st') = Some obj
               /\ exists id this_dict clazz callee kwargs,
                    obj = VInst id
                    /\ get name all_dicts = Some this_dict
                    /\ get "class" this_dict = Some clazz
                    /\ callable_of clazz = Some callee
                    /\ nth_error (heap st') id
                       = Some (mkInstance name callee kwargs))
        /\ (forall this_dict clazz callee arg_spec,
               get name all_dicts = Some this_dict ->
               depth <= 20 ->
               get "class" this_dict = Some clazz ->
               callable_of clazz = Some callee ->
               scalars (section_args this_dict) = true ->
               obj_argspec callee = Some arg_spec ->
               check_signature name arg_spec (section_args this_dict) = Ok tt ->
               construct callee (section_args this_dict) = None ->
               get_object (VStr s) all_dicts ignore_names depth st
               = (Ok (VInst (List.length (heap st))),
                  mkState (set s (VInst (List.length (heap st)))
                               (existing_objects st))
                          (heap st
                           ++ [mkInstance name callee
                                 (section_args this_dict)]))))
  /\ (forall v, scalar v = true ->
                get_object v all_dicts ignore_names depth st = (Ok v, st))
  /\ format_value "object:foo" = Ok (VStr "object:foo").
Proof.
  intros Hi Hc. split; [|split; [|split; [|reflexivity]]].
  - intros Hp. rewrite get_object_eq. simpl. rewrite Hi, Hc, Hp. reflexivity.
  - intros Hp. exists (PyStr.drop 7 s).
    split; [symmetry; apply prefix_drop; assumption|].
    split; [|split].
    + intros Hn. rewrite get_object_eq. simpl. rewrite Hi, Hc, Hp, Hn.
      reflexivity.
    + intros obj st'. rewrite get_object_eq. simpl. rewrite Hi, Hc, Hp. simpl.
      destruct (get (PyStr.drop 7 s) all_dicts) as [this_dict|]; [|discriminate].
      destruct (20 <? depth); [discriminate|].
      destruct (get "class" this_dict) as [clazz|] eqn:Ec; [|discriminate].
      destruct (callable_of clazz) as [callee|] eqn:Ecall; [|discriminate].
      unfold bindM. destruct (process_args _ this_dict st) as [[kwargs|e|] st1];
        try discriminate.
      intros Hinst. apply instantiate_ok in Hinst as [-> ->]. simpl.
      split; [apply set_get_same|].
      exists (List.length (heap st1)), this_dict, clazz, callee, kwargs.
      repeat split; auto.
      rewrite nth_error_app2 by lia. rewrite Nat.sub_diag. reflexivity.
    + intros this_dict clazz callee arg_spec Hget Hd Hclass Hcall Hargs Hspec
        Hcheck Hcons.
      rewrite get_object_eq. cbn [get_object_body].
      rewrite Hi, Hc, Hp, Hget. simpl negb. cbv iota.
      apply Nat.ltb_ge in Hd. rewrite Hd, Hclass, Hcall.
      unfold bindM. rewrite process_args_section_args.
      rewrite (process_args_scalars _ (section_args this_dict)
                 (fun v st0 =>
                    get_object_scalar all_dicts ignore_names v (depth + 1) st0)
                 (section_args_keys this_dict) Hargs).
      unfold instantiate. rewrite Hspec, Hcheck, Hcons.
      unfold bindM, allocate, store, ret. reflexivity.
  - intros v Hv. apply get_object_scalar. assumption.
Qed.

Section Graph.

Variable all_dicts : dict (dict pyvalue).
Variable ignore_names : list string.

(** the strings that [get_object] can enter into [existing_objects] *)
Definition is_ref (s : string) : bool :=
  PyList.mem s ignore_names || PyStr.startswith "object:" s.

(** [edge x y]: the section that the reference [x] names has an
    argument in which the reference [y] occurs *)
Definition edge (x y : string) : Prop :=
  PyList.mem x ignore_names = false
  /\ PyStr.startswith "object:" x = true
  /\ exists this_dict,
       get (PyStr.drop 7 x) all_dicts = Some this_dict
       /\ In y (arg_strings this_dict)
       /\ is_ref y = true.

Inductive reach (x : string) : string -> Prop :=
| reach_refl : reach x x
| reach_step : forall y z, reach x y -> edge y z -> reach x z.

(** [x] lies on a cycle of references *)
Definition cyclic (x : string) : Prop :=
  exists w, reach x w /\ edge w x.

Lemma reach_trans (x y z : string) : reach x y -> reach y z -> reach x z.
Proof.
  intros Hxy Hyz. induction Hyz as [|w z Hyw IH Hwz]; [assumption|].
  eapply reach_step; eassumption.
Qed.

Lemma reach_edge (x y z : string) : edge x y -> reach y z -> reach x z.
Proof.
  intros He Hr. eapply reach_trans; [|eassumption].
  eapply reach_step; [apply reach_refl|assumption].
Qed.

Lemma reach_head (x z : string) :
  reach x z -> x = z \/ exists y, edge x y /\ reach y z.
Proof.
  intros Hr. induction Hr as [|y z Hxy IH Hyz]; [left; reflexivity|].
  right. destruct IH as [->|[w [Hxw Hwy]]].
  - exists z. split; [assumption|apply reach_refl].
  - exists w. split; [assumption|]. eapply reach_step; eassumption.
Qed.

Lemma reach_is_ref (x y : string) :
  reach x y -> is_ref x = true -> is_ref y = true.
Proof.
  intros Hr Hx. induction Hr as [|w z Hxw IH Hwz]; [assumption|].
  destruct Hwz as (_ & _ & ? & _ & _ & Hz). assumption.
Qed.

(** a reference that lies on a cycle has an argument that lies on it *)
Lemma cyclic_next (x : string) :
  cyclic x -> exists y, edge x y /\ reach y x /\ cyclic y.
Proof.
  intros [w [Hxw Hwx]].
  destruct (reach_head x w Hxw) as [->|[y [Hxy Hyw]]].
  - exists w. split; [assumption|]. split; [apply reach_refl|].
    exists w. split; [apply reach_refl|assumption].
  - exists y. split; [assumption|].
    assert (Hyx : reach y x) by (eapply reach_step; eassumption).
    split; [assumption|]. exists x. split; assumption.
Qed.

(** an argument from which the reference itself is reached closes a
    cycle *)
Lemma cyclic_back (x y : string) : edge x y -> reach y x -> cyclic x.
Proof.
  intros Hxy Hyx. inversion Hyx as [|w ? Hyw Hwx]; subst.
  - exists x. split; [apply reach_refl|assumption].
  - exists w. split; [|assumption]. eapply reach_edge; eassumption.
Qed.

(** *** The invariant of a load *)

(** an entry under an ignored name is null *)
Definition ignored_none (st : build_state) : Prop :=
  forall k obj,
    PyList.mem k ignore_names = true ->
    get k (existing_objects st) = Some obj -> obj = VNone.

(** the references in the arguments of a stored reference are stored *)
Definition closed (st : build_state) : Prop :=
  forall x y, edge x y -> cached st x -> cached st y.

(** the entry of a built section is the instance built from it *)
Definition heap_cached (st : build_state) : Prop :=
  forall id inst,
    nth_error (heap st) id = Some inst ->
    PyList.mem ("object:" ++ inst_name inst) ignore_names = false
    /\ get ("object:" ++ inst_name inst) (existing_objects st)
       = Some (VInst id).

(** an instance was built with the arguments of its section, each
    resolved as [existing_objects] says *)
Definition heap_resolved (st : build_state) : Prop :=
  forall inst,
    In inst (heap st) ->
    exists this_dict,
      get (inst_name inst) all_dicts = Some this_dict
      /\ inst_kwargs inst = resolved_args (existing_objects st) this_dict.

Record invariant (st : build_state) : Prop := mkInv {
  inv_ignored : ignored_none st;
  inv_closed : closed st;
  inv_cached : heap_cached st;
  inv_resolved : heap_resolved st
}.

(** What a run from [st] to [st'] that resolved values with the strings
    [sources] did to [existing_objects]: the entries stay, a new entry
    is under a reference reached from a source, and no reference on a
    cycle gets an entry. *)
Record extends (sources : list string) (st st' : build_state) : Prop := mkExt {
  ext_persist : forall k obj,
    get k (existing_objects st) = Some obj ->
    get k (existing_objects st') = Some obj;
  ext_new : forall k,
    cached st' k ->
    cached st k \/ exists y, In y sources /\ is_ref y = true /\ reach y k;
  ext_acyclic : forall k, cyclic k -> cached st' k -> cached st k
}.

Lemma invariant_empty : invariant (mkState empty []).
Proof.
  split.
  - intros k obj _ H. discriminate H.
  - intros x y _ H. elim H. reflexivity.
  - intros id inst H. destruct id; discriminate H.
  - intros inst [].
Qed.

Lemma extends_refl (sources : list string) (st : build_state) :
  extends sources st st.
Proof. split; auto. Qed.

Lemma extends_trans (s1 s2 : list string) (st st1 st2 : build_state) :
  extends s1 st st1 -> extends s2 st1 st2 -> extends (s1 ++ s2) st st2.
Proof.
  intros [P1 N1 A1] [P2 N2 A2]. split.
  - auto.
  - intros k Hk. destruct (N2 k Hk) as [H|(y & Hy & Hr & Hreach)].
    + destruct (N1 k H) as [H1|(y & Hy & Hr & Hreach)]; [auto|].
      right. exists y. rewrite in_app_iff. auto.
    + right. exists y. rewrite in_app_iff. auto.
  - auto.
Qed.

(** the strings in the arguments of a section are reached from the
    reference to the section *)
Lemma extends_edge (s : string) (this_dict : dict pyvalue)
  (st st' : build_state) :
  PyList.mem s ignore_names = false ->
  PyStr.startswith "object:" s = true ->
  get (PyStr.drop 7 s) all_dicts = Some this_dict ->
  extends (arg_strings this_dict) st st' ->
  extends [s] st st'.
Proof.
  intros Hi Hp Hget [P N A]. split; auto.
  intros k Hk. destruct (N k Hk) as [H|(y & Hy & Hr & Hreach)]; [auto|].
  right. exists s. split; [left; reflexivity|].
  split; [unfold is_ref; rewrite Hp; apply orb_true_r|].
  eapply reach_edge; [|eassumption].
  split; [assumption|]. split; [assumption|]. eauto.
Qed.

Lemma ext_new_is_ref (sources : list string) (st st' : build_state)
  (k : string) :
  extends sources st st' ->
  cached st' k -> cached st k \/ is_ref k = true.
Proof.
  intros [P N A] Hk. destruct (N k Hk) as [H|(y & Hy & Hr & Hreach)]; [auto|].
  right. eapply reach_is_ref; eassumption.
Qed.

(** Once its references have entries, a value is resolved in the same
    way by every later state. *)
Lemma resolved_stable (sources : list string) (st1 st2 : build_state) :
  extends sources st1 st2 ->
  forall v,
    (forall y, In y (strings_of v) -> is_ref y = true -> cached st1 y) ->
    resolved (existing_objects st2) v = resolved (existing_objects st1) v.
Proof.
  intros Hext.
  assert (Hmap : forall l,
             Forall (fun v =>
                       (forall y, In y (strings_of v) -> is_ref y = true ->
                                  cached st1 y) ->
                       resolved (existing_objects st2) v
                       = resolved (existing_objects st1) v) l ->
             (forall y, In y (flat_map strings_of l) -> is_ref y = true ->
                        cached st1 y) ->
             map (resolved (existing_objects st2)) l
             = map (resolved (existing_objects st1)) l).
  { induction l as [|x l IH]; intros HF Hc; [reflexivity|].
    inversion HF as [|? ? Hx Hl]; subst. simpl. f_equal.
    - apply Hx. intros y Hy. apply Hc. simpl. apply in_app_iff. auto.
    - apply IH; [assumption|].
      intros y Hy. apply Hc. simpl. apply in_app_iff. auto. }
  induction v as [b| |n|s|s|o|l IH|l IH|id] using pyvalue_rect_members;
    intros Hc; try reflexivity.
  - simpl. destruct (get s (existing_objects st1)) as [obj|] eqn:E1.
    + rewrite (ext_persist _ _ _ Hext _ _ E1). reflexivity.
    + destruct (get s (existing_objects st2)) as [obj|] eqn:E2; [|reflexivity].
      assert (H2 : cached st2 s) by (unfold cached; congruence).
      destruct (ext_new_is_ref _ _ _ _ Hext H2) as [H|H].
      * elim H. assumption.
      * elim (Hc s (or_introl eq_refl) H). assumption.
  - simpl. f_equal. apply Hmap; assumption.
  - simpl. f_equal. apply Hmap; assumption.
Qed.

Lemma resolved_args_stable (sources : list string) (st1 st2 : build_state)
  (this_dict : dict pyvalue) :
  extends sources st1 st2 ->
  (forall y, In y (arg_strings this_dict) -> is_ref y = true -> cached st1 y) ->
  resolved_args (existing_objects st2) this_dict
  = resolved_args (existing_objects st1) this_dict.
Proof.
  intros Hext. unfold resolved_args, arg_strings.
  induction (section_args this_dict) as [|[k v] l IH]; intros Hc;
    [reflexivity|].
  simpl. f_equal.
  - f_equal. eapply resolved_stable; [eassumption|].
    intros y Hy. apply Hc. simpl. apply in_app_iff. auto.
  - apply IH. intros y Hy. apply Hc. simpl. apply in_app_iff. auto.
Qed.

Lemma extends_incl (s1 s2 : list string) (st st' : build_state) :
  incl s1 s2 -> extends s1 st st' -> extends s2 st st'.
Proof.
  intros Hincl [P N A]. split; auto.
  intros k Hk. destruct (N k Hk) as [H|(y & Hy & Hr & Hreach)]; [auto|].
  right. exists y. auto.
Qed.

Lemma cached_persist (sources : list string) (st st' : build_state)
  (k : string) :
  extends sources st st' -> cached st k -> cached st' k.
Proof.
  intros Hext Hk. unfold cached in *.
  destruct (get k (existing_objects st)) as [obj|] eqn:E; [|congruence].
  rewrite (ext_persist _ _ _ Hext _ _ E). discriminate.
Qed.

(** What a call that resolves [value] from [st] guarantees when it ends
    in [st'] with [res]. *)
Definition resolves (value : pyvalue) (st : build_state)
  (res : result pyvalue) (st' : build_state) : Prop :=
  invariant st'
  /\ extends (strings_of value) st st'
  /\ forall obj,
       res = Ok obj ->
       obj = resolved (existing_objects st') value
       /\ forall y, In y (strings_of value) -> is_ref y = true -> cached st' y.

Definition good (g : pyvalue -> M pyvalue) : Prop :=
  forall value st res st',
    invariant st -> g value st = (res, st') -> res <> OutOfFuel ->
    resolves value st res st'.

Lemma mapM_good (g : pyvalue -> M pyvalue) :
  good g ->
  forall l st res st',
    invariant st -> mapM g l st = (res, st') -> res <> OutOfFuel ->
    invariant st'
    /\ extends (flat_map strings_of l) st st'
    /\ forall objs,
         res = Ok objs ->
         objs = map (resolved (existing_objects st')) l
         /\ forall y, In y (flat_map strings_of l) -> is_ref y = true ->
                      cached st' y.
Proof.
  intros Hg. induction l as [|x l IH]; intros st res st' Hinv Hrun Hres.
  - simpl in Hrun. unfold ret in Hrun. injection Hrun as <- <-.
    split; [assumption|]. split; [apply extends_refl|].
    intros objs H; injection H as <-. split; [reflexivity|]. intros y [].
  - simpl in Hrun. unfold bindM in Hrun.
    destruct (g x st) as [[y|e|] st1] eqn:Ex.
    + destruct (Hg x st (Ok y) st1 Hinv Ex ltac:(discriminate))
        as (Hinv1 & Hext1 & Hok1).
      destruct (Hok1 y eq_refl) as [Hy Hc1].
      destruct (mapM g l st1) as [[ys|e|] st2] eqn:El.
      * destruct (IH st1 (Ok ys) st2 Hinv1 El ltac:(discriminate))
          as (Hinv2 & Hext2 & Hok2).
        destruct (Hok2 ys eq_refl) as [Hys Hc2].
        unfold ret in Hrun. injection Hrun as <- <-.
        split; [assumption|]. split; [eapply extends_trans; eassumption|].
        intros objs H; injection H as <-. split.
        -- simpl. f_equal; [|assumption].
           rewrite (resolved_stable _ _ _ Hext2 x Hc1). assumption.
        -- intros z Hz Hr. simpl in Hz. apply in_app_iff in Hz as [Hz|Hz].
           ++ eapply cached_persist; eauto.
           ++ auto.
      * injection Hrun as <- <-.
        destruct (IH st1 (Raise e) st2 Hinv1 El ltac:(discriminate))
          as (Hinv2 & Hext2 & _).
        split; [assumption|]. split; [eapply extends_trans; eassumption|].
        intros objs H; discriminate H.
      * injection Hrun as <- <-. congruence.
    + injection Hrun as <- <-.
      destruct (Hg x st (Raise e) st1 Hinv Ex ltac:(discriminate))
        as (Hinv1 & Hext1 & _).
      split; [assumption|]. split.
      * eapply extends_incl; [|eassumption]. simpl. apply incl_appl, incl_refl.
      * intros objs H; discriminate H.
    + injection Hrun as <- <-. congruence.
Qed.

Lemma process_args_good (g : pyvalue -> M pyvalue) :
  good g ->
  forall this_dict st res st',
    invariant st -> process_args g this_dict st = (res, st') ->
    res <> OutOfFuel ->
    invariant st'
    /\ extends (arg_strings this_dict) st st'
    /\ forall kwargs,
         res = Ok kwargs ->
         kwargs = resolved_args (existing_objects st') this_dict
         /\ forall y, In y (arg_strings this_dict) -> is_ref y = true ->
                      cached st' y.
Proof.
  intros Hg. induction this_dict as [|[k x] l IH];
    intros st res st' Hinv Hrun Hres.
  - simpl in Hrun. unfold ret in Hrun. injection Hrun as <- <-.
    split; [assumption|]. split; [apply extends_refl|].
    intros objs H; injection H as <-. split; [reflexivity|]. intros y [].
  - simpl in Hrun. unfold resolved_args, arg_strings, section_args.
    simpl filter.
    destruct (negb (String.eqb k "class")) eqn:Ek; [|apply IH; assumption].
    fold (section_args l). simpl.
    fold (arg_strings l). fold (resolved_args (existing_objects st') l).
    unfold bindM in Hrun.
    destruct (g x st) as [[y|e|] st1] eqn:Ex.
    + destruct (Hg x st (Ok y) st1 Hinv Ex ltac:(discriminate))
        as (Hinv1 & Hext1 & Hok1).
      destruct (Hok1 y eq_refl) as [Hy Hc1].
      destruct (process_args g l st1) as [[ys|e|] st2] eqn:El.
      * destruct (IH st1 (Ok ys) st2 Hinv1 El ltac:(discriminate))
          as (Hinv2 & Hext2 & Hok2).
        destruct (Hok2 ys eq_refl) as [Hys Hc2].
        unfold ret in Hrun. injection Hrun as <- <-.
        split; [assumption|]. split; [eapply extends_trans; eassumption|].
        intros objs H; injection H as <-. split.
        -- f_equal; [|assumption]. f_equal.
           rewrite (resolved_stable _ _ _ Hext2 x Hc1). assumption.
        -- intros z Hz Hr. apply in_app_iff in Hz as [Hz|Hz].
           ++ eapply cached_persist; eauto.
           ++ auto.
      * injection Hrun as <- <-.
        destruct (IH st1 (Raise e) st2 Hinv1 El ltac:(discriminate))
          as (Hinv2 & Hext2 & _).
        split; [assumption|]. split; [eapply extends_trans; eassumption|].
        intros objs H; discriminate H.
      * injection Hrun as <- <-. elim Hres; reflexivity.
    + injection Hrun as <- <-.
      destruct (Hg x st (Raise e) st1 Hinv Ex ltac:(discriminate))
        as (Hinv1 & Hext1 & _).
      split; [assumption|]. split.
      * eapply extends_incl; [|eassumption]. apply incl_appl, incl_refl.
      * intros objs H; discriminate H.
    + injection Hrun as <- <-. elim Hres; reflexivity.
Qed.

Lemma edge_source (x y : string) :
  edge x y ->
  PyList.mem x ignore_names = false /\ PyStr.startswith "object:" x = true.
Proof. intros (Hi & Hp & _). auto. Qed.

Lemma cyclic_source (x : string) :
  cyclic x ->
  PyList.mem x ignore_names = false /\ PyStr.startswith "object:" x = true.
Proof.
  intros Hc. destruct (cyclic_next x Hc) as (y & He & _).
  eapply edge_source; eassumption.
Qed.

Lemma edge_ref (name y : string) (this_dict : dict pyvalue) :
  PyList.mem ("object:" ++ name) ignore_names = false ->
  get name all_dicts = Some this_dict ->
  In y (arg_strings this_dict) ->
  is_ref y = true ->
  edge ("object:" ++ name) y.
Proof.
  intros Hi Hget Hy Hr. split; [assumption|].
  split; [apply startswith_ref|].
  exists this_dict. rewrite drop_ref. auto.
Qed.

(** the references in the arguments of a built section have entries *)
Lemma heap_refs_cached (st : build_state) (inst : instance)
  (this_dict : dict pyvalue) :
  invariant st ->
  In inst (heap st) ->
  get (inst_name inst) all_dicts = Some this_dict ->
  forall y, In y (arg_strings this_dict) -> is_ref y = true -> cached st y.
Proof.
  intros [_ Hclosed Hcached _] Hin Hget y Hy Hr.
  apply In_nth_error in Hin as [id Hid].
  destruct (Hcached id inst Hid) as [Hi Hc].
  apply (Hclosed ("object:" ++ inst_name inst)%string y).
  - eapply edge_ref; eassumption.
  - unfold cached. rewrite Hc. discriminate.
Qed.

Lemma heap_resolved_stable (sources : list string) (st st' : build_state) :
  invariant st ->
  extends sources st st' ->
  heap st' = heap st ->
  heap_resolved st'.
Proof.
  intros Hinv Hext Hheap inst Hin. rewrite Hheap in Hin.
  destruct (inv_resolved _ Hinv inst Hin) as (this_dict & Hget & Hkw).
  exists this_dict. split; [assumption|]. rewrite Hkw. symmetry.
  eapply resolved_args_stable; [eassumption|].
  eapply heap_refs_cached; eassumption.
Qed.

(** the entry of an ignored string *)
Lemma store_ignored_good (s : string) (st : build_state) :
  invariant st ->
  PyList.mem s ignore_names = true ->
  let st' := mkState (set s VNone (existing_objects st)) (heap st) in
  invariant st' /\ extends [s] st st'.
Proof.
  intros Hinv Hi st'.
  assert (Hext : extends [s] st st').
  { split.
    - intros k obj Hk. unfold st'; cbn [existing_objects heap]. destruct (string_dec k s) as [->|Hne].
      + rewrite set_get_same.
        rewrite (inv_ignored _ Hinv s obj Hi Hk). reflexivity.
      + rewrite set_get_other by assumption. assumption.
    - intros k Hk. destruct (string_dec k s) as [->|Hne].
      + right. exists s. split; [left; reflexivity|].
        split; [unfold is_ref; rewrite Hi; reflexivity|apply reach_refl].
      + left. unfold cached in *. unfold st' in Hk; cbn [existing_objects heap] in Hk.
        rewrite set_get_other in Hk by assumption. assumption.
    - intros k Hcyc Hk. destruct (string_dec k s) as [->|Hne].
      + destruct (cyclic_source s Hcyc) as [Hn _]. congruence.
      + unfold cached in *. unfold st' in Hk; cbn [existing_objects heap] in Hk.
        rewrite set_get_other in Hk by assumption. assumption. }
  split; [|assumption]. split.
  - intros k obj Hk Hget. unfold st' in Hget; cbn [existing_objects heap] in Hget.
    destruct (string_dec k s) as [->|Hne].
    + rewrite set_get_same in Hget. congruence.
    + rewrite set_get_other in Hget by assumption.
      eapply inv_ignored; eassumption.
  - intros x y He Hx. apply cached_set.
    apply (inv_closed _ Hinv x y He).
    destruct (edge_source x y He) as [Hn _].
    unfold cached in *. unfold st' in Hx; cbn [existing_objects heap] in Hx.
    rewrite set_get_other in Hx by congruence. assumption.
  - intros id inst Hid. unfold st' in Hid; cbn [existing_objects heap] in Hid.
    destruct (inv_cached _ Hinv id inst Hid) as [Hn Hc].
    split; [assumption|]. unfold st'; cbn [existing_objects heap].
    rewrite set_get_other by congruence. assumption.
  - eapply heap_resolved_stable; [eassumption|eassumption|reflexivity].
Qed.

(** The entry of a section that was just built.  The reference does not
    lie on a cycle, since the references in its arguments all have
    entries; so the resolution of the arguments did not enter it, and
    the new entry is the first one under its name. *)
Lemma store_built_good (s : string) (this_dict : dict pyvalue)
  (callee : pyobject) (st st1 : build_state) :
  invariant st ->
  invariant st1 ->
  extends (arg_strings this_dict) st st1 ->
  PyList.mem s ignore_names = false ->
  PyStr.startswith "object:" s = true ->
  get s (existing_objects st) = None ->
  get (PyStr.drop 7 s) all_dicts = Some this_dict ->
  (forall y, In y (arg_strings this_dict) -> is_ref y = true -> cached st1 y) ->
  let obj := VInst (List.length (heap st1)) in
  let st' :=
    mkState (set s obj (existing_objects st1))
            (heap st1 ++ [mkInstance (PyStr.drop 7 s) callee
                            (resolved_args (existing_objects st1) this_dict)]) in
  invariant st' /\ extends [s] st st'.
Proof.
  intros Hinv Hinv1 Hext1 Hi Hp Hnew Hget Hargs obj st'.
  assert (Hedge : forall y, In y (arg_strings this_dict) -> is_ref y = true ->
                            edge s y).
  { intros y Hy Hr. split; [assumption|]. split; [assumption|]. eauto. }
  assert (Hnot : ~ cached st s) by (intros H; apply H; assumption).
  assert (Hacyclic : ~ cyclic s).
  { intros Hcyc. destruct (cyclic_next s Hcyc) as (y & He & Hreach & Hy).
    assert (Hy1 : cached st1 y).
    { destruct He as (_ & _ & d & Hd & Hin & Hr).
      rewrite Hget in Hd. injection Hd as <-. auto. }
    pose proof (ext_acyclic _ _ _ Hext1 y Hy Hy1) as Hy0.
    apply Hnot. clear - Hinv Hreach Hy0.
    induction Hreach as [|w z Hyw IH Hwz]; [assumption|].
    eapply inv_closed; eauto. }
  assert (Hfresh : get s (existing_objects st1) = None).
  { destruct (get s (existing_objects st1)) as [o|] eqn:E; [|reflexivity].
    assert (Hs1 : cached st1 s) by (unfold cached; congruence).
    destruct (ext_new _ _ _ Hext1 s Hs1) as [H|(y & Hy & Hr & Hreach)].
    - elim Hnot. assumption.
    - elim Hacyclic. eapply cyclic_back; eauto. }
  assert (Hstep : extends [s] st1 st').
  { split.
    - intros k o Hk. unfold st'; cbn [existing_objects heap]. rewrite set_get_other by congruence. assumption.
    - intros k Hk. destruct (string_dec k s) as [->|Hne].
      + right. exists s. split; [left; reflexivity|].
        split; [unfold is_ref; rewrite Hp; apply orb_true_r|apply reach_refl].
      + left. unfold cached in *. unfold st' in Hk; cbn [existing_objects heap] in Hk.
        rewrite set_get_other in Hk by assumption. assumption.
    - intros k Hcyc Hk. destruct (string_dec k s) as [->|Hne].
      + contradiction.
      + unfold cached in *. unfold st' in Hk; cbn [existing_objects heap] in Hk.
        rewrite set_get_other in Hk by assumption. assumption. }
  assert (Hext : extends [s] st st').
  { pose proof (extends_trans _ _ _ _ _
                  (extends_edge s this_dict st st1 Hi Hp Hget Hext1) Hstep)
      as H.
    eapply extends_incl; [|exact H].
    intros x [<-|[<-|[]]]; left; reflexivity. }
  split; [|assumption]. split.
  - intros k o Hk Hgetk. unfold st' in Hgetk; cbn [existing_objects heap] in Hgetk.
    rewrite set_get_other in Hgetk by congruence.
    eapply inv_ignored; eassumption.
  - intros x y He Hx. destruct (string_dec x s) as [->|Hne].
    + apply cached_set.
      destruct He as (_ & _ & d & Hd & Hin & Hr).
      rewrite Hget in Hd. injection Hd as <-. auto.
    + apply cached_set. apply (inv_closed _ Hinv1 x y He).
      unfold cached in *. unfold st' in Hx; cbn [existing_objects heap] in Hx.
      rewrite set_get_other in Hx by assumption. assumption.
  - intros id inst Hid. unfold st' in Hid; cbn [existing_objects heap] in Hid.
    destruct (Nat.lt_ge_cases id (List.length (heap st1))) as [Hlt|Hge].
    + rewrite nth_error_app1 in Hid by assumption.
      destruct (inv_cached _ Hinv1 id inst Hid) as [Hn Hc].
      split; [assumption|]. unfold st'; cbn [existing_objects heap].
      rewrite set_get_other by congruence. assumption.
    + rewrite nth_error_app2 in Hid by assumption.
      destruct (id - List.length (heap st1)) as [|m] eqn:Em.
      * cbn [nth_error] in Hid. injection Hid as <-.
        unfold st'; cbn [existing_objects heap inst_name].
        rewrite prefix_drop by assumption.
        split; [assumption|]. rewrite set_get_same.
        unfold obj. f_equal. f_equal. lia.
      * destruct m; discriminate Hid.
  - intros inst Hin. unfold st' in Hin; cbn [existing_objects heap] in Hin.
    apply in_app_iff in Hin as [Hin|[<-|[]]].
    + destruct (inv_resolved _ Hinv1 inst Hin) as (d & Hd & Hkw).
      exists d. split; [assumption|]. rewrite Hkw. symmetry.
      eapply resolved_args_stable; [exact Hstep|].
      eapply heap_refs_cached; eassumption.
    + exists this_dict. cbn [inst_name inst_kwargs].
      split; [assumption|]. symmetry.
      exact (resolved_args_stable [s] st1 st' this_dict Hstep Hargs).
Qed.

Lemma resolves_unchanged (value : pyvalue) (st : build_state)
  (obj : pyvalue) :
  invariant st ->
  obj = resolved (existing_objects st) value ->
  (forall y, In y (strings_of value) -> is_ref y = true -> cached st y) ->
  resolves value st (Ok obj) st.
Proof.
  intros Hinv Hobj Hc. split; [assumption|]. split; [apply extends_refl|].
  intros o H; injection H as <-. auto.
Qed.

Lemma resolves_raise (value : pyvalue) (st : build_state) (e : exc) :
  invariant st -> resolves value st (Raise e) st.
Proof.
  intros Hinv. split; [assumption|]. split; [apply extends_refl|].
  intros o H; discriminate H.
Qed.

(** Every call of [get_object] keeps the invariant of the load, and its
    result is what [existing_objects] says of the value when it
    returns. *)
Lemma get_object_fuel_good (fuel : nat) :
  forall depth,
    good (fun value => get_object_fuel fuel value all_dicts ignore_names depth).
Proof.
  induction fuel as [|fuel IH]; intros depth value st res st' Hinv Hrun Hres.
  { simpl in Hrun. injection Hrun as <- <-. congruence. }
  simpl in Hrun. unfold get_object_body in Hrun.
  destruct value as [b| |n|f|s|o|l|l|id];
    try (unfold ret in Hrun; injection Hrun as <- <-;
         apply resolves_unchanged; [assumption|reflexivity|intros y []]).
  - destruct (PyList.mem s ignore_names) eqn:Hi.
    { unfold bindM, store, ret in Hrun. injection Hrun as <- <-.
      destruct (store_ignored_good s st Hinv Hi) as [Hinv' Hext'].
      split; [exact Hinv'|]. split; [exact Hext'|].
      intros obj H; injection H as <-.
      cbn [resolved strings_of existing_objects]. rewrite set_get_same.
      split; [reflexivity|].
      intros y [<-|[]] _. unfold cached. cbn [existing_objects].
      rewrite set_get_same. discriminate. }
    destruct (get s (existing_objects st)) as [obj|] eqn:Hc.
    { unfold ret in Hrun. injection Hrun as <- <-.
      apply resolves_unchanged; [assumption| |].
      - simpl. rewrite Hc. reflexivity.
      - intros y [<-|[]] _. unfold cached. rewrite Hc. discriminate. }
    destruct (negb (PyStr.startswith "object:" s)) eqn:Hp.
    { unfold ret in Hrun. injection Hrun as <- <-.
      apply resolves_unchanged; [assumption| |].
      - simpl. rewrite Hc. reflexivity.
      - intros y [<-|[]] Hr. unfold is_ref in Hr. rewrite Hi in Hr.
        apply negb_true_iff in Hp. simpl in Hr. congruence. }
    apply negb_false_iff in Hp.
    destruct (get (PyStr.drop 7 s) all_dicts) as [this_dict|] eqn:Hget;
      [|unfold raise in Hrun; injection Hrun as <- <-;
        apply resolves_raise; assumption].
    destruct (20 <? depth);
      [unfold raise in Hrun; injection Hrun as <- <-;
       apply resolves_raise; assumption|].
    destruct (get "class" this_dict) as [clazz|];
      [|unfold raise in Hrun; injection Hrun as <- <-;
        apply resolves_raise; assumption].
    destruct (callable_of clazz) as [callee|];
      [|unfold raise in Hrun; injection Hrun as <- <-;
        apply resolves_raise; assumption].
    unfold bindM in Hrun.
    destruct (process_args _ this_dict st) as [[kwargs|e|] st1] eqn:Hargs.
    + destruct (process_args_good _ (IH (depth + 1)) this_dict st _ st1
                  Hinv Hargs ltac:(discriminate)) as (Hinv1 & Hext1 & Hok).
      destruct (Hok kwargs eq_refl) as [-> Hc1].
      destruct res as [obj|e|]; [| |congruence].
      * apply instantiate_ok in Hrun as [-> ->].
        destruct (store_built_good s this_dict callee st st1
                    Hinv Hinv1 Hext1 Hi Hp Hc Hget Hc1) as [Hinv' Hext'].
        split; [exact Hinv'|]. split; [exact Hext'|].
        intros obj H; injection H as <-.
        cbn [resolved strings_of existing_objects]. rewrite set_get_same.
        split; [reflexivity|].
        intros y [<-|[]] _. unfold cached. cbn [existing_objects].
        rewrite set_get_same. discriminate.
      * apply instantiate_raise in Hrun as ->.
        split; [assumption|]. split.
        -- eapply extends_edge; eassumption.
        -- intros obj H; discriminate H.
    + injection Hrun as <- <-.
      destruct (process_args_good _ (IH (depth + 1)) this_dict st _ st1
                  Hinv Hargs ltac:(discriminate)) as (Hinv1 & Hext1 & _).
      split; [assumption|]. split.
      * eapply extends_edge; eassumption.
      * intros obj H; discriminate H.
    + injection Hrun as <- <-. congruence.
  - unfold bindM in Hrun.
    destruct (mapM _ l st) as [[objs|e|] st1] eqn:Hm.
    + destruct (mapM_good _ (IH (depth + 1)) l st _ st1 Hinv Hm
                  ltac:(discriminate)) as (Hinv1 & Hext1 & Hok).
      destruct (Hok objs eq_refl) as [-> Hc1].
      unfold ret in Hrun. injection Hrun as <- <-.
      split; [assumption|]. split; [assumption|].
      intros obj H; injection H as <-. auto.
    + injection Hrun as <- <-.
      destruct (mapM_good _ (IH (depth + 1)) l st _ st1 Hinv Hm
                  ltac:(discriminate)) as (Hinv1 & Hext1 & _).
      split; [assumption|]. split; [assumption|].
      intros obj H; discriminate H.
    + injection Hrun as <- <-. congruence.
  - unfold bindM in Hrun.
    destruct (mapM _ l st) as [[objs|e|] st1] eqn:Hm.
    + destruct (mapM_good _ (IH (depth + 1)) l st _ st1 Hinv Hm
                  ltac:(discriminate)) as (Hinv1 & Hext1 & Hok).
      destruct (Hok objs eq_refl) as [-> Hc1].
      unfold ret in Hrun. injection Hrun as <- <-.
      split; [assumption|]. split; [assumption|].
      intros obj H; injection H as <-. auto.
    + injection Hrun as <- <-.
      destruct (mapM_good _ (IH (depth + 1)) l st _ st1 Hinv Hm
                  ltac:(discriminate)) as (Hinv1 & Hext1 & _).
      split; [assumption|]. split; [assumption|].
      intros obj H; discriminate H.
    + injection Hrun as <- <-. congruence.
Qed.

Lemma get_object_good (depth : nat) :
  good (fun value => get_object value all_dicts ignore_names depth).
Proof.
  intros value st res st' Hinv Hrun Hres. unfold get_object in Hrun.
  exact (get_object_fuel_good _ depth value st res st' Hinv Hrun Hres).
Qed.

(** A reference on a cycle is never resolved: the call ends with an
    exception. *)
Lemma get_object_cyclic (s : string) (depth : nat) (st : build_state) :
  invariant st ->
  cyclic s ->
  get s (existing_objects st) = None ->
  exists e st',
    get_object (VStr s) all_dicts ignore_names depth st = (Raise e, st').
Proof.
  intros Hinv Hcyc Hnew.
  destruct (get_object (VStr s) all_dicts ignore_names depth st)
    as [[obj|e|] st'] eqn:Hrun.
  - destruct (get_object_good depth (VStr s) st (Ok obj) st' Hinv Hrun
                ltac:(discriminate)) as (_ & Hext & Hok).
    destruct (Hok obj eq_refl) as [_ Hc].
    destruct (cyclic_source s Hcyc) as [_ Hp].
    assert (Hs : cached st' s).
    { apply Hc; [left; reflexivity|].
      unfold is_ref. rewrite Hp. apply orb_true_r. }
    elim (ext_acyclic _ _ _ Hext s Hcyc Hs). assumption.
  - eauto.
  - pose proof (proj1 (get_object_fuel_enough all_dicts ignore_names
                         (VStr s) depth st)) as H.
    rewrite Hrun in H. elim H. reflexivity.
Qed.

(** the entries of the main block that the loader resolves *)
Definition main_entries (main_config : dict pyvalue) : dict pyvalue :=
  filter (fun kv => negb (PyList.mem (fst kv) ignore_names)) main_config.

Definition main_strings (main_config : dict pyvalue) : list string :=
  flat_map (fun kv => strings_of (snd kv)) (main_entries main_config).

Lemma load_main_good (main_config : dict pyvalue) :
  forall st res st',
    invariant st ->
    load_main main_config all_dicts ignore_names st = (res, st') ->
    res <> OutOfFuel ->
    invariant st'
    /\ extends (main_strings main_config) st st'
    /\ forall configuration,
         res = Ok configuration ->
         configuration
         = map (fun kv => (fst kv, resolved (existing_objects st') (snd kv)))
               (main_entries main_config)
         /\ forall y, In y (main_strings main_config) -> is_ref y = true ->
                      cached st' y.
Proof.
  induction main_config as [|[key value] rest IH];
    intros st res st' Hinv Hrun Hres.
  - simpl in Hrun. unfold ret in Hrun. injection Hrun as <- <-.
    split; [assumption|]. split; [apply extends_refl|].
    intros c H; injection H as <-. split; [reflexivity|]. intros y [].
  - simpl in Hrun. unfold main_strings, main_entries. simpl filter.
    destruct (negb (PyList.mem key ignore_names)) eqn:Ek;
      [|apply IH; assumption].
    fold (main_entries rest). simpl. fold (main_strings rest).
    destruct (get_object value all_dicts ignore_names 0 st)
      as [[obj|e|] st1] eqn:Ex.
    + destruct (get_object_good 0 value st (Ok obj) st1 Hinv Ex
                  ltac:(discriminate)) as (Hinv1 & Hext1 & Hok1).
      destruct (Hok1 obj eq_refl) as [Hobj Hc1].
      unfold bindM in Hrun.
      destruct (load_main rest all_dicts ignore_names st1)
        as [[c|e|] st2] eqn:El.
      * destruct (IH st1 (Ok c) st2 Hinv1 El ltac:(discriminate))
          as (Hinv2 & Hext2 & Hok2).
        destruct (Hok2 c eq_refl) as [Hcs Hc2].
        unfold ret in Hrun. injection Hrun as <- <-.
        split; [assumption|]. split; [eapply extends_trans; eassumption|].
        intros c' H; injection H as <-. split.
        -- f_equal; [|assumption]. f_equal.
           rewrite (resolved_stable _ _ _ Hext2 value Hc1). assumption.
        -- intros z Hz Hr. apply in_app_iff in Hz as [Hz|Hz].
           ++ eapply cached_persist; eauto.
           ++ auto.
      * injection Hrun as <- <-.
        destruct (IH st1 (Raise e) st2 Hinv1 El ltac:(discriminate))
          as (Hinv2 & Hext2 & _).
        split; [assumption|]. split; [eapply extends_trans; eassumption|].
        intros c' H; discriminate H.
      * injection Hrun as <- <-. elim Hres; reflexivity.
    + injection Hrun as <- <-.
      destruct (get_object_good 0 value st (Raise e) st1 Hinv Ex
                  ltac:(discriminate)) as (Hinv1 & Hext1 & _).
      split; [assumption|]. split.
      * eapply extends_incl; [|eassumption]. apply incl_appl, incl_refl.
      * intros c' H; discriminate H.
    + injection Hrun as <- <-. elim Hres; reflexivity.
Qed.

(** No two instances of the heap were built from the same section. *)
Lemma heap_cached_NoDup (st : build_state) :
  heap_cached st -> NoDup (map inst_name (heap st)).
Proof.
  intros Hc. apply NoDup_nth_error. intros i j Hi Hij.
  rewrite !nth_error_map in Hij.
  rewrite length_map in Hi. apply nth_error_Some in Hi.
  destruct (nth_error (heap st) i) as [a|] eqn:Ea; [|congruence].
  destruct (nth_error (heap st) j) as [b|] eqn:Eb; [|discriminate Hij].
  simpl in Hij. injection Hij as Hname.
  destruct (Hc i a Ea) as [_ Ha]. destruct (Hc j b Eb) as [_ Hb].
  rewrite Hname in Ha. rewrite Ha in Hb. congruence.
Qed.


(** *** The depth error is the only error of a sound document *)

(** [sound s]: the section that the reference [s] names is declared and
    its class can be called; and when [s] lies on no cycle, so that its
    section can be instantiated, the signature of the class accepts the
    names of the arguments and the constructor returns. *)
Definition sound (s : string) : Prop :=
  exists this_dict clazz callee,
    get (PyStr.drop 7 s) all_dicts = Some this_dict
    /\ get "class" this_dict = Some clazz
    /\ callable_of clazz = Some callee
    /\ (~ cyclic s ->
        exists arg_spec,
          obj_argspec callee = Some arg_spec
          /\ forall kwargs,
               keys kwargs = keys (section_args this_dict) ->
               check_signature (PyStr.drop 7 s) arg_spec kwargs = Ok tt
               /\ construct callee kwargs = None).

(** every reference that is reached from [y] is sound *)
Definition sound_from (y : string) : Prop :=
  forall z,
    reach y z ->
    PyList.mem z ignore_names = false ->
    PyStr.startswith "object:" z = true ->
    sound z.

Definition only_depth (g : pyvalue -> M pyvalue) : Prop :=
  forall value st res st',
    invariant st ->
    (forall y, In y (strings_of value) -> sound_from y) ->
    g value st = (res, st') ->
    res <> OutOfFuel ->
    forall e, res = Raise e -> e = DepthExceeded.

Lemma keys_resolved_args (existing : dict pyvalue) (this_dict : dict pyvalue) :
  keys (resolved_args existing this_dict) = keys (section_args this_dict).
Proof.
  unfold keys, resolved_args. rewrite map_map. apply map_ext.
  intros kv. reflexivity.
Qed.

Lemma arg_strings_cons (k : string) (x : pyvalue) (l : dict pyvalue) :
  arg_strings ((k, x) :: l)
  = if negb (String.eqb k "class") then strings_of x ++ arg_strings l
    else arg_strings l.
Proof.
  unfold arg_strings, section_args. cbn [filter fst].
  destruct (negb (String.eqb k "class")); reflexivity.
Qed.

Lemma mapM_only_depth (g : pyvalue -> M pyvalue) :
  good g -> only_depth g ->
  forall l st res st',
    invariant st ->
    (forall y, In y (flat_map strings_of l) -> sound_from y) ->
    mapM g l st = (res, st') ->
    res <> OutOfFuel ->
    forall e, res = Raise e -> e = DepthExceeded.
Proof.
  intros Hg Ho. induction l as [|x l IH];
    intros st res st' Hinv Hs Hrun Hres e He.
  - simpl in Hrun. unfold ret in Hrun. injection Hrun as <- <-.
    discriminate He.
  - assert (Hx : forall y, In y (strings_of x) -> sound_from y).
    { intros z Hz. apply Hs. simpl. apply in_app_iff. auto. }
    assert (Hl : forall y, In y (flat_map strings_of l) -> sound_from y).
    { intros z Hz. apply Hs. simpl. apply in_app_iff. auto. }
    simpl in Hrun. unfold bindM in Hrun.
    destruct (g x st) as [[y|e1|] st1] eqn:Ex.
    + destruct (Hg x st (Ok y) st1 Hinv Ex ltac:(discriminate))
        as (Hinv1 & _ & _).
      destruct (mapM g l st1) as [[ys|e2|] st2] eqn:El.
      * unfold ret in Hrun. injection Hrun as <- <-. discriminate He.
      * injection Hrun as <- <-. injection He as <-.
        exact (IH st1 _ st2 Hinv1 Hl El ltac:(discriminate) _ eq_refl).
      * injection Hrun as <- <-. elim Hres. reflexivity.
    + injection Hrun as <- <-. injection He as <-.
      exact (Ho x st _ st1 Hinv Hx Ex ltac:(discriminate) _ eq_refl).
    + injection Hrun as <- <-. elim Hres. reflexivity.
Qed.

Lemma process_args_only_depth (g : pyvalue -> M pyvalue) :
  good g -> only_depth g ->
  forall this_dict st res st',
    invariant st ->
    (forall y, In y (arg_strings this_dict) -> sound_from y) ->
    process_args g this_dict st = (res, st') ->
    res <> OutOfFuel ->
    forall e, res = Raise e -> e = DepthExceeded.
Proof.
  intros Hg Ho. induction this_dict as [|[k x] l IH];
    intros st res st' Hinv Hs Hrun Hres e He.
  - simpl in Hrun. unfold ret in Hrun. injection Hrun as <- <-.
    discriminate He.
  - cbn [process_args] in Hrun. rewrite arg_strings_cons in Hs.
    destruct (negb (String.eqb k "class"));
      [|apply (IH st res st' Hinv Hs Hrun Hres e He)].
    assert (Hx : forall y, In y (strings_of x) -> sound_from y).
    { intros z Hz. apply Hs. apply in_app_iff. auto. }
    assert (Hl : forall y, In y (arg_strings l) -> sound_from y).
    { intros z Hz. apply Hs. apply in_app_iff. auto. }
    unfold bindM in Hrun.
    destruct (g x st) as [[y|e1|] st1] eqn:Ex.
    + destruct (Hg x st (Ok y) st1 Hinv Ex ltac:(discriminate))
        as (Hinv1 & _ & _).
      destruct (process_args g l st1) as [[ys|e2|] st2] eqn:El.
      * unfold ret in Hrun. injection Hrun as <- <-. discriminate He.
      * injection Hrun as <- <-. injection He as <-.
        exact (IH st1 _ st2 Hinv1 Hl El ltac:(discriminate) _ eq_refl).
      * injection Hrun as <- <-. elim Hres. reflexivity.
    + injection Hrun as <- <-. injection He as <-.
      exact (Ho x st _ st1 Hinv Hx Ex ltac:(discriminate) _ eq_refl).
    + injection Hrun as <- <-. elim Hres. reflexivity.
Qed.

(** the arguments of a sound reference are sound *)
Lemma sound_from_args (s : string) (this_dict : dict pyvalue) :
  PyList.mem s ignore_names = false ->
  PyStr.startswith "object:" s = true ->
  get (PyStr.drop 7 s) all_dicts = Some this_dict ->
  sound_from s ->
  forall y, In y (arg_strings this_dict) -> sound_from y.
Proof.
  intros Hi Hp Hget Hs y Hy z Hr Hiz Hpz.
  destruct (is_ref y) eqn:Hry.
  - apply Hs; try assumption.
    eapply reach_edge; [|exact Hr].
    split; [assumption|]. split; [assumption|]. exists this_dict. auto.
  - exfalso. destruct (reach_head y z Hr) as [->|(w & He & _)].
    + unfold is_ref in Hry. rewrite Hpz in Hry.
      rewrite orb_true_r in Hry. discriminate Hry.
    + destruct (edge_source y w He) as [_ Hpy].
      unfold is_ref in Hry. rewrite Hpy in Hry.
      rewrite orb_true_r in Hry. discriminate Hry.
Qed.

(** a section whose arguments were all resolved lies on no cycle *)
Lemma resolved_not_cyclic (s : string) (this_dict : dict pyvalue)
  (st st1 : build_state) :
  invariant st ->
  extends (arg_strings this_dict) st st1 ->
  get s (existing_objects st) = None ->
  get (PyStr.drop 7 s) all_dicts = Some this_dict ->
  (forall y, In y (arg_strings this_dict) -> is_ref y = true -> cached st1 y) ->
  ~ cyclic s.
Proof.
  intros Hinv Hext1 Hnew Hget Hargs Hcyc.
  destruct (cyclic_next s Hcyc) as (y & He & Hreach & Hy).
  assert (Hy1 : cached st1 y).
  { destruct He as (_ & _ & d & Hd & Hin & Hr).
    rewrite Hget in Hd. injection Hd as <-. auto. }
  pose proof (ext_acyclic _ _ _ Hext1 y Hy Hy1) as Hy0.
  assert (Hs : cached st s).
  { clear - Hinv Hreach Hy0.
    induction Hreach as [|w z Hyw IH Hwz]; [assumption|].
    eapply inv_closed; eauto. }
  apply Hs. assumption.
Qed.

Lemma get_object_fuel_only_depth (fuel : nat) :
  forall depth,
    only_depth
      (fun value => get_object_fuel fuel value all_dicts ignore_names depth).
Proof.
  induction fuel as [|fuel IH];
    intros depth value st res st' Hinv Hs Hrun Hres e He.
  { simpl in Hrun. injection Hrun as <- <-. elim Hres. reflexivity. }
  cbn [get_object_fuel] in Hrun. unfold get_object_body in Hrun.
  destruct value as [b| |n|f|s|o|l|l|id];
    try (unfold ret in Hrun; injection Hrun as <- <-; discriminate He).
  - destruct (PyList.mem s ignore_names) eqn:Hi.
    { unfold bindM, store, ret in Hrun. injection Hrun as <- <-.
      discriminate He. }
    destruct (get s (existing_objects st)) as [obj|] eqn:Hc.
    { unfold ret in Hrun. injection Hrun as <- <-. discriminate He. }
    destruct (negb (PyStr.startswith "object:" s)) eqn:Hp.
    { unfold ret in Hrun. injection Hrun as <- <-. discriminate He. }
    apply negb_false_iff in Hp.
    destruct (Hs s (or_introl eq_refl) s (reach_refl s) Hi Hp)
      as (this_dict & clazz & callee & Hget & Hclass & Hcall & Hnc).
    rewrite Hget in Hrun.
    destruct (20 <? depth).
    { unfold raise in Hrun. injection Hrun as <- <-. injection He as <-.
      reflexivity. }
    rewrite Hclass, Hcall in Hrun. unfold bindM in Hrun.
    assert (Hsa : forall y, In y (arg_strings this_dict) -> sound_from y).
    { apply (sound_from_args s); try assumption.
      apply Hs. left. reflexivity. }
    destruct (process_args _ this_dict st) as [[kwargs|e1|] st1] eqn:Hargs.
    + destruct (process_args_good _ (get_object_fuel_good fuel (depth + 1))
                  this_dict st _ st1 Hinv Hargs ltac:(discriminate))
        as (Hinv1 & Hext1 & Hok).
      destruct (Hok kwargs eq_refl) as [-> Hc1].
      pose proof (resolved_not_cyclic s this_dict st st1 Hinv Hext1 Hc Hget Hc1)
        as Hacyc.
      destruct (Hnc Hacyc) as (arg_spec & Hspec & Hsig).
      destruct (Hsig _ (keys_resolved_args (existing_objects st1) this_dict))
        as [Hcheck Hcons].
      subst res. exfalso. revert Hrun. unfold instantiate.
      rewrite Hspec, Hcheck, Hcons. unfold bindM, allocate, store, ret.
      discriminate.
    + injection Hrun as <- <-. injection He as <-.
      exact (process_args_only_depth _ (get_object_fuel_good fuel (depth + 1))
               (IH (depth + 1)) this_dict st _ st1 Hinv Hsa Hargs
               ltac:(discriminate) _ eq_refl).
    + injection Hrun as <- <-. elim Hres. reflexivity.
  - unfold bindM in Hrun.
    destruct (mapM _ l st) as [[objs|e1|] st1] eqn:Hm.
    + unfold ret in Hrun. injection Hrun as <- <-. discriminate He.
    + injection Hrun as <- <-. injection He as <-.
      exact (mapM_only_depth _ (get_object_fuel_good fuel (depth + 1))
               (IH (depth + 1)) l st _ st1 Hinv Hs Hm
               ltac:(discriminate) _ eq_refl).
    + injection Hrun as <- <-. elim Hres. reflexivity.
  - unfold bindM in Hrun.
    destruct (mapM _ l st) as [[objs|e1|] st1] eqn:Hm.
    + unfold ret in Hrun. injection Hrun as <- <-. discriminate He.
    + injection Hrun as <- <-. injection He as <-.
      exact (mapM_only_depth _ (get_object_fuel_good fuel (depth + 1))
               (IH (depth + 1)) l st _ st1 Hinv Hs Hm
               ltac:(discriminate) _ eq_refl).
    + injection Hrun as <- <-. elim Hres. reflexivity.
Qed.

(** In a sound document the resolution of a value fails with the depth
    error or does not fail. *)
Lemma get_object_only_depth (depth : nat) :
  only_depth (fun value => get_object value all_dicts ignore_names depth).
Proof.
  intros value st res st' Hinv Hs Hrun Hres. unfold get_object in Hrun.
  exact (get_object_fuel_only_depth _ depth value st res st' Hinv Hs Hrun
           Hres).
Qed.

(** A sound reference that lies on a cycle ends with the depth error. *)
Lemma get_object_cyclic_depth (s : string) (depth : nat) (st : build_state) :
  invariant st ->
  cyclic s ->
  get s (existing_objects st) = None ->
  sound_from s ->
  exists st',
    get_object (VStr s) all_dicts ignore_names depth st
    = (Raise DepthExceeded, st').
Proof.
  intros Hinv Hcyc Hnew Hs.
  destruct (get_object_cyclic s depth st Hinv Hcyc Hnew) as (e & st' & Hrun).
  exists st'. rewrite Hrun. f_equal. f_equal.
  apply (get_object_only_depth depth (VStr s) st (Raise e) st' Hinv);
    [|assumption|discriminate|reflexivity].
  intros y [<-|[]]. assumption.
Qed.

End Graph.


Lemma load_main_fuel (main_config : dict pyvalue)
  (all_dicts : dict (dict pyvalue)) (ignore_names : list string) :
  forall st, fst (load_main main_config all_dicts ignore_names st) <> OutOfFuel.
Proof.
  induction main_config as [|[key value] rest IH]; intros st; simpl;
    [discriminate|].
  destruct (negb (PyList.mem key ignore_names)); [|apply IH].
  pose proof (proj1 (get_object_fuel_enough all_dicts ignore_names value 0 st))
    as Hv.
  destruct (get_object value all_dicts ignore_names 0 st) as [[obj|e|] st1];
    simpl in *; [|discriminate|congruence].
  unfold bindM. specialize (IH st1).
  destruct (load_main rest all_dicts ignore_names st1) as [[c|e|] st2];
    simpl in *; try discriminate. assumption.
Qed.

(** C2.  Whatever the outcome of a load, no two instances of the heap were
    built from the same section: a declared name is constructed at most
    once.  The entry of [existing_objects] under the reference to a built
    section is its instance, stored when it was built, and the arguments of
    every built section were resolved as this one dictionary says.  When
    the load succeeds, every value of the main block was resolved in the
    same way: each reference has an entry, and each occurrence of a
    reference, wherever it stands, stands for the object of that entry. *)
Theorem load_config_file_one_instance (config_file : list string)
  (ignore_names : list string) (res : result (dict pyvalue))
  (st : build_state) :
  load_config_file config_file ignore_names = (res, st) ->
  NoDup (map inst_name (heap st))
  /\ (forall config_dicts id inst,
         get_config_dicts config_file = Ok config_dicts ->
         nth_error (heap st) id = Some inst ->
         get ("object:" ++ inst_name inst) (existing_objects st) = Some (VInst id)
         /\ exists this_dict,
              get (inst_name inst) config_dicts = Some this_dict
              /\ inst_kwargs inst
                 = resolved_args (existing_objects st) this_dict
              /\ forall y, In y (arg_strings this_dict) ->
                           is_ref ignore_names y = true -> cached st y)
  /\ (forall configuration,
         res = Ok configuration ->
         exists config_dicts main_config,
           get_config_dicts config_file = Ok config_dicts
           /\ get "main" config_dicts = Some main_config
           /\ configuration
              = map (fun kv => (fst kv, resolved (existing_objects st) (snd kv)))
                    (main_entries ignore_names main_config)
           /\ forall y, In y (main_strings ignore_names main_config) ->
                        is_ref ignore_names y = true -> cached st y).
Proof.
  unfold load_config_file. intros Hrun.
  assert (Hempty : forall r,
             (r, mkState empty []) = (res, st) ->
             (forall c : dict pyvalue, r <> Ok c) ->
             NoDup (map inst_name (heap st))
             /\ (forall config_dicts id inst,
                    get_config_dicts config_file = Ok config_dicts ->
                    nth_error (heap st) id = Some inst ->
                    get ("object:" ++ inst_name inst) (existing_objects st)
                    = Some (VInst id)
                    /\ exists this_dict,
                         get (inst_name inst) config_dicts = Some this_dict
                         /\ inst_kwargs inst
                            = resolved_args (existing_objects st) this_dict
                         /\ forall y, In y (arg_strings this_dict) ->
                                      is_ref ignore_names y = true -> cached st y)
             /\ (forall configuration,
                    res = Ok configuration ->
                    exists config_dicts main_config,
                      get_config_dicts config_file = Ok config_dicts
                      /\ get "main" config_dicts = Some main_config
                      /\ configuration
                         = map (fun kv =>
                                  (fst kv, resolved (existing_objects st) (snd kv)))
                               (main_entries ignore_names main_config)
                      /\ forall y, In y (main_strings ignore_names main_config) ->
                                   is_ref ignore_names y = true -> cached st y)).
  { intros r H Hr. injection H as <- <-. simpl. split; [constructor|].
    split.
    - intros ? id ? _ Hid. destruct id; discriminate Hid.
    - intros c Hc. elim (Hr c Hc). }
  destruct (get_config_dicts config_file) as [config_dicts|e|] eqn:Eparse;
    [|apply (Hempty _ Hrun); discriminate|apply (Hempty _ Hrun); discriminate].
  destruct (get "main" config_dicts) as [main_config|] eqn:Emain;
    [|apply (Hempty _ Hrun); discriminate].
  clear Hempty.
  assert (Hres : res <> OutOfFuel).
  { pose proof (load_main_fuel main_config config_dicts ignore_names
                  (mkState empty [])) as H.
    rewrite Hrun in H. exact H. }
  destruct (load_main_good config_dicts ignore_names main_config _ _ _
              (invariant_empty config_dicts ignore_names) Hrun Hres)
    as (Hinv & _ & Hok).
  split; [apply (heap_cached_NoDup ignore_names st (inv_cached _ _ _ Hinv))|].
  split.
  - intros cd id inst Hcd Hid. injection Hcd as <-.
    destruct (inv_cached _ _ _ Hinv id inst Hid) as [_ Hentry].
    split; [assumption|].
    destruct (inv_resolved _ _ _ Hinv inst (nth_error_In _ _ Hid))
      as (this_dict & Hget & Hkw).
    exists this_dict. split; [assumption|]. split; [assumption|].
    eapply heap_refs_cached; eauto using nth_error_In.
  - intros configuration Hc. destruct (Hok configuration Hc) as [Hconf Hcached].
    exists config_dicts, main_config. auto.
Qed.

(** ** The object graph builder: cycles of references *)

(** a value in which no string is ignored or begins with "object:" *)
Definition plain (ignore_names : list string) (v : pyvalue) : Prop :=
  forall y, In y (strings_of v) -> is_ref ignore_names y = false.

Lemma mapM_unchanged (g : pyvalue -> M pyvalue) (f : pyvalue -> pyvalue)
  (l : list pyvalue) (st : build_state) :
  Forall (fun x => g x st = (Ok (f x), st)) l ->
  mapM g l st = (Ok (map f l), st).
Proof.
  induction l as [|x l IH]; intros H; [reflexivity|].
  inversion H as [|? ? Hx Hl]; subst. simpl. unfold bindM, ret.
  rewrite Hx, (IH Hl). reflexivity.
Qed.

(** a plain value is resolved without a change of the state *)
Lemma get_object_noref (all_dicts : dict (dict pyvalue))
  (ignore_names : list string) (value : pyvalue) (st : build_state) :
  plain ignore_names value ->
  forall depth,
    get_object value all_dicts ignore_names depth st
    = (Ok (resolved (existing_objects st) value), st).
Proof.
  unfold plain.
  induction value as [b| |n|s|s|o|l IH|l IH|id] using pyvalue_rect_members;
    intros Hplain depth; rewrite get_object_eq; try reflexivity.
  - specialize (Hplain s (or_introl eq_refl)). unfold is_ref in Hplain.
    apply orb_false_iff in Hplain as [Hi Hp].
    cbn [get_object_body resolved]. rewrite Hi.
    destruct (get s (existing_objects st)); [reflexivity|].
    rewrite Hp. reflexivity.
  - cbn [get_object_body resolved]. unfold bindM.
    rewrite (mapM_unchanged _ (resolved (existing_objects st)));
      [reflexivity|].
    rewrite Forall_forall in IH |- *. intros x Hx. apply IH; [assumption|].
    intros y Hy. apply Hplain. simpl. apply in_flat_map. eauto.
  - cbn [get_object_body resolved]. unfold bindM.
    rewrite (mapM_unchanged _ (resolved (existing_objects st)));
      [reflexivity|].
    rewrite Forall_forall in IH |- *. intros x Hx. apply IH; [assumption|].
    intros y Hy. apply Hplain. simpl. apply in_flat_map. eauto.
Qed.

(** [leads ignore_names next v n]: the value [v] is the reference to the
    section [next], or a sequence whose first member that is not plain
    leads to it; [n] is the number of sequences around the reference. *)
Inductive leads (ignore_names : list string) (next : string)
  : pyvalue -> nat -> Prop :=
| leads_ref : leads ignore_names next (ref next) 0
| leads_list : forall pre x post n,
    Forall (plain ignore_names) pre ->
    leads ignore_names next x n ->
    leads ignore_names next (VList (pre ++ x :: post)) (S n)
| leads_tuple : forall pre x post n,
    Forall (plain ignore_names) pre ->
    leads ignore_names next x n ->
    leads ignore_names next (VTuple (pre ++ x :: post)) (S n).

(** [link all_dicts ignore_names name next]: the section [name] refers to
    the section [next].  Its class can be called, and the first of its
    arguments that is not plain leads to [next]: the arguments before it
    hold no reference, the ones after it are arbitrary. *)
Definition link (all_dicts : dict (dict pyvalue)) (ignore_names : list string)
  (name next : string) : Prop :=
  exists this_dict clazz callee before k v after n,
    get name all_dicts = Some this_dict
    /\ get "class" this_dict = Some clazz
    /\ callable_of clazz = Some callee
    /\ section_args this_dict = before ++ (k, v) :: after
    /\ Forall (fun kv => plain ignore_names (snd kv)) before
    /\ leads ignore_names next v n.

Lemma mapM_raise_at (g : pyvalue -> M pyvalue) (f : pyvalue -> pyvalue)
  (pre : list pyvalue) (x : pyvalue) (post : list pyvalue)
  (st : build_state) (e : exc) :
  Forall (fun v => g v st = (Ok (f v), st)) pre ->
  g x st = (Raise e, st) ->
  mapM g (pre ++ x :: post) st = (Raise e, st).
Proof.
  intros Hpre Hx. induction pre as [|v pre IH]; simpl; unfold bindM.
  - rewrite Hx. reflexivity.
  - inversion Hpre as [|? ? Hv Hrest]; subst. rewrite Hv.
    fold (bindM (mapM g (pre ++ x :: post))
            (fun ys => ret (f v :: ys)) st).
    unfold bindM. rewrite (IH Hrest). reflexivity.
Qed.

Lemma process_args_raise_at (g : pyvalue -> M pyvalue) (f : pyvalue -> pyvalue)
  (before : dict pyvalue) (k : string) (v : pyvalue) (after : dict pyvalue)
  (st : build_state) (e : exc) :
  forallb (fun kv => negb (String.eqb (fst kv) "class"))
          (before ++ (k, v) :: after) = true ->
  Forall (fun kv => g (snd kv) st = (Ok (f (snd kv)), st)) before ->
  g v st = (Raise e, st) ->
  process_args g (before ++ (k, v) :: after) st = (Raise e, st).
Proof.
  intros Hkeys Hpre Hv. induction before as [|[k0 v0] before IH];
    cbn [app process_args]; cbn [app forallb fst] in Hkeys;
    apply andb_true_iff in Hkeys as [Hk Hkeys]; rewrite Hk; unfold bindM.
  - rewrite Hv. reflexivity.
  - inversion Hpre as [|? ? H0 Hrest]; subst. cbn [snd] in H0. rewrite H0.
    rewrite (IH Hkeys Hrest). reflexivity.
Qed.

(** a value that leads to a section fails as the reference to the section
    does, the state unchanged *)
Lemma leads_raise (all_dicts : dict (dict pyvalue))
  (ignore_names : list string) (next : string) (v : pyvalue) (n : nat) :
  leads ignore_names next v n ->
  forall depth st e,
    get_object (ref next) all_dicts ignore_names (depth + n) st
    = (Raise e, st) ->
    get_object v all_dicts ignore_names depth st = (Raise e, st).
Proof.
  induction 1 as [|pre x post n Hpre Hx IH|pre x post n Hpre Hx IH];
    intros depth st e Hnext.
  - rewrite Nat.add_0_r in Hnext. exact Hnext.
  - rewrite get_object_eq. cbn [get_object_body]. unfold bindM.
    rewrite (mapM_raise_at _ (resolved (existing_objects st)) pre x post st e);
      [reflexivity| |].
    + rewrite Forall_forall in Hpre |- *. intros w Hw.
      apply get_object_noref. apply Hpre. assumption.
    + apply IH. replace (depth + 1 + n) with (depth + S n) by lia.
      exact Hnext.
  - rewrite get_object_eq. cbn [get_object_body]. unfold bindM.
    rewrite (mapM_raise_at _ (resolved (existing_objects st)) pre x post st e);
      [reflexivity| |].
    + rewrite Forall_forall in Hpre |- *. intros w Hw.
      apply get_object_noref. apply Hpre. assumption.
    + apply IH. replace (depth + 1 + n) with (depth + S n) by lia.
      exact Hnext.
Qed.

(** The call on a reference to a section that refers to another: the
    plain arguments are taken as they are, then the reference to the next
    section is resolved at a greater depth, and its failure is the
    failure of the call. *)
Lemma link_raise (all_dicts : dict (dict pyvalue))
  (ignore_names : list string) (name next : string) (depth : nat)
  (st : build_state) (e : exc) :
  link all_dicts ignore_names name next ->
  PyList.mem ("object:" ++ name) ignore_names = false ->
  get ("object:" ++ name) (existing_objects st) = None ->
  depth <= 20 ->
  (forall d, depth < d ->
             get_object (ref next) all_dicts ignore_names d st
             = (Raise e, st)) ->
  get_object (ref name) all_dicts ignore_names depth st = (Raise e, st).
Proof.
  intros (this_dict & clazz & callee & before & k & v & after & n
          & Hget & Hclass & Hcall & Hargs & Hbefore & Hleads) Hi Hc Hd Hnext.
  rewrite get_object_eq. unfold ref at 1. cbn [get_object_body].
  rewrite Hi, Hc, startswith_ref, drop_ref, Hget. simpl negb. cbv iota.
  apply Nat.ltb_ge in Hd. rewrite Hd, Hclass, Hcall.
  pose proof (section_args_keys this_dict) as Hkeys. rewrite Hargs in Hkeys.
  unfold bindM. rewrite process_args_section_args, Hargs.
  rewrite (process_args_raise_at _ (resolved (existing_objects st))
             before k v after st e Hkeys); [reflexivity| |].
  - rewrite Forall_forall in Hbefore |- *. intros kv Hkv.
    apply get_object_noref. apply Hbefore. assumption.
  - apply (leads_raise all_dicts ignore_names next v n Hleads).
    apply Hnext. apply Nat.ltb_ge in Hd. lia.
Qed.

(** A set of sections, none ignored or built yet, each of which refers to
    a member of the set: every path of links stays in the set, so it runs
    into a cycle.  The calls go from one section to the next, deeper each
    time and without a change of the state, until the guard stops
    them. *)
Definition cycle_closed (all_dicts : dict (dict pyvalue))
  (ignore_names : list string) (st : build_state) (P : string -> Prop) : Prop :=
  forall name,
    P name ->
    PyList.mem ("object:" ++ name) ignore_names = false
    /\ get ("object:" ++ name) (existing_objects st) = None
    /\ exists next, link all_dicts ignore_names name next /\ P next.

Lemma get_object_cycle_closed (all_dicts : dict (dict pyvalue))
  (ignore_names : list string) (st : build_state) (P : string -> Prop) :
  cycle_closed all_dicts ignore_names st P ->
  forall n depth name,
    21 - depth <= n ->
    P name ->
    get_object (ref name) all_dicts ignore_names depth st
    = (Raise DepthExceeded, st).
Proof.
  intros Hclosed. induction n as [|n IH]; intros depth name Hn HP;
    destruct (Hclosed name HP) as (Hi & Hc & next & Hlink & Hnext);
    destruct (Nat.le_gt_cases depth 20) as [Hd|Hd]; try lia.
  - destruct Hlink as (this_dict & _ & _ & _ & _ & _ & _ & _ & Hget & _).
    apply (get_object_too_deep all_dicts ignore_names ("object:" ++ name)
             this_dict depth st Hi Hc (startswith_ref name));
      [rewrite drop_ref; exact Hget | lia].
  - apply (link_raise all_dicts ignore_names name next depth st DepthExceeded
             Hlink Hi Hc Hd).
    intros d Hlt. apply IH; [lia|assumption].
  - destruct Hlink as (this_dict & _ & _ & _ & _ & _ & _ & _ & Hget & _).
    apply (get_object_too_deep all_dicts ignore_names ("object:" ++ name)
             this_dict depth st Hi Hc (startswith_ref name));
      [rewrite drop_ref; exact Hget | lia].
Qed.

(** the two sections [A] and [B] that refer to each other *)
Lemma two_cycle_closed (all_dicts : dict (dict pyvalue))
  (ignore_names : list string) (st : build_state) (A B : string) :
  link all_dicts ignore_names A B ->
  link all_dicts ignore_names B A ->
  PyList.mem ("object:" ++ A) ignore_names = false ->
  PyList.mem ("object:" ++ B) ignore_names = false ->
  get ("object:" ++ A) (existing_objects st) = None ->
  get ("object:" ++ B) (existing_objects st) = None ->
  cycle_closed all_dicts ignore_names st (fun name => name = A \/ name = B).
Proof.
  intros HA HB HiA HiB HcA HcB name [-> | ->].
  - split; [assumption|]. split; [assumption|]. exists B. auto.
  - split; [assumption|]. split; [assumption|]. exists A. auto.
Qed.

(** C1.  [get_object] always returns, on every document: the budget of its
    definition is never exhausted and a larger one changes nothing.  When
    two sections refer to each other, whatever plain arguments stand
    before the references and whatever sequences stand around them (and,
    more generally, in a set of sections each of which refers to a member
    of the set), the resolution of a reference to one of them ends with
    the depth error, the state unchanged.  In a load, no reference that
    lies on a cycle of any kind is ever resolved; when the sections
    reached from it are sound, the call ends with the depth error, and
    the depth error is the only error of the resolution of a value from
    which only sound sections are reached.  The guard rejects a reference
    to a declared section exactly when the depth passed to the call
    exceeds 20, so a pure chain of references whose last section is
    reached at depth 20 or less is not rejected by it. *)
Theorem get_object_depth_guard (all_dicts : dict (dict pyvalue))
  (ignore_names : list string) :
  (forall value depth st,
      fst (get_object value all_dicts ignore_names depth st) <> OutOfFuel
      /\ forall fuel,
           enough_fuel all_dicts value depth <= fuel ->
           get_object_fuel fuel value all_dicts ignore_names depth st
           = get_object value all_dicts ignore_names depth st)
  /\ (forall A B depth st,
         link all_dicts ignore_names A B ->
         link all_dicts ignore_names B A ->
         PyList.mem ("object:" ++ A) ignore_names = false ->
         PyList.mem ("object:" ++ B) ignore_names = false ->
         get ("object:" ++ A) (existing_objects st) = None ->
         get ("object:" ++ B) (existing_objects st) = None ->
         get_object (ref A) all_dicts ignore_names depth st
         = (Raise DepthExceeded, st)
         /\ get_object (ref B) all_dicts ignore_names depth st
            = (Raise DepthExceeded, st))
  /\ (forall (P : string -> Prop) name depth st,
         cycle_closed all_dicts ignore_names st P ->
         P name ->
         get_object (ref name) all_dicts ignore_names depth st
         = (Raise DepthExceeded, st))
  /\ (forall s depth st,
         invariant all_dicts ignore_names st ->
         cyclic all_dicts ignore_names s ->
         get s (existing_objects st) = None ->
         (exists e st',
             get_object (VStr s) all_dicts ignore_names depth st
             = (Raise e, st'))
         /\ (sound_from all_dicts ignore_names s ->
             exists st',
               get_object (VStr s) all_dicts ignore_names depth st
               = (Raise DepthExceeded, st')))
  /\ (forall value depth st e st',
         invariant all_dicts ignore_names st ->
         (forall y, In y (strings_of value) ->
                    sound_from all_dicts ignore_names y) ->
         get_object value all_dicts ignore_names depth st = (Raise e, st') ->
         e = DepthExceeded)
  /\ (forall s this_dict depth st,
         PyList.mem s ignore_names = false ->
         get s (existing_objects st) = None ->
         PyStr.startswith "object:" s = true ->
         get (PyStr.drop 7 s) all_dicts = Some this_dict ->
         (20 < depth ->
          get_object (VStr s) all_dicts ignore_names depth st
          = (Raise DepthExceeded, st))
         /\ (depth <= 20 ->
             get "class" this_dict = None ->
             get_object (VStr s) all_dicts ignore_names depth st
             = (Raise (ClassNotDefined (PyStr.drop 7 s)), st)))
  /\ (forall n name depth st,
         chain all_dicts n name ->
         depth + n <= 20 ->
         fst (get_object (ref name) all_dicts ignore_names depth st)
         <> Raise DepthExceeded).
Proof.
  split; [|split; [|split; [|split; [|split; [|split]]]]].
  - intros value depth st. apply get_object_fuel_enough.
  - intros A B depth st HA HB HiA HiB HcA HcB.
    pose proof (get_object_cycle_closed all_dicts ignore_names st
                  (fun name => name = A \/ name = B)
                  (two_cycle_closed all_dicts ignore_names st A B
                     HA HB HiA HiB HcA HcB) (21 - depth) depth) as H.
    split; apply H; auto.
  - intros P name depth st Hclosed HP.
    apply (get_object_cycle_closed all_dicts ignore_names st P Hclosed
             (21 - depth)); auto.
  - intros s depth st Hinv Hcyc Hnew. split.
    + apply get_object_cyclic; assumption.
    + intros Hs. apply get_object_cyclic_depth; assumption.
  - intros value depth st e st' Hinv Hs Hrun.
    exact (get_object_only_depth all_dicts ignore_names depth value st
             (Raise e) st' Hinv Hs Hrun ltac:(discriminate) e eq_refl).
  - intros s this_dict depth st Hi Hc Hp Hget. split.
    + intros Hd. eapply get_object_too_deep; eassumption.
    + intros Hd Hclass. rewrite get_object_eq. simpl.
      rewrite Hi, Hc, Hp, Hget, Hclass. apply Nat.ltb_ge in Hd. rewrite Hd.
      reflexivity.
  - intros n name depth st. apply get_object_chain.
Qed.


(** * Further properties *)

(** ** The bracket-aware splitter: what becomes of the characters *)

(** the text given back by [",".join] of the items found so far and of the
    item being read *)
Definition joined (st : split_state) : string :=
  PyStr.join "," (items st ++ [join_chars (char_buffer st)]).

Definition is_bracket (c : ascii) : bool :=
  Ascii.eqb c "(" || Ascii.eqb c "[" || Ascii.eqb c ")" || Ascii.eqb c "]".

Fixpoint has_char (p : ascii -> bool) (s : string) : bool :=
  match s with
  | EmptyString => false
  | String c r => p c || has_char p r
  end.

(** a string without its spaces *)
Fixpoint without_spaces (s : string) : string :=
  match s with
  | EmptyString => EmptyString
  | String c r =>
      if Ascii.eqb c " " then without_spaces r else String c (without_spaces r)
  end.

(** [s.lstrip(" ")] *)
Fixpoint lstrip_spaces (s : string) : string :=
  match s with
  | String c r => if Ascii.eqb c " " then lstrip_spaces r else s
  | EmptyString => EmptyString
  end.

Definition starts_with_space (s : string) : bool :=
  match s with
  | String c _ => Ascii.eqb c " "
  | EmptyString => false
  end.

Lemma string_app_assoc (a b c : string) :
  ((a ++ b) ++ c)%string = (a ++ (b ++ c))%string.
Proof. induction a as [|x a IH]; simpl; congruence. Qed.

Lemma string_app_empty (a : string) : (a ++ "")%string = a.
Proof. induction a as [|x a IH]; simpl; congruence. Qed.

Lemma join_chars_app (a b : list ascii) :
  join_chars (a ++ b) = (join_chars a ++ join_chars b)%string.
Proof. unfold join_chars. induction a as [|x a IH]; simpl; congruence. Qed.

Lemma join_snoc (sep : string) (l : list string) (x : string) :
  l <> [] ->
  PyStr.join sep (l ++ [x]) = (PyStr.join sep l ++ sep ++ x)%string.
Proof.
  induction l as [|y l IH]; intros Hne; [congruence|].
  destruct l as [|z l].
  - reflexivity.
  - change (PyStr.join sep ((y :: z :: l) ++ [x]))
      with (y ++ sep ++ PyStr.join sep ((z :: l) ++ [x]))%string.
    rewrite IH by discriminate.
    change (PyStr.join sep (y :: z :: l))
      with (y ++ sep ++ PyStr.join sep (z :: l))%string.
    rewrite !string_app_assoc. reflexivity.
Qed.

Lemma join_last_app (sep : string) (l : list string) (x y : string) :
  PyStr.join sep (l ++ [(x ++ y)%string])
  = (PyStr.join sep (l ++ [x]) ++ y)%string.
Proof.
  destruct l as [|a l]; [reflexivity|].
  rewrite !join_snoc by discriminate.
  rewrite !string_app_assoc. reflexivity.
Qed.

(** One turn of the loop either skips a space or adds the character to the
    text that the items give back. *)
Lemma split_step_joined (i : nat) (c : ascii) (st st' : split_state) :
  split_step i c st = Ok st' ->
  joined st' = (joined st ++ String c "")%string
  \/ (c = " "%char /\ char_buffer st = [] /\ st' = st).
Proof.
  unfold split_step.
  assert (Hpush : forall ops,
             joined (mkSplit (items st) (char_buffer st ++ [c]) ops)
             = (joined st ++ String c "")%string).
  { intros ops. unfold joined. simpl.
    rewrite join_chars_app. apply join_last_app. }
  destruct (Ascii.eqb c "," && (List.length (openings st) =? 0)) eqn:E1.
  { intros H; injection H as <-. left. unfold joined. simpl.
    apply andb_true_iff in E1 as [E1 _]. apply Ascii.eqb_eq in E1. subst c.
    rewrite join_snoc by (destruct (items st); discriminate).
    reflexivity. }
  destruct (Ascii.eqb c " " && (List.length (char_buffer st) =? 0)) eqn:E2.
  { intros H; injection H as <-. right.
    apply andb_true_iff in E2 as [E2 E3]. apply Ascii.eqb_eq in E2.
    apply Nat.eqb_eq in E3. destruct (char_buffer st); [auto|discriminate]. }
  repeat match goal with
         | |- context [if ?b then _ else _] => destruct b
         | |- context [match PyList.pop ?l with _ => _ end] =>
             destruct (PyList.pop l) as [[? ?]|]
         end; intros H; try discriminate; injection H as <-; left; apply Hpush.
Qed.

Lemma without_spaces_app (a b : string) :
  without_spaces (a ++ b) = (without_spaces a ++ without_spaces b)%string.
Proof.
  induction a as [|x a IH]; simpl; [reflexivity|].
  destruct (Ascii.eqb x " "); simpl; congruence.
Qed.

Lemma split_loop_joined (text : string) :
  forall i st st',
    split_loop i text st = Ok st' ->
    without_spaces (joined st')
    = (without_spaces (joined st) ++ without_spaces text)%string
    /\ (has_char (Ascii.eqb " ") text = false ->
        joined st' = (joined st ++ text)%string).
Proof.
  induction text as [|c text IH]; simpl; intros i st st' Hrun.
  - injection Hrun as <-. rewrite !string_app_empty. auto.
  - destruct (split_step i c st) as [st1| |] eqn:Estep; simpl in Hrun;
      try discriminate.
    destruct (IH _ _ _ Hrun) as [IH1 IH2].
    destruct (split_step_joined i c st st1 Estep) as [Hj|(-> & _ & ->)].
    + split.
      * rewrite IH1, Hj, without_spaces_app. simpl.
        destruct (Ascii.eqb c " "); simpl;
          rewrite ?string_app_assoc, ?string_app_empty; reflexivity.
      * intros Hsp. apply orb_false_iff in Hsp as [_ Hsp].
        rewrite (IH2 Hsp), Hj, string_app_assoc. reflexivity.
    + split; [simpl; exact IH1|]. intros Hsp. discriminate Hsp.
Qed.

(** X1.  When a text is split, the items joined again with commas are the
    text, but for spaces that the splitter dropped: the two have the same
    characters other than spaces in the same order, and a text without
    spaces is given back exactly. *)
Theorem split_on_commas_join (text : string) (l : list string) :
  split_on_commas text = Ok l ->
  without_spaces (PyStr.join "," l) = without_spaces text
  /\ (has_char (Ascii.eqb " ") text = false -> PyStr.join "," l = text).
Proof.
  unfold split_on_commas.
  destruct (split_loop 0 text (mkSplit [] [] [])) as [st| |] eqn:E; simpl;
    try discriminate.
  intros H; injection H as <-.
  destruct (split_loop_joined text _ _ _ E) as [H1 H2].
  exact (conj H1 H2).
Qed.

Definition item_state_clean (st : split_state) : Prop :=
  Forall (fun x => starts_with_space x = false) (items st)
  /\ starts_with_space (join_chars (char_buffer st)) = false.

Lemma starts_with_space_app (b : list ascii) (c : ascii) :
  starts_with_space (join_chars b) = false ->
  (b = [] -> Ascii.eqb c " " = false) ->
  starts_with_space (join_chars (b ++ [c])) = false.
Proof.
  destruct b as [|x b]; simpl; intros H Hc; [apply Hc; reflexivity|assumption].
Qed.

Lemma split_step_clean (i : nat) (c : ascii) (st st' : split_state) :
  item_state_clean st -> split_step i c st = Ok st' -> item_state_clean st'.
Proof.
  intros [Hit Hbuf]. unfold split_step.
  destruct (Ascii.eqb c "," && (List.length (openings st) =? 0)) eqn:E1.
  { intros H; injection H as <-. split; simpl; [|reflexivity].
    apply Forall_app. split; [assumption|]. constructor; [assumption|constructor]. }
  destruct (Ascii.eqb c " " && (List.length (char_buffer st) =? 0)) eqn:E2.
  { intros H; injection H as <-. split; assumption. }
  assert (Hc : char_buffer st = [] -> Ascii.eqb c " " = false).
  { intros Hb. rewrite Hb in E2. simpl in E2. rewrite andb_true_r in E2.
    assumption. }
  repeat match goal with
         | |- context [if ?b then _ else _] => destruct b
         | |- context [match PyList.pop ?l with _ => _ end] =>
             destruct (PyList.pop l) as [[? ?]|]
         end; intros H; try discriminate; injection H as <-;
    (split; simpl; [assumption|apply starts_with_space_app; assumption]).
Qed.

(** X2.  No item that the splitter returns begins with a space. *)
Theorem split_on_commas_no_leading_space (text : string) (l : list string) :
  split_on_commas text = Ok l ->
  Forall (fun x => starts_with_space x = false) l.
Proof.
  unfold split_on_commas.
  assert (H : forall t i st st',
             item_state_clean st -> split_loop i t st = Ok st' ->
             item_state_clean st').
  { induction t as [|c t IH]; simpl; intros i st st' Hc Hrun.
    - injection Hrun as <-. assumption.
    - destruct (split_step i c st) as [st1| |] eqn:E; simpl in Hrun;
        try discriminate.
      eapply IH; [|eassumption]. eapply split_step_clean; eassumption. }
  destruct (split_loop 0 text (mkSplit [] [] [])) as [st| |] eqn:E; simpl;
    try discriminate.
  intros Hl; injection Hl as <-.
  assert (H0 : item_state_clean (mkSplit [] [] []))
    by (split; [constructor|reflexivity]).
  destruct (H text 0 _ st H0 E) as [Hit Hbuf].
  apply Forall_app. split; [assumption|]. constructor; [assumption|constructor].
Qed.

(** the items of a text without brackets, the item being read included *)
Definition glue (buffer : list ascii) (pieces : list string) : list string :=
  match pieces with
  | [] => []
  | p :: ps =>
      match buffer with
      | [] => lstrip_spaces p
      | _ => (join_chars buffer ++ p)%string
      end :: map lstrip_spaces ps
  end.

Lemma split_nonempty (sep : ascii) (s : string) :
  exists p ps, PyStr.split sep s = p :: ps.
Proof.
  destruct s as [|c r]; simpl; [eauto|].
  destruct (Ascii.eqb c sep); [eauto|].
  destruct (PyStr.split sep r); eauto.
Qed.

Lemma split_loop_plain (text : string) :
  has_char is_bracket text = false ->
  forall i st,
    openings st = [] ->
    exists st',
      split_loop i text st = Ok st'
      /\ items st' ++ [join_chars (char_buffer st')]
         = items st ++ glue (char_buffer st) (PyStr.split "," text).
Proof.
  induction text as [|c text IH]; intros Hb i st Hop.
  - exists st. split; [reflexivity|]. simpl.
    destruct (char_buffer st); simpl; [reflexivity|].
    rewrite string_app_empty. reflexivity.
  - simpl in Hb. apply orb_false_iff in Hb as [Hc Hb].
    unfold is_bracket in Hc.
    apply orb_false_iff in Hc as [Hc H4]. apply orb_false_iff in Hc as [Hc H3].
    apply orb_false_iff in Hc as [H1 H2].
    destruct (split_nonempty "," text) as (p & ps & Hsplit).
    cbn [split_loop PyStr.split]. unfold split_step.
    rewrite Hop, H1, H2, H3, H4. cbn [List.length Nat.eqb orb].
    destruct (Ascii.eqb c ",") eqn:Ecomma; cbn [andb bind].
    + destruct (IH Hb (S i)
                  (mkSplit (items st ++ [join_chars (char_buffer st)]) [] [])
                  eq_refl) as (st' & Hrun & Hitems).
      exists st'. split; [assumption|]. rewrite Hitems. cbn [items char_buffer].
      rewrite Hsplit. simpl. rewrite <- app_assoc. simpl.
      destruct (char_buffer st); simpl; [reflexivity|].
      rewrite string_app_empty. reflexivity.
    + destruct (Ascii.eqb c " " && (List.length (char_buffer st) =? 0)) eqn:Esp;
        cbn [bind].
      * apply andb_true_iff in Esp as [Esp Elen].
        apply Nat.eqb_eq in Elen.
        destruct (char_buffer st) as [|x b] eqn:Ebuf; [|discriminate].
        destruct (IH Hb (S i) st Hop) as (st' & Hrun & Hitems).
        exists st'. split; [assumption|]. rewrite Hitems, Ebuf, Hsplit.
        simpl. rewrite Esp. reflexivity.
      * destruct (IH Hb (S i)
                    (mkSplit (items st) (char_buffer st ++ [c]) []) eq_refl)
          as (st' & Hrun & Hitems).
        exists st'. split; [exact Hrun|].
        rewrite Hitems. cbn [items char_buffer]. rewrite Hsplit. simpl.
        destruct (char_buffer st) as [|x b] eqn:Ebuf; simpl.
        -- simpl in Esp. rewrite andb_true_r in Esp. rewrite Esp. reflexivity.
        -- rewrite join_chars_app. simpl.
           change (String x (join_chars b)) with (join_chars (x :: b)).
           f_equal. f_equal. unfold join_chars. simpl.
           rewrite string_app_assoc. reflexivity.
Qed.

(** X3.  On a text without brackets the splitter always succeeds and
    agrees with [text.split(",")], each piece stripped of its leading
    spaces. *)
Theorem split_on_commas_plain (text : string) :
  has_char is_bracket text = false ->
  split_on_commas text = Ok (map lstrip_spaces (PyStr.split "," text)).
Proof.
  intros Hb. unfold split_on_commas.
  destruct (split_loop_plain text Hb 0 (mkSplit [] [] []) eq_refl)
    as (st' & -> & Hitems).
  simpl. rewrite Hitems. simpl.
  destruct (split_nonempty "," text) as (p & ps & ->). reflexivity.
Qed.


(** ** The value formatter: integers, references, lists *)

Fixpoint all_chars (p : ascii -> bool) (s : string) : bool :=
  match s with
  | EmptyString => true
  | String c r => p c && all_chars p r
  end.

Lemma span_all (p : ascii -> bool) (s : string) :
  all_chars p s = true -> PyStr.span p s = (s, EmptyString).
Proof.
  induction s as [|c s IH]; simpl; [reflexivity|].
  intros H. apply andb_true_iff in H as [Hc Hs].
  rewrite Hc, (IH Hs). reflexivity.
Qed.

Lemma span_stop (p : ascii -> bool) (s : string) (c : ascii) (r : string) :
  all_chars p s = true -> p c = false ->
  PyStr.span p (s ++ String c r) = (s, String c r).
Proof.
  intros Hs Hc. induction s as [|x s IH]; simpl.
  - rewrite Hc. reflexivity.
  - simpl in Hs. apply andb_true_iff in Hs as [Hx Hs].
    rewrite Hx, (IH Hs). reflexivity.
Qed.

Lemma int_of_digits_nonneg (s : string) :
  forall acc, (0 <= acc)%Z -> (0 <= PyStr.int_of_digits acc s)%Z.
Proof.
  induction s as [|c s IH]; cbn [PyStr.int_of_digits]; intros acc Hacc;
    [assumption|].
  apply IH. unfold PyStr.digit_val.
  pose proof (Nat2Z.is_nonneg (nat_of_ascii c - 48)). lia.
Qed.

Lemma int_of_digits_snoc (s : string) (c : ascii) :
  forall acc,
    PyStr.int_of_digits acc (s ++ String c "")
    = (10 * PyStr.int_of_digits acc s + PyStr.digit_val c)%Z.
Proof.
  induction s as [|x s IH]; cbn [append PyStr.int_of_digits]; intros acc;
    [reflexivity|apply IH].
Qed.

(** X4.  Every text of one decimal digit or more is an integer: it formats
    to the number that its digits spell in base ten, leading zeros
    allowed, which is never negative. *)
Theorem format_value_digits (c : ascii) (r : string) :
  all_chars PyStr.is_digit (String c r) = true ->
  format_value (String c r)
  = Ok (VInt (PyStr.int_of_digits 0 (String c r)))
  /\ (0 <= PyStr.int_of_digits 0 (String c r))%Z
  /\ forall d, PyStr.int_of_digits 0 (String c r ++ String d "")
               = (10 * PyStr.int_of_digits 0 (String c r) + PyStr.digit_val d)%Z.
Proof.
  intros Hd. split; [|split].
  - unfold format_value. cbn [String.length format_value_fuel].
    assert (Hc : PyStr.is_digit c = true)
      by (simpl in Hd; apply andb_true_iff in Hd; exact (proj1 Hd)).
    assert (Hne : forall x s, PyStr.is_digit x = false ->
                              String.eqb (String c r) (String x s) = false).
    { intros x s Hx. simpl. destruct (Ascii.eqb c x) eqn:E; [|reflexivity].
      apply Ascii.eqb_eq in E. congruence. }
    rewrite !Hne by reflexivity.
    unfold Re.INTEGER. rewrite (span_all _ _ Hd). reflexivity.
  - apply int_of_digits_nonneg. lia.
  - intros d. apply int_of_digits_snoc.
Qed.

Lemma CLASS_NAME_angle (r : string) : Re.CLASS_NAME (String "<" r) = false.
Proof.
  unfold Re.CLASS_NAME.
  assert (Hchomp : exists r', Re.chomp (String "<" r) = String "<" r').
  { destruct r as [|x r]; simpl; eauto. }
  destruct Hchomp as [r' ->].
  assert (Hsplit : exists p ps, PyStr.split "." (String "<" r') = String "<" p :: ps).
  { simpl. destruct (PyStr.split "." r'); eauto. }
  destruct Hsplit as (p & ps & ->).
  apply andb_false_iff. right. reflexivity.
Qed.

Lemma span_whole (p : ascii -> bool) (s : string) :
  forall a, PyStr.span p s = (a, EmptyString) -> all_chars p s = true.
Proof.
  induction s as [|x s IH]; simpl; intros a; [reflexivity|].
  destruct (p x); [|discriminate].
  destruct (PyStr.span p s) as [a' b] eqn:Hs.
  intros H; injection H as _ ->. simpl. apply (IH a'). reflexivity.
Qed.

Lemma ident_word (name : string) :
  Re.ident name = Some (name, EmptyString) ->
  exists c r, name = String c r /\ PyStr.is_alpha c = true
              /\ all_chars PyStr.is_word r = true.
Proof.
  unfold Re.ident. destruct name as [|c r]; [discriminate|].
  destruct (PyStr.is_alpha c) eqn:Hc; [|discriminate].
  destruct (PyStr.span PyStr.is_word r) as [a b] eqn:Hspan.
  intros H; injection H as _ ->. exists c, r. split; [reflexivity|].
  split; [assumption|]. eapply span_whole; eassumption.
Qed.


(** X5.  For every identifier [name] the text made of the identifier
    between angle brackets formats to the marker of a reference to
    [name]; and resolving that marker when the document has no section
    [name] (and the marker is neither ignored nor stored) raises the error
    that the object is not defined, at every depth. *)
Theorem format_value_reference (name : string) :
  Re.ident name = Some (name, EmptyString) ->
  format_value ("<" ++ name ++ ">") = Ok (ref name)
  /\ forall all_dicts ignore_names depth st,
       PyList.mem ("object:" ++ name) ignore_names = false ->
       get ("object:" ++ name) (existing_objects st) = None ->
       get name all_dicts = None ->
       get_object (ref name) all_dicts ignore_names depth st
       = (Raise (ObjectNotDefined name), st).
Proof.
  intros Hid. split.
  - destruct (ident_word name Hid) as (c & r & -> & Hc & Hr).
    set (text := ("<" ++ String c r ++ ">")%string).
    assert (E1 : String.eqb text "False" = false) by reflexivity.
    assert (E2 : String.eqb text "True" = false) by reflexivity.
    assert (E3 : String.eqb text "None" = false) by reflexivity.
    assert (E4 : Re.INTEGER text = None) by reflexivity.
    assert (E5 : Re.FLOAT text = None) by reflexivity.
    assert (E6 : Re.CLASS_NAME text = false) by apply CLASS_NAME_angle.
    assert (E7 : Re.OBJECT_REF text = Some (String c r)).
    { unfold text, Re.OBJECT_REF, Re.ident. cbn [append].
      change (Ascii.eqb "<" "<") with true. cbv iota. rewrite Hc.
      rewrite (span_stop PyStr.is_word r ">" EmptyString Hr eq_refl).
      reflexivity. }
    unfold format_value. cbn [format_value_fuel].
    rewrite E1, E2, E3, E4, E5, E6, E7. reflexivity.
  - intros all_dicts ignore_names depth st Hi Hc Hget.
    rewrite get_object_eq. unfold ref. cbn [get_object_body].
    rewrite Hi, Hc, startswith_ref, drop_ref, Hget. reflexivity.
Qed.

Lemma nodup_all_equal {A : Type} (dec : forall x y : A, {x = y} + {x <> y})
  (l : list A) :
  List.length (nodup dec l) <= 1 ->
  forall a b, In a l -> In b l -> a = b.
Proof.
  intros Hlen a b Ha Hb.
  apply (nodup_In dec) in Ha. apply (nodup_In dec) in Hb.
  destruct (nodup dec l) as [|x [|y t]]; simpl in *.
  - destruct Ha.
  - destruct Ha as [<-|[]]. destruct Hb as [<-|[]]. reflexivity.
  - lia.
Qed.

(** X6.  A list that the formatter returns for a text that is not a dotted
    path is homogeneous: any two of its members have the same runtime
    type. *)
Theorem format_value_list_homogeneous (text : string) (values : list pyvalue) :
  Re.CLASS_NAME text = false ->
  format_value text = Ok (VList values) ->
  forall a b, In a values -> In b values -> type_of a = type_of b.
Proof.
  intros Hclass. unfold format_value. cbn [format_value_fuel]. rewrite Hclass.
  repeat match goal with
         | |- context [if ?b then _ else _] => destruct b
         | |- context [match ?x with _ => _ end] =>
             lazymatch x with
             | split_on_commas _ => fail
             | mapR _ _ => fail
             | _ => destruct x eqn:?
             end
         end; try discriminate.
  - intros H; injection H as <-. intros a b [].
  - destruct (split_on_commas s) as [l| |]; simpl; try discriminate.
    destruct (mapR _ l) as [vs| |]; simpl; try discriminate.
    destruct (1 <? List.length (nodup pytype_eq_dec (map type_of vs))) eqn:E;
      [discriminate|].
    intros H; injection H as <-. intros a b Ha Hb.
    apply Nat.ltb_ge in E.
    apply (nodup_all_equal pytype_eq_dec (map type_of vs) E);
      apply in_map; assumption.
  - destruct (split_on_commas s) as [l| |]; simpl; try discriminate.
    destruct (mapR _ l) as [vs| |]; simpl; discriminate.
Qed.

(** X7.  The formatter always returns: each recursive call is on an item
    shorter than the text, so the result is a value or an exception, the
    same for every recursion budget above the length of the text. *)
Theorem format_value_returns (text : string) :
  format_value text <> OutOfFuel
  /\ forall fuel, String.length text < fuel ->
                  format_value_fuel fuel text = format_value text.
Proof.
  unfold format_value.
  destruct (format_value_fuel_enough (S (String.length text)) text
              (Nat.lt_succ_diag_r _)) as [H1 H2].
  split; [assumption|]. intros fuel Hf. apply H2. assumption.
Qed.


(** ** The document parser: lines that are ignored, lines that clash *)

(** the line as [get_config_dicts] classifies it: stripped, without its
    comment, with the time stamp put in *)
Definition preprocess (line : string) : string :=
  Re.sub_TIME time_stamp (Re.strip_comments false (PyStr.strip line)).

(** an empty line or a line that starts with a semicolon *)
Definition ignored_line (line : string) : bool :=
  String.eqb (preprocess line) EmptyString
  || PyStr.startswith ";" (preprocess line).

Definition is_header (line : string) : bool :=
  match Re.OBJECT_NAME (preprocess line) with
  | Some _ => true
  | None => false
  end.

Lemma strip_comments_comment (s : string) :
  has_char (fun c => Ascii.eqb c PyStr.newline) s = false ->
  Re.strip_comments true s = EmptyString.
Proof.
  induction s as [|c s IH]; simpl; [reflexivity|].
  intros H. apply orb_false_iff in H as [Hc Hs]. rewrite Hc. auto.
Qed.

Lemma has_char_app (p : ascii -> bool) (a b : string) :
  has_char p (a ++ b) = has_char p a || has_char p b.
Proof.
  induction a as [|c a IH]; simpl; [reflexivity|].
  rewrite IH. apply orb_assoc.
Qed.

(** X8.  What comes after a hash sign is a comment: a text without hash
    signs and newlines, followed by a hash sign and any text without
    newlines, is cut back to the text before the hash sign.  A text
    without dollar signs is not changed by the substitution of the time
    stamp. *)
Theorem comment_and_time_stamp (a b : string) :
  has_char (fun c => Ascii.eqb c "#") a = false ->
  has_char (fun c => Ascii.eqb c PyStr.newline) (a ++ b) = false ->
  Re.strip_comments false (a ++ String "#" b) = a
  /\ (has_char (fun c => Ascii.eqb c "$") a = false ->
      Re.sub_TIME time_stamp a = a).
Proof.
  intros Hhash Hnl. rewrite has_char_app in Hnl.
  apply orb_false_iff in Hnl as [Hnla Hnlb]. split.
  - induction a as [|c a IH]; simpl.
    + apply strip_comments_comment. assumption.
    + simpl in Hhash, Hnla.
      apply orb_false_iff in Hhash as [Hc Hhash].
      apply orb_false_iff in Hnla as [Hn Hnla].
      rewrite Hn, Hc. f_equal. auto.
  - clear. induction a as [|c0 a IH]; intros H; [reflexivity|].
    simpl in H. apply orb_false_iff in H as [Hc H].
    specialize (IH H).
    destruct a as [|c1 [|c2 [|c3 [|c4 r]]]];
      cbn [Re.sub_TIME] in *; rewrite ?Hc; cbn [andb];
      rewrite ?IH; reflexivity.
Qed.

Lemma parse_line_body_ignored (i : nat) (line : string) (st : parse_state) :
  ignored_line line = true -> parse_line_body i line st = Ok st.
Proof.
  unfold ignored_line, parse_line_body. fold (preprocess line).
  intros H. destruct (String.eqb (preprocess line) EmptyString); [reflexivity|].
  simpl in H. rewrite H. reflexivity.
Qed.

Lemma parse_line_body_index (i j : nat) (line : string) (st st' : parse_state) :
  parse_line_body i line st = Ok st' -> parse_line_body j line st = Ok st'.
Proof.
  unfold parse_line_body.
  repeat match goal with
         | |- context [if ?b then _ else _] => destruct b
         | |- context [match ?x with _ => _ end] =>
             lazymatch x with
             | format_value _ => fail
             | _ => destruct x eqn:?
             end
         end; try discriminate; auto.
Qed.

Lemma parse_line_ok (i : nat) (line : string) (st st' : parse_state) :
  parse_line i line st = Ok st' <-> parse_line_body i line st = Ok st'.
Proof.
  unfold parse_line. destruct (parse_line_body i line st) as [s|e|];
    [(drop_externals; tauto)| |split; discriminate].
  destruct e; split; discriminate.
Qed.

Lemma parse_lines_index (config_file : list string) :
  forall i j st st',
    parse_lines i config_file st = Ok st' ->
    parse_lines j config_file st = Ok st'.
Proof.
  induction config_file as [|line rest IH]; simpl; intros i j st st' H;
    [assumption|].
  destruct (parse_line i line st) as [st1| |] eqn:E; simpl in H;
    try discriminate.
  apply parse_line_ok in E. apply (parse_line_body_index i j) in E.
  apply parse_line_ok in E. rewrite E. simpl. eapply IH; eassumption.
Qed.

Lemma parse_lines_app (a b : list string) :
  forall i st,
    parse_lines i (a ++ b) st
    = (st1 <- parse_lines i a st ;; parse_lines (i + List.length a) b st1).
Proof.
  induction a as [|line a IH]; intros i st; simpl.
  - rewrite Nat.add_0_r. reflexivity.
  - destruct (parse_line i line st) as [st1| |]; simpl; try reflexivity.
    rewrite IH, Nat.add_succ_r. reflexivity.
Qed.

(** X9.  A blank line, a line that is only a comment and a line that
    starts with a semicolon do not count: with or without such a line, at
    any place, a document parses to the same sections. *)
Theorem get_config_dicts_ignored_line (pre post : list string) (line : string)
  (d : dict (dict pyvalue)) :
  ignored_line line = true ->
  (get_config_dicts (pre ++ line :: post) = Ok d
   <-> get_config_dicts (pre ++ post) = Ok d).
Proof.
  intros Hline. unfold get_config_dicts. rewrite !parse_lines_app.
  destruct (parse_lines 0 pre (mkParse empty None)) as [st1| |];
    simpl; [|(drop_externals; tauto)|(drop_externals; tauto)].
  assert (E : parse_line (List.length pre) line st1 = Ok st1)
    by (apply parse_line_ok, parse_line_body_ignored; assumption).
  rewrite E. simpl.
  destruct (parse_lines (S (List.length pre)) post st1) as [st2| |] eqn:E2.
  - rewrite (parse_lines_index post _ (List.length pre) st1 st2 E2).
    simpl. (drop_externals; tauto).
  - destruct (parse_lines (List.length pre) post st1) as [st2| |] eqn:E3;
      simpl; try (split; discriminate).
    rewrite (parse_lines_index post _ (S (List.length pre)) st1 st2 E3) in E2.
    discriminate.
  - destruct (parse_lines (List.length pre) post st1) as [st2| |] eqn:E3;
      simpl; try (split; discriminate).
    rewrite (parse_lines_index post _ (S (List.length pre)) st1 st2 E3) in E2.
    discriminate.
Qed.


Lemma KEY_VALUE_PAIR_first (l key v : string) :
  Re.KEY_VALUE_PAIR l = Some (key, v) ->
  exists c r, l = String c r /\ PyStr.is_alpha c = true.
Proof.
  unfold Re.KEY_VALUE_PAIR, Re.ident. destruct l as [|c r]; [discriminate|].
  destruct (PyStr.is_alpha c) eqn:Hc; [|discriminate]. eauto.
Qed.

Lemma OBJECT_NAME_first (l name : string) :
  Re.OBJECT_NAME l = Some name -> exists r, l = String "[" r.
Proof.
  unfold Re.OBJECT_NAME. destruct l as [|c r]; [discriminate|].
  destruct (Ascii.eqb c "[") eqn:Hc; [|discriminate].
  apply Ascii.eqb_eq in Hc. subst c. eauto.
Qed.

(** a line of the form key = value is no header and is not ignored *)
Lemma parse_line_body_key_value (i : nat) (line key v : string)
  (st : parse_state) :
  Re.KEY_VALUE_PAIR (preprocess line) = Some (key, v) ->
  parse_line_body i line st
  = match current_name st with
    | None => Raise (KeyError None)
    | Some cur =>
        match get cur (config_dicts st) with
        | None => Raise (KeyError (Some cur))
        | Some this_dict =>
            if mem key this_dict
            then Raise (IniSyntaxError i (DuplicitKey key i) None)
            else
              val <- format_value v ;;
              Ok (mkParse (set cur (set key val this_dict) (config_dicts st))
                          (current_name st))
        end
    end.
Proof.
  intros Hkv. unfold parse_line_body. fold (preprocess line).
  destruct (KEY_VALUE_PAIR_first _ _ _ Hkv) as (c & r & Hl & Hc).
  rewrite Hkv, Hl.
  assert (E1 : String.eqb (String c r) EmptyString = false) by reflexivity.
  assert (E2 : PyStr.startswith ";" (String c r) = false).
  { unfold PyStr.startswith. cbn [String.prefix].
    destruct (ascii_dec ";" c) as [<-|]; [discriminate Hc|reflexivity]. }
  assert (E3 : Re.OBJECT_NAME (String c r) = None).
  { unfold Re.OBJECT_NAME. destruct (Ascii.eqb c "[") eqn:E; [|reflexivity].
    apply Ascii.eqb_eq in E. subst c. discriminate Hc. }
  rewrite E1, E2, E3. reflexivity.
Qed.

(** a header opens its section, or clashes with a section of the same
    name *)
Lemma parse_line_body_header (i : nat) (line name : string) (st : parse_state) :
  Re.OBJECT_NAME (preprocess line) = Some name ->
  parse_line_body i line st
  = if mem name (config_dicts st)
    then Raise (IniSyntaxError i (DuplicitObjectKey name i) None)
    else Ok (mkParse (set name empty (config_dicts st)) (Some name)).
Proof.
  intros Hh. unfold parse_line_body. fold (preprocess line).
  destruct (OBJECT_NAME_first _ _ Hh) as (r & Hl). rewrite Hh, Hl.
  reflexivity.
Qed.

Lemma parse_lines_ignored (pre : list string) :
  forallb ignored_line pre = true ->
  forall i st, parse_lines i pre st = Ok st.
Proof.
  induction pre as [|line pre IH]; simpl; intros H i st; [reflexivity|].
  apply andb_true_iff in H as [Hl Hp].
  rewrite (proj2 (parse_line_ok i line st st)
             (parse_line_body_ignored i line st Hl)).
  simpl. apply IH. assumption.
Qed.

(** X10.  A line of the form key = value that comes before any section
    header is an error on that line: the lookup of the current section,
    which is still [None], fails, and the failure is wrapped with the
    index of the line. *)
Theorem get_config_dicts_key_before_section (pre post : list string)
  (line key v : string) :
  forallb ignored_line pre = true ->
  Re.KEY_VALUE_PAIR (preprocess line) = Some (key, v) ->
  get_config_dicts (pre ++ line :: post)
  = Raise (IniSyntaxError (List.length pre) ErrorMessage (Some (KeyError None))).
Proof.
  intros Hpre Hkv. unfold get_config_dicts.
  rewrite parse_lines_app, (parse_lines_ignored pre Hpre). simpl.
  unfold parse_line. rewrite (parse_line_body_key_value _ _ _ _ _ Hkv).
  reflexivity.
Qed.

Lemma mem_set {V : Type} (k k' : string) (v : V) (d : dict V) :
  mem k d = true -> mem k (set k' v d) = true.
Proof.
  unfold mem. destruct (string_dec k k') as [->|Hne].
  - rewrite set_get_same. reflexivity.
  - rewrite set_get_other by assumption. auto.
Qed.

Lemma format_value_fuel_free (text : string) : format_value text <> OutOfFuel.
Proof.
  unfold format_value.
  apply (format_value_fuel_enough (S (String.length text)) text).
  apply Nat.lt_succ_diag_r.
Qed.

Lemma parse_line_fuel (i : nat) (line : string) (st : parse_state) :
  parse_line i line st <> OutOfFuel.
Proof.
  unfold parse_line.
  assert (H : parse_line_body i line st <> OutOfFuel).
  { unfold parse_line_body.
    repeat match goal with
           | |- context [if ?b then _ else _] => destruct b
           | |- context [match ?x with _ => _ end] =>
               lazymatch x with
               | format_value _ => fail
               | _ => destruct x eqn:?
               end
           end; try discriminate.
    pose proof (format_value_fuel_free s0) as Hf.
    destruct (format_value s0); simpl; congruence. }
  destruct (parse_line_body i line st) as [s|e|]; [discriminate| |congruence].
  destruct e; discriminate.
Qed.

(** The parse of some lines from the index [i] ends well or with a syntax
    error on one of the lines. *)
Lemma parse_lines_outcome (config_file : list string) (i : nat)
  (st : parse_state) :
  (exists st', parse_lines i config_file st = Ok st')
  \/ exists k m o,
       k < i + List.length config_file
       /\ parse_lines i config_file st = Raise (IniSyntaxError k m o).
Proof.
  destruct (parse_lines i config_file st) as [st'|e|] eqn:E.
  - left. eauto.
  - right. apply parse_lines_raise in E
      as (pre & line & post & st' & -> & Hpre & Hline).
    destruct (parse_line_raise _ _ _ _ Hline) as (m & o & -> & _).
    exists (i + List.length pre), m, o. split; [|reflexivity].
    rewrite length_app. simpl. lia.
  - exfalso. revert i st E.
    induction config_file as [|line rest IH]; simpl; intros i st;
      [discriminate|].
    pose proof (parse_line_fuel i line st) as Hl.
    destruct (parse_line i line st); simpl;
      [apply IH|discriminate|congruence].
Qed.

(** a section that was opened stays in the document *)
Lemma parse_lines_keeps_section (config_file : list string) (name : string) :
  forall i st st',
    parse_lines i config_file st = Ok st' ->
    mem name (config_dicts st) = true ->
    mem name (config_dicts st') = true.
Proof.
  induction config_file as [|line rest IH]; simpl; intros i st st' Hrun Hm.
  - injection Hrun as <-. assumption.
  - destruct (parse_line i line st) as [st1| |] eqn:E; simpl in Hrun;
      try discriminate.
    apply (IH _ _ _ Hrun). apply parse_line_ok in E. revert E.
    unfold parse_line_body.
    repeat match goal with
           | |- context [if ?b then _ else _] => destruct b
           | |- context [match ?x with _ => _ end] =>
               lazymatch x with
               | format_value _ => fail
               | _ => destruct x eqn:?
               end
           end; try discriminate;
      try (intros H; injection H as <-; simpl; auto using mem_set).
    destruct (format_value s0); simpl; try discriminate.
    intros H; injection H as <-. simpl. apply mem_set. assumption.
Qed.

(** X11.  A document in which two headers name the same section never
    parses: unless an earlier line is in error, the parse stops at the
    second header, with the error of a duplicate section that carries the
    index of that line. *)
Theorem get_config_dicts_duplicate_section (pre mid post : list string)
  (h1 h2 name : string) :
  Re.OBJECT_NAME (preprocess h1) = Some name ->
  Re.OBJECT_NAME (preprocess h2) = Some name ->
  let j := List.length pre + S (List.length mid) in
  get_config_dicts (pre ++ h1 :: mid ++ h2 :: post)
  = Raise (IniSyntaxError j (DuplicitObjectKey name j) None)
  \/ exists i m o,
       i < j
       /\ get_config_dicts (pre ++ h1 :: mid ++ h2 :: post)
          = Raise (IniSyntaxError i m o).
Proof.
  intros H1 H2 j. unfold get_config_dicts.
  replace (pre ++ h1 :: mid ++ h2 :: post)
    with ((pre ++ h1 :: mid) ++ h2 :: post)
    by (rewrite <- app_assoc; reflexivity).
  rewrite parse_lines_app.
  assert (Hlen : List.length (pre ++ h1 :: mid) = j)
    by (rewrite length_app; reflexivity).
  destruct (parse_lines_outcome (pre ++ h1 :: mid) 0 (mkParse empty None))
    as [[st1 Hok]|(k & m & o & Hk & Hraise)].
  - left. rewrite Hok. simpl. rewrite Hlen.
    assert (Hmem : mem name (config_dicts st1) = true).
    { rewrite parse_lines_app in Hok.
      destruct (parse_lines 0 pre (mkParse empty None)) as [st0| |];
        simpl in Hok; try discriminate.
      destruct (parse_line (List.length pre) h1 st0) as [st0'| |] eqn:Eh;
        simpl in Hok; try discriminate.
      apply (parse_lines_keeps_section mid name _ _ _ Hok).
      apply parse_line_ok in Eh.
      rewrite (parse_line_body_header _ _ _ _ H1) in Eh.
      destruct (mem name (config_dicts st0)); [discriminate|].
      injection Eh as <-. simpl. unfold mem. rewrite set_get_same.
      reflexivity. }
    unfold parse_line. rewrite (parse_line_body_header _ _ _ _ H2), Hmem.
    reflexivity.
  - right. exists k, m, o. rewrite Hraise. simpl. split; [lia|reflexivity].
Qed.

(** X12.  A section in which two lines give the same key never parses:
    when no header stands between the two lines, and unless an earlier
    line is in error, the parse stops at the second of them, with the
    error of a duplicate key that carries the index of that line. *)
Theorem get_config_dicts_duplicate_key (pre mid post : list string)
  (l1 l2 key v1 v2 : string) :
  Re.KEY_VALUE_PAIR (preprocess l1) = Some (key, v1) ->
  Re.KEY_VALUE_PAIR (preprocess l2) = Some (key, v2) ->
  forallb (fun l => negb (is_header l)) mid = true ->
  let j := List.length pre + S (List.length mid) in
  get_config_dicts (pre ++ l1 :: mid ++ l2 :: post)
  = Raise (IniSyntaxError j (DuplicitKey key j) None)
  \/ exists i m o,
       i < j
       /\ get_config_dicts (pre ++ l1 :: mid ++ l2 :: post)
          = Raise (IniSyntaxError i m o).
Proof.
  intros H1 H2 Hmid j. unfold get_config_dicts.
  replace (pre ++ l1 :: mid ++ l2 :: post)
    with ((pre ++ l1 :: mid) ++ l2 :: post)
    by (rewrite <- app_assoc; reflexivity).
  rewrite parse_lines_app.
  assert (Hlen : List.length (pre ++ l1 :: mid) = j)
    by (rewrite length_app; reflexivity).
  set (has_key := fun st : parse_state =>
         exists cur this_dict,
           current_name st = Some cur
           /\ get cur (config_dicts st) = Some this_dict
           /\ mem key this_dict = true).
  assert (Hkeep : forall l i st st',
             forallb (fun l => negb (is_header l)) l = true ->
             parse_lines i l st = Ok st' -> has_key st -> has_key st').
  { induction l as [|line rest IH]; simpl; intros i st st' Hl Hrun Hst.
    - injection Hrun as <-. assumption.
    - apply andb_true_iff in Hl as [Hline Hrest].
      destruct (parse_line i line st) as [st1| |] eqn:E; simpl in Hrun;
        try discriminate.
      apply (IH _ _ _ Hrest Hrun). apply parse_line_ok in E. revert E.
      unfold is_header in Hline. unfold parse_line_body.
      fold (preprocess line).
      destruct (String.eqb (preprocess line) EmptyString);
        [intros H; injection H as <-; assumption|].
      destruct (PyStr.startswith ";" (preprocess line));
        [intros H; injection H as <-; assumption|].
      destruct (Re.OBJECT_NAME (preprocess line)); [discriminate Hline|].
      destruct (Re.KEY_VALUE_PAIR (preprocess line)) as [[k v]|];
        [|discriminate].
      destruct Hst as (cur & this_dict & Hcur & Hget & Hmem).
      rewrite Hcur, Hget.
      destruct (mem k this_dict); [discriminate|].
      destruct (format_value v) as [val| |]; simpl; try discriminate.
      intros H; injection H as <-. exists cur, (set k val this_dict).
      simpl. rewrite set_get_same. auto using mem_set. }
  destruct (parse_lines_outcome (pre ++ l1 :: mid) 0 (mkParse empty None))
    as [[st1 Hok]|(k & m & o & Hk & Hraise)].
  - left. rewrite Hok. simpl. rewrite Hlen.
    assert (Hst1 : has_key st1).
    { rewrite parse_lines_app in Hok.
      destruct (parse_lines 0 pre (mkParse empty None)) as [st0| |];
        simpl in Hok; try discriminate.
      destruct (parse_line (List.length pre) l1 st0) as [st0'| |] eqn:El;
        simpl in Hok; try discriminate.
      apply (Hkeep mid _ _ _ Hmid Hok).
      apply parse_line_ok in El.
      rewrite (parse_line_body_key_value _ _ _ _ _ H1) in El.
      destruct (current_name st0) as [cur|] eqn:Hcur; [|discriminate].
      destruct (get cur (config_dicts st0)) as [this_dict|]; [|discriminate].
      destruct (mem key this_dict); [discriminate|].
      destruct (format_value v1) as [val| |]; simpl in El; try discriminate.
      injection El as <-. exists cur, (set key val this_dict). simpl.
      rewrite set_get_same. unfold mem. rewrite set_get_same. auto. }
    destruct Hst1 as (cur & this_dict & Hcur & Hget & Hmem).
    unfold parse_line.
    rewrite (parse_line_body_key_value _ _ _ _ _ H2), Hcur, Hget, Hmem.
    reflexivity.
  - right. exists k, m, o. rewrite Hraise. simpl. split; [lia|reflexivity].
Qed.


(** ** The top-level loader: keys and errors *)

Lemma load_main_keys (main_config : dict pyvalue)
  (all_dicts : dict (dict pyvalue)) (ignore_names : list string) :
  forall st configuration st',
    load_main main_config all_dicts ignore_names st = (Ok configuration, st') ->
    keys configuration
    = filter (fun k => negb (PyList.mem k ignore_names)) (keys main_config).
Proof.
  induction main_config as [|[key value] rest IH]; simpl;
    intros st configuration st' Hrun.
  - unfold ret in Hrun. injection Hrun as <- _. reflexivity.
  - destruct (negb (PyList.mem key ignore_names)); [|eapply IH; eassumption].
    destruct (get_object value all_dicts ignore_names 0 st) as [[obj|e|] st1];
      try discriminate.
    unfold bindM in Hrun.
    destruct (load_main rest all_dicts ignore_names st1) as [[c|e|] st2] eqn:E;
      try discriminate.
    unfold ret in Hrun. injection Hrun as <- _. simpl. f_equal.
    eapply IH; eassumption.
Qed.

(** X13.  The configuration that a load returns has a key for each key of
    the main block that is not in the ignore set, and no other, in the
    order of the main block. *)
Theorem load_config_file_keys (config_file : list string)
  (ignore_names : list string) (configuration : dict pyvalue)
  (st : build_state) :
  load_config_file config_file ignore_names = (Ok configuration, st) ->
  exists config_dicts main_config,
    get_config_dicts config_file = Ok config_dicts
    /\ get "main" config_dicts = Some main_config
    /\ keys configuration
       = filter (fun k => negb (PyList.mem k ignore_names)) (keys main_config).
Proof.
  unfold load_config_file.
  destruct (get_config_dicts config_file) as [config_dicts|e|];
    try discriminate.
  destruct (get "main" config_dicts) as [main_config|] eqn:Emain;
    [|discriminate].
  intros Hrun. exists config_dicts, main_config.
  split; [reflexivity|]. split; [assumption|].
  eapply load_main_keys; eassumption.
Qed.

Lemma load_main_raise (main_config : dict pyvalue)
  (all_dicts : dict (dict pyvalue)) (ignore_names : list string) :
  forall st e st',
    load_main main_config all_dicts ignore_names st = (Raise e, st') ->
    exists key value exc st0,
      In (key, value) main_config
      /\ PyList.mem key ignore_names = false
      /\ e = ConfigBuildException key exc
      /\ get_object value all_dicts ignore_names 0 st0 = (Raise exc, st').
Proof.
  induction main_config as [|[key value] rest IH]; simpl; intros st e st' Hrun.
  - discriminate Hrun.
  - destruct (negb (PyList.mem key ignore_names)) eqn:Ek.
    + destruct (get_object value all_dicts ignore_names 0 st)
        as [[obj|exc|] st1] eqn:Ev; try discriminate.
      * unfold bindM in Hrun.
        destruct (load_main rest all_dicts ignore_names st1)
          as [[c|e1|] st2] eqn:E; try discriminate.
        injection Hrun as <- <-.
        destruct (IH _ _ _ E) as (k & v & exc & st0 & Hin & Hk & He & Hv).
        exists k, v, exc, st0. auto.
      * injection Hrun as <- <-. exists key, value, exc, st.
        apply negb_true_iff in Ek. auto.
    + destruct (IH _ _ _ Hrun) as (k & v & exc & st0 & Hin & Hk & He & Hv).
      exists k, v, exc, st0. auto.
Qed.

(** X14.  A load fails in one of three ways.  A syntax error of the parser
    and the error of a missing main block come before anything is built:
    the state is the empty one.  Every other failure is the failure of
    the resolution of the value of a key of the main block that is not
    ignored, wrapped in a build error that carries that key. *)
Theorem load_config_file_errors (config_file : list string)
  (ignore_names : list string) (e : exc) (st : build_state) :
  load_config_file config_file ignore_names = (Raise e, st) ->
  (exists i m o,
      e = IniSyntaxError i m o
      /\ get_config_dicts config_file = Raise e
      /\ st = mkState empty [])
  \/ (e = MainBlockMissing
      /\ (exists config_dicts,
             get_config_dicts config_file = Ok config_dicts
             /\ get "main" config_dicts = None)
      /\ st = mkState empty [])
  \/ exists config_dicts main_config key value exc st0,
       get_config_dicts config_file = Ok config_dicts
       /\ get "main" config_dicts = Some main_config
       /\ In (key, value) main_config
       /\ PyList.mem key ignore_names = false
       /\ e = ConfigBuildException key exc
       /\ get_object value config_dicts ignore_names 0 st0 = (Raise exc, st).
Proof.
  unfold load_config_file, get_config_dicts.
  destruct (parse_lines_outcome config_file 0 (mkParse empty None))
    as [[st1 Hok]|(k & m & o & _ & Hraise)].
  - rewrite Hok. simpl.
    destruct (get "main" (config_dicts st1)) as [main_config|] eqn:Emain.
    + intros Hrun. right. right.
      destruct (load_main_raise _ _ _ _ _ _ Hrun)
        as (key & value & exc & st0 & Hin & Hk & He & Hv).
      exists (config_dicts st1), main_config, key, value, exc, st0.
      split; [reflexivity|]. split; [assumption|]. split; [assumption|].
      split; [assumption|]. split; assumption.
    + intros H; injection H as <- <-. right. left.
      split; [reflexivity|]. split; [|reflexivity].
      exists (config_dicts st1). split; [reflexivity|assumption].
  - rewrite Hraise. simpl. intros H; injection H as <- <-. left.
    exists k, m, o. repeat split.
Qed.

(** X15.  An entry of the main block under an ignored key is skipped,
    whatever its value: the load of the block with the entry is the load
    of the block without it. *)
Theorem load_main_ignored_entry (pre post : dict pyvalue) (key : string)
  (value : pyvalue) (all_dicts : dict (dict pyvalue))
  (ignore_names : list string) (st : build_state) :
  PyList.mem key ignore_names = true ->
  load_main (pre ++ (key, value) :: post) all_dicts ignore_names st
  = load_main (pre ++ post) all_dicts ignore_names st.
Proof.
  intros Hk. revert st. induction pre as [|[k v] pre IH]; intros st; simpl.
  - rewrite Hk. reflexivity.
  - destruct (negb (PyList.mem k ignore_names)); [|apply IH].
    destruct (get_object v all_dicts ignore_names 0 st) as [[obj|e|] st1];
      try reflexivity.
    unfold bindM. rewrite IH. reflexivity.
Qed.

(** ** The object graph builder: values without references, growth *)

Lemma mapM_plain (g : pyvalue -> M pyvalue) (f : pyvalue -> pyvalue)
  (l : list pyvalue) (st : build_state) :
  Forall (fun x => g x st = (Ok (f x), st)) l ->
  mapM g l st = (Ok (map f l), st).
Proof.
  induction l as [|x l IH]; intros H; [reflexivity|].
  inversion H as [|? ? Hx Hl]; subst. simpl. unfold bindM, ret.
  rewrite Hx, (IH Hl). reflexivity.
Qed.

(** X16.  A value in which no string is ignored or begins with "object:"
    is resolved without a failure and without a change of the state, at
    every depth (the guard on the depth concerns references only): the
    result is the value with its tuples turned into lists and with the
    strings that have an entry in [existing_objects] replaced by the
    object of the entry. *)
Theorem get_object_plain (all_dicts : dict (dict pyvalue))
  (ignore_names : list string) (value : pyvalue) (st : build_state) :
  (forall y, In y (strings_of value) -> is_ref ignore_names y = false) ->
  forall depth,
    get_object value all_dicts ignore_names depth st
    = (Ok (resolved (existing_objects st) value), st).
Proof.
  induction value as [b| |n|s|s|o|l IH|l IH|id] using pyvalue_rect_members;
    intros Hplain depth; rewrite get_object_eq; try reflexivity.
  - specialize (Hplain s (or_introl eq_refl)). unfold is_ref in Hplain.
    apply orb_false_iff in Hplain as [Hi Hp].
    cbn [get_object_body resolved]. rewrite Hi.
    destruct (get s (existing_objects st)); [reflexivity|].
    rewrite Hp. reflexivity.
  - cbn [get_object_body resolved]. unfold bindM.
    rewrite (mapM_plain _ (resolved (existing_objects st))); [reflexivity|].
    rewrite Forall_forall in IH |- *. intros x Hx. apply IH; [assumption|].
    intros y Hy. apply Hplain. simpl. apply in_flat_map. eauto.
  - cbn [get_object_body resolved]. unfold bindM.
    rewrite (mapM_plain _ (resolved (existing_objects st))); [reflexivity|].
    rewrite Forall_forall in IH |- *. intros x Hx. apply IH; [assumption|].
    intros y Hy. apply Hplain. simpl. apply in_flat_map. eauto.
Qed.


(** the heap of [st'] is the heap of [st] with instances appended *)
Definition heap_grows (st st' : build_state) : Prop :=
  exists new, heap st' = heap st ++ new.

Lemma heap_grows_refl (st : build_state) : heap_grows st st.
Proof. exists []. symmetry. apply app_nil_r. Qed.

Lemma heap_grows_trans (st st1 st2 : build_state) :
  heap_grows st st1 -> heap_grows st1 st2 -> heap_grows st st2.
Proof.
  intros [n1 H1] [n2 H2]. exists (n1 ++ n2).
  rewrite H2, H1. symmetry. apply app_assoc.
Qed.

Lemma mapM_heap (g : pyvalue -> M pyvalue) :
  (forall x st r st', g x st = (r, st') -> heap_grows st st') ->
  forall l st r st', mapM g l st = (r, st') -> heap_grows st st'.
Proof.
  intros Hg. induction l as [|x l IH]; intros st r st' Hrun.
  - injection Hrun as _ <-. apply heap_grows_refl.
  - cbn [mapM] in Hrun. unfold bindM in Hrun.
    destruct (g x st) as [[y|e|] st1] eqn:Ex;
      try (injection Hrun as _ <-; eapply Hg; eassumption).
    destruct (mapM g l st1) as [[ys|e|] st2] eqn:El;
      injection Hrun as _ <-;
      (eapply heap_grows_trans; [eapply Hg|eapply IH]; eassumption).
Qed.

Lemma process_args_heap (g : pyvalue -> M pyvalue) :
  (forall x st r st', g x st = (r, st') -> heap_grows st st') ->
  forall this_dict st r st',
    process_args g this_dict st = (r, st') -> heap_grows st st'.
Proof.
  intros Hg. induction this_dict as [|[k arg] rest IH]; intros st r st' Hrun.
  - injection Hrun as _ <-. apply heap_grows_refl.
  - cbn [process_args] in Hrun.
    destruct (negb (k =? "class")%string); [|eapply IH; eassumption].
    unfold bindM in Hrun.
    destruct (g arg st) as [[y|e|] st1] eqn:Ex;
      try (injection Hrun as _ <-; eapply Hg; eassumption).
    destruct (process_args g rest st1) as [[ys|e|] st2] eqn:El;
      injection Hrun as _ <-;
      (eapply heap_grows_trans; [eapply Hg|eapply IH]; eassumption).
Qed.

Lemma instantiate_heap (value name : string) (clazz : pyobject)
  (kwargs : dict pyvalue) (st st' : build_state) (r : result pyvalue) :
  instantiate value name clazz kwargs st = (r, st') -> heap_grows st st'.
Proof.
  unfold instantiate, raise.
  destruct (obj_argspec clazz);
    [|intros H; injection H as _ <-; apply heap_grows_refl].
  destruct (check_signature name a kwargs);
    try (intros H; injection H as _ <-; apply heap_grows_refl).
  destruct (construct clazz kwargs);
    [intros H; injection H as _ <-; apply heap_grows_refl|].
  unfold bindM, allocate, store, ret. intros H; injection H as _ <-.
  eexists. reflexivity.
Qed.

Lemma get_object_fuel_heap (all_dicts : dict (dict pyvalue))
  (ignore_names : list string) (fuel : nat) :
  forall value depth st r st',
    get_object_fuel fuel value all_dicts ignore_names depth st = (r, st') ->
    heap_grows st st'.
Proof.
  induction fuel as [|fuel IH]; intros value depth st r st' Hrun.
  { injection Hrun as _ <-. apply heap_grows_refl. }
  cbn [get_object_fuel] in Hrun. unfold get_object_body in Hrun.
  destruct value as [b| |n|f|s|o|l|l|id];
    try (injection Hrun as _ <-; apply heap_grows_refl).
  - destruct (PyList.mem s ignore_names).
    { unfold bindM, store, ret in Hrun. injection Hrun as _ <-.
      exists []. symmetry. apply app_nil_r. }
    destruct (get s (existing_objects st));
      [injection Hrun as _ <-; apply heap_grows_refl|].
    destruct (negb (PyStr.startswith "object:" s));
      [injection Hrun as _ <-; apply heap_grows_refl|].
    destruct (get (PyStr.drop 7 s) all_dicts) as [this_dict|];
      [|injection Hrun as _ <-; apply heap_grows_refl].
    destruct (20 <? depth);
      [injection Hrun as _ <-; apply heap_grows_refl|].
    destruct (get "class" this_dict) as [clazz|];
      [|injection Hrun as _ <-; apply heap_grows_refl].
    destruct (callable_of clazz) as [callee|];
      [|injection Hrun as _ <-; apply heap_grows_refl].
    unfold bindM in Hrun.
    destruct (process_args _ this_dict st) as [[kwargs|e|] st1] eqn:Ea;
      try (injection Hrun as _ <-;
           eapply process_args_heap; [|exact Ea];
           intros x s0 r0 s1; apply IH).
    eapply heap_grows_trans.
    + eapply process_args_heap; [|exact Ea]. intros x s0 r0 s1; apply IH.
    + eapply instantiate_heap; eassumption.
  - unfold bindM in Hrun.
    destruct (mapM _ l st) as [[vals|e|] st1] eqn:Em;
      injection Hrun as _ <-;
      (eapply mapM_heap; [|exact Em]; intros x s0 r0 s1; apply IH).
  - unfold bindM in Hrun.
    destruct (mapM _ l st) as [[vals|e|] st1] eqn:Em;
      injection Hrun as _ <-;
      (eapply mapM_heap; [|exact Em]; intros x s0 r0 s1; apply IH).
Qed.

(** X17.  One call of [get_object] in a load, whatever its outcome.  From
    a state that satisfies the invariant of the load (the empty state
    does), the call ends in such a state; every entry of
    [existing_objects] is kept as it is; a new entry is under an ignored
    name or a string that begins with "object:"; the heap keeps its
    instances and their numbers, new ones are appended; and a returned
    value is the argument read through the final [existing_objects]. *)
Theorem get_object_extends (all_dicts : dict (dict pyvalue))
  (ignore_names : list string) (value : pyvalue) (depth : nat)
  (st st' : build_state) (res : result pyvalue) :
  invariant all_dicts ignore_names st ->
  get_object value all_dicts ignore_names depth st = (res, st') ->
  invariant all_dicts ignore_names st'
  /\ (forall k obj,
         get k (existing_objects st) = Some obj ->
         get k (existing_objects st') = Some obj)
  /\ (forall k, cached st' k -> cached st k \/ is_ref ignore_names k = true)
  /\ heap_grows st st'
  /\ forall obj,
       res = Ok obj -> obj = resolved (existing_objects st') value.
Proof.
  intros Hinv Hrun.
  assert (Hres : res <> OutOfFuel).
  { pose proof (proj1 (get_object_fuel_enough all_dicts ignore_names value
                         depth st)) as H.
    rewrite Hrun in H. exact H. }
  destruct (get_object_good all_dicts ignore_names depth value st res st'
              Hinv Hrun Hres) as (Hinv' & Hext & Hok).
  split; [assumption|].
  split; [exact (ext_persist _ _ _ _ _ Hext)|].
  split; [intros k Hk; eapply ext_new_is_ref; eassumption|].
  split; [eapply get_object_fuel_heap; exact Hrun|].
  intros obj Hobj. exact (proj1 (Hok obj Hobj)).
Qed.

(** X18.  A load always returns: its outcome is a configuration or an
    exception, the budgets of the value parser and of the object builder
    are never exhausted. *)
Theorem load_config_file_returns (config_file : list string)
  (ignore_names : list string) :
  fst (load_config_file config_file ignore_names) <> OutOfFuel.
Proof.
  unfold load_config_file, get_config_dicts.
  destruct (parse_lines_outcome config_file 0 (mkParse empty None))
    as [[st1 Hok]|(k & m & o & _ & Hraise)].
  - rewrite Hok. simpl.
    destruct (get "main" (config_dicts st1)); [|discriminate].
    apply load_main_fuel.
  - rewrite Hraise. discriminate.
Qed.


(** ** The parser: what a parsed document holds *)

(** the names of the headers of a document, in the order of the lines *)
Definition header_names (config_file : list string) : list string :=
  flat_map (fun line => match Re.OBJECT_NAME (preprocess line) with
                        | Some name => [name]
                        | None => []
                        end) config_file.

(** the three ways in which a line is accepted *)
Lemma parse_line_body_cases (i : nat) (line : string) (st st' : parse_state) :
  parse_line_body i line st = Ok st' ->
  (st' = st /\ Re.OBJECT_NAME (preprocess line) = None)
  \/ (exists name,
         Re.OBJECT_NAME (preprocess line) = Some name
         /\ mem name (config_dicts st) = false
         /\ st' = mkParse (set name empty (config_dicts st)) (Some name))
  \/ exists key value_string cur this_dict val,
       Re.OBJECT_NAME (preprocess line) = None
       /\ Re.KEY_VALUE_PAIR (preprocess line) = Some (key, value_string)
       /\ current_name st = Some cur
       /\ get cur (config_dicts st) = Some this_dict
       /\ mem key this_dict = false
       /\ format_value value_string = Ok val
       /\ st' = mkParse (set cur (set key val this_dict) (config_dicts st))
                        (current_name st).
Proof.
  unfold parse_line_body. fold (preprocess line).
  destruct (Re.OBJECT_NAME (preprocess line)) as [name|] eqn:Eh.
  - destruct (OBJECT_NAME_first _ _ Eh) as (r & Hl). rewrite Hl.
    cbn [String.eqb]. unfold PyStr.startswith. cbn [String.prefix].
    destruct (ascii_dec ";" "[") as [E|_]; [discriminate E|].
    destruct (mem name (config_dicts st)) eqn:Em; [discriminate|].
    intros H; injection H as <-. right. left. exists name. auto.
  - destruct (String.eqb (preprocess line) EmptyString);
      [intros H; injection H as <-; left; auto|].
    destruct (PyStr.startswith ";" (preprocess line));
      [intros H; injection H as <-; left; auto|].
    destruct (Re.KEY_VALUE_PAIR (preprocess line)) as [[key vs]|] eqn:Ek;
      [|discriminate].
    destruct (current_name st) as [cur|] eqn:Ec; [|discriminate].
    destruct (get cur (config_dicts st)) as [this_dict|] eqn:Eg;
      [|discriminate].
    destruct (mem key this_dict) eqn:Em; [discriminate|].
    destruct (format_value vs) as [val| |] eqn:Ef; simpl; try discriminate.
    intros H; injection H as <-. right. right.
    exists key, vs, cur, this_dict, val.
    split; [reflexivity|]. split; [reflexivity|]. split; [reflexivity|].
    split; [assumption|]. split; [assumption|].
    split; [assumption|reflexivity].
Qed.

Lemma keys_set_new {V : Type} (k : string) (v : V) (d : dict V) :
  mem k d = false -> keys (set k v d) = keys d ++ [k].
Proof.
  unfold mem, keys. induction d as [|[k' v'] d IH]; simpl; [reflexivity|].
  destruct (String.eqb k k'); [discriminate|].
  intros H. simpl. f_equal. apply IH. assumption.
Qed.

Lemma keys_set_old {V : Type} (k : string) (v : V) (d : dict V) :
  mem k d = true -> keys (set k v d) = keys d.
Proof.
  unfold mem, keys. induction d as [|[k' v'] d IH]; simpl; [discriminate|].
  destruct (String.eqb k k'); [reflexivity|].
  intros H. simpl. f_equal. apply IH. assumption.
Qed.

Lemma mem_keys {V : Type} (k : string) (d : dict V) :
  mem k d = true <-> In k (keys d).
Proof.
  unfold mem, keys. induction d as [|[k' v'] d IH]; simpl.
  - split; [discriminate|intros []].
  - destruct (String.eqb k k') eqn:E.
    + apply String.eqb_eq in E. subst. split; auto.
    + rewrite IH. split; [auto|]. intros [H|H]; [|assumption].
      subst k'. rewrite String.eqb_refl in E. discriminate E.
Qed.

Lemma NoDup_snoc (x : string) (l : list string) :
  NoDup l -> ~ In x l -> NoDup (l ++ [x]).
Proof.
  induction l as [|y l IH]; simpl; intros Hnd Hx.
  - constructor; [intros []|constructor].
  - inversion Hnd as [|? ? Hy Hl]; subst. constructor.
    + rewrite in_app_iff. simpl. intros [H|[H|[]]]; [auto|]. subst. auto.
    + apply IH; auto.
Qed.

Lemma parse_lines_sections (config_file : list string) :
  forall i st st',
    parse_lines i config_file st = Ok st' ->
    keys (config_dicts st')
    = keys (config_dicts st) ++ header_names config_file
    /\ (NoDup (keys (config_dicts st)) -> NoDup (keys (config_dicts st'))).
Proof.
  induction config_file as [|line rest IH]; simpl; intros i st st' Hrun.
  - injection Hrun as <-. split; [symmetry; apply app_nil_r|auto].
  - destruct (parse_line i line st) as [st1| |] eqn:E; simpl in Hrun;
      try discriminate.
    destruct (IH _ _ _ Hrun) as [Hk Hn].
    apply parse_line_ok in E.
    destruct (parse_line_body_cases _ _ _ _ E)
      as [[-> Hh]|[(name & Hh & Hm & ->)
                  |(key & vs & cur & d & val & Hh & _ & _ & Hg & _ & _ & ->)]];
      rewrite Hh; cbn [config_dicts] in Hk, Hn.
    + split; assumption.
    + rewrite keys_set_new in Hk, Hn by assumption.
      rewrite <- app_assoc in Hk.
      split; [exact Hk|]. intros Hnd. apply Hn.
      apply NoDup_snoc; [assumption|].
      rewrite <- mem_keys. rewrite Hm. discriminate.
    + assert (Hc : mem cur (config_dicts st) = true)
        by (unfold mem; rewrite Hg; reflexivity).
      rewrite keys_set_old in Hk, Hn by assumption.
      split; assumption.
Qed.

(** X19.  The sections of a parsed document are the headers of its lines:
    the keys of the result are the names in the header lines, in the order
    of the lines, and no name occurs twice. *)
Theorem get_config_dicts_sections (config_file : list string)
  (d : dict (dict pyvalue)) :
  get_config_dicts config_file = Ok d ->
  keys d = header_names config_file /\ NoDup (keys d).
Proof.
  unfold get_config_dicts.
  destruct (parse_lines 0 config_file (mkParse empty None)) as [st'| |] eqn:E;
    simpl; try discriminate.
  intros H; injection H as <-.
  destruct (parse_lines_sections _ _ _ _ E) as [Hk Hn]. split.
  - exact Hk.
  - apply Hn. constructor.
Qed.

Lemma parse_lines_values (config_file : list string) :
  forall i st st',
    parse_lines i config_file st = Ok st' ->
    forall name this_dict key v,
      get name (config_dicts st') = Some this_dict ->
      get key this_dict = Some v ->
      (exists d0, get name (config_dicts st) = Some d0 /\ get key d0 = Some v)
      \/ exists line value_string,
           In line config_file
           /\ Re.KEY_VALUE_PAIR (preprocess line) = Some (key, value_string)
           /\ format_value value_string = Ok v.
Proof.
  induction config_file as [|line rest IH]; simpl;
    intros i st st' Hrun name this_dict key v Hname Hkey.
  - injection Hrun as <-. left. eauto.
  - destruct (parse_line i line st) as [st1| |] eqn:E; simpl in Hrun;
      try discriminate.
    destruct (IH _ _ _ Hrun name this_dict key v Hname Hkey)
      as [(d1 & Hd1 & Hk1)|(l & vs & Hin & Hkv & Hf)];
      [|right; exists l, vs; auto].
    apply parse_line_ok in E.
    destruct (parse_line_body_cases _ _ _ _ E)
      as [[-> Hh]|[(n & Hh & Hm & ->)
                  |(k0 & vs & cur & d & val & Hh & Hkv & _ & Hg & _ & Hf & ->)]];
      cbn [config_dicts] in Hd1.
    + left. eauto.
    + destruct (string_dec name n) as [->|Hne].
      * rewrite set_get_same in Hd1. injection Hd1 as <-. discriminate Hk1.
      * rewrite set_get_other in Hd1 by assumption. left. eauto.
    + destruct (string_dec name cur) as [->|Hne].
      * rewrite set_get_same in Hd1. injection Hd1 as <-.
        destruct (string_dec key k0) as [->|Hnk].
        -- rewrite set_get_same in Hk1. injection Hk1 as <-.
           right. exists line, vs. auto.
        -- rewrite set_get_other in Hk1 by assumption. left. eauto.
      * rewrite set_get_other in Hd1 by assumption. left. eauto.
Qed.

(** X20.  Every value of a parsed document comes from a line of it: an
    entry of a section under a key is the result of [format_value] on the
    value string of a line of the form key = value with that key. *)
Theorem get_config_dicts_values (config_file : list string)
  (d : dict (dict pyvalue)) (name key : string) (this_dict : dict pyvalue)
  (v : pyvalue) :
  get_config_dicts config_file = Ok d ->
  get name d = Some this_dict ->
  get key this_dict = Some v ->
  exists line value_string,
    In line config_file
    /\ Re.KEY_VALUE_PAIR (preprocess line) = Some (key, value_string)
    /\ format_value value_string = Ok v.
Proof.
  unfold get_config_dicts.
  destruct (parse_lines 0 config_file (mkParse empty None)) as [st'| |] eqn:E;
    simpl; try discriminate.
  intros H Hname Hkey; injection H as <-.
  destruct (parse_lines_values _ _ _ _ E _ _ _ _ Hname Hkey)
    as [(d0 & Hd0 & _)|H]; [discriminate Hd0|exact H].
Qed.


(** ** The value parser: a text with a decimal point *)

Lemma digit_or_point_first (a b : string) (x : ascii) (s : string) :
  all_chars PyStr.is_digit a = true ->
  PyStr.is_digit x = false -> Ascii.eqb "." x = false ->
  String.eqb (a ++ String "." b) (String x s) = false.
Proof.
  intros Ha Hx Hp. destruct a as [|c a]; cbn [append String.eqb].
  - rewrite Hp. reflexivity.
  - simpl in Ha. apply andb_true_iff in Ha as [Hc _].
    destruct (Ascii.eqb c x) eqn:E; [|reflexivity].
    apply Ascii.eqb_eq in E. congruence.
Qed.

(** X21.  A text made of digits, a point and digits is a float, with one
    exception: the point alone.  The pattern [FLOAT] matches it, since it
    asks for no digit on either side, and the conversion that follows
    raises a [ValueError]. *)
Theorem format_value_point (a b : string) :
  all_chars PyStr.is_digit a = true ->
  all_chars PyStr.is_digit b = true ->
  format_value (a ++ String "." b)
  = match a, b with
    | EmptyString, EmptyString => Raise (ValueError ".")
    | _, _ => Ok (VFloat (a ++ String "." b))
    end.
Proof.
  intros Ha Hb. unfold format_value. cbn [format_value_fuel].
  rewrite !(digit_or_point_first a b) by (assumption || reflexivity).
  assert (Hspan : PyStr.span PyStr.is_digit (a ++ String "." b)
                  = (a, String "." b))
    by (apply span_stop; [assumption|reflexivity]).
  assert (Hint : Re.INTEGER (a ++ String "." b) = None).
  { unfold Re.INTEGER. rewrite Hspan.
    destruct a; [reflexivity|]. destruct b; reflexivity. }
  assert (Hfloat : Re.FLOAT (a ++ String "." b) = Some (a, b)).
  { unfold Re.FLOAT. rewrite Hspan.
    change (Ascii.eqb "." ".") with true. cbv iota.
    rewrite (span_all _ _ Hb). reflexivity. }
  rewrite Hint, Hfloat.
  destruct a; [destruct b|]; reflexivity.
Qed.

End Loader.

(** * Concrete runs *)



(** The document whose second line repeats the section of the first. *)
Lemma get_config_dicts_error_line_witness :
  exists pre line post st m o,
    ["[a]"; "[a]"] = pre ++ line :: post
    /\ parse_lines sample_import_module sample_getattr sample_time_stamp
         0 pre (mkParse empty None) = Ok st
    /\ parse_line sample_import_module sample_getattr sample_time_stamp
         (List.length pre) line st
       = Raise (IniSyntaxError 1 (DuplicitObjectKey "a" 1) None)
    /\ IniSyntaxError 1 (DuplicitObjectKey "a" 1) None
       = IniSyntaxError (List.length pre) m o
    /\ (forall l, message_line m = Some l -> l = List.length pre).
Proof.
  apply (get_config_dicts_error_line sample_import_module sample_getattr
           sample_time_stamp ["[a]"; "[a]"]).
  reflexivity.
Defined.

(** C9 as stated fails: the first line alone is accepted, so the offending
    line is the second one, at the one-based position 2, and the error
    carries the number 1. *)
Lemma get_config_dicts_line_not_one_based :
  get_config_dicts sample_import_module sample_getattr sample_time_stamp ["[a]"]
  = Ok [("a", [])]
  /\ get_config_dicts sample_import_module sample_getattr sample_time_stamp
       ["[a]"; "[a]"]
     = Raise (IniSyntaxError 1 (DuplicitObjectKey "a" 1) None)
  /\ 1 <> 2.
Proof.
  repeat split; discriminate.
Qed.

(** C5 as stated fails: the tuple (1, 2) is resolved to the list [1, 2];
    the same happens to the tuple of a document. *)
Lemma get_object_tuple_becomes_list :
  get_object sample_construct (VTuple [VInt 1; VInt 2]) [] [] 0 (mkState [] [])
  = (Ok (VList [VInt 1; VInt 2]), mkState [] [])
  /\ VList [VInt 1; VInt 2] <> VTuple [VInt 1; VInt 2]
  /\ format_value sample_import_module sample_getattr "(1,2)"
     = Ok (VTuple [VInt 1; VInt 2])
  /\ fst (load_config_file sample_import_module sample_getattr sample_time_stamp
            sample_construct ["[main]"; "model=(1,2)"] [])
     = Ok [("model", VList [VInt 1; VInt 2])].
Proof.
  repeat split; discriminate.
Qed.

(** The class [Net] has the required parameter [size]; the object supplies
    the name [bogus] only. *)
Lemma check_signature_reports_witness :
  check_signature "net" Net_spec [("bogus", VInt 1)]
  = Raise (MissingRequiredArgs "net" ["size"]).
Proof.
  refine (proj1 (check_signature_reports "net" Net_spec [("bogus", VInt 1)]
                   eq_refl _) _); discriminate.
Defined.

(** C4 as stated fails: [size] is missing and [bogus] is unexpected, and the
    one error raised lists [size] alone. *)
Lemma check_signature_names_missing_only :
  In "size" (required_of Net_spec)
  /\ ~ In "size" (keys [("bogus", VInt 1)])
  /\ In "bogus" (keys [("bogus", VInt 1)])
  /\ ~ In "bogus" (args Net_spec)
  /\ check_signature "net" Net_spec [("bogus", VInt 1)]
     = Raise (MissingRequiredArgs "net" ["size"])
  /\ ~ In "bogus" (names_in (MissingRequiredArgs "net" ["size"])).
Proof.
  repeat split; simpl; try tauto;
    intros H; repeat (destruct H as [H|H]; try discriminate H); assumption.
Qed.

(** C6.  The load of a document whose main block refers to the section
    [net], with the name [net] in the ignore set.  The string that
    [get_object] tests against the set is "object:net", not [net], so the
    section is built and its instance is returned and stored. *)
Theorem load_config_file_ignored_name_built :
  load_config_file sample_import_module sample_getattr sample_time_stamp
    sample_construct
    ["[main]"; "model=<net>"; "[net]"; "class=pkg.Net"; "size=1"] ["net"]
  = (Ok [("model", VInst 0)],
     mkState [("object:net", VInst 0)]
             [mkInstance "net" Net [("size", VInt 1)]])
  /\ PyList.mem "net" ["net"] = true
  /\ PyList.mem "object:net" ["net"] = false.
Proof.
  repeat split.
Qed.

(** The text object:foo of a document, written without angle brackets,
    and the section [foo]: the text is resolved as a reference to the
    section, the instance is stored under the whole text, and the string
    without the prefix is returned as it is. *)
Definition prefix_file : list string :=
  ["[main]"; "a=object:foo"; "b=foo"; "[foo]"; "class=pkg.Net"; "size=128"].

Definition prefix_dicts : dict (dict pyvalue) :=
  [("main", [("a", VStr "object:foo"); ("b", VStr "foo")]);
   ("foo", [("class", VObj Net); ("size", VInt 128)])].

Definition prefix_state : build_state :=
  mkState [("object:foo", VInst 0)]
          [mkInstance "foo" Net [("size", VInt 128)]].

Lemma get_object_reference_prefix_witness :
  get_config_dicts sample_import_module sample_getattr sample_time_stamp
    prefix_file
  = Ok prefix_dicts
  /\ load_config_file sample_import_module sample_getattr sample_time_stamp
       sample_construct prefix_file []
     = (Ok [("a", VInst 0); ("b", VStr "foo")], prefix_state)
  /\ get_object sample_construct (VStr "object:foo") prefix_dicts [] 0
       (mkState [] [])
     = (Ok (VInst 0), prefix_state)
  /\ get_object sample_construct (VStr "object:bar") prefix_dicts [] 0
       (mkState [] [])
     = (Raise (ObjectNotDefined "bar"), mkState [] [])
  /\ get_object sample_construct (VStr "foo") prefix_dicts [] 0
       (mkState [] [])
     = (Ok (VStr "foo"), mkState [] []).
Proof.
  split; [reflexivity|]. split; [reflexivity|].
  split; [|split].
  - destruct (get_object_reference_prefix sample_import_module sample_getattr
                sample_construct prefix_dicts [] "object:foo" 0
                (mkState [] []) eq_refl eq_refl)
      as (_ & Hprefixed & _).
    destruct (Hprefixed eq_refl) as (name & Hname & _ & _ & Hbuilt).
    simpl in Hname. injection Hname as <-.
    apply (Hbuilt [("class", VObj Net); ("size", VInt 128)] (VObj Net) Net
             Net_spec); try reflexivity. lia.
  - destruct (get_object_reference_prefix sample_import_module sample_getattr
                sample_construct prefix_dicts [] "object:bar" 0
                (mkState [] []) eq_refl eq_refl)
      as (_ & Hprefixed & _).
    destruct (Hprefixed eq_refl) as (name & Hname & Hmissing & _).
    simpl in Hname. injection Hname as <-.
    apply Hmissing. reflexivity.
  - destruct (get_object_reference_prefix sample_import_module sample_getattr
                sample_construct prefix_dicts [] "foo" 0 (mkState [] [])
                eq_refl eq_refl)
      as (Hplain & _).
    apply Hplain. reflexivity.
Defined.

(** The sections [a] and [b] refer to each other: [a] through its second
    argument, after a plain string, and [b] through a list. *)
Definition cycle_file : list string :=
  ["[main]"; "model=<a>";
   "[a]"; "class=pkg.Link"; "label=x"; "next=<b>";
   "[b]"; "class=pkg.Link"; "next=[<a>]"].

Definition cycle_dicts : dict (dict pyvalue) :=
  [("main", [("model", VStr "object:a")]);
   ("a", [("class", VObj Link); ("label", VStr "x");
          ("next", VStr "object:b")]);
   ("b", [("class", VObj Link); ("next", VList [VStr "object:a"])])].

(** A document without a cycle: [top] refers to [net]. *)
Definition chain_dicts : dict (dict pyvalue) :=
  [("net", [("class", VObj Net); ("size", VInt 128)]);
   ("top", [("class", VObj Link); ("next", VStr "object:net")])].

Lemma cycle_link_a_b : link cycle_dicts [] "a" "b".
Proof.
  exists [("class", VObj Link); ("label", VStr "x"); ("next", VStr "object:b")],
    (VObj Link), Link, [("label", VStr "x")], "next", (ref "b"), [], 0.
  repeat split; try reflexivity.
  - constructor; [|constructor]. intros y [<-|[]]. reflexivity.
  - constructor.
Qed.

Lemma cycle_link_b_a : link cycle_dicts [] "b" "a".
Proof.
  exists [("class", VObj Link); ("next", VList [VStr "object:a"])],
    (VObj Link), Link, [], "next", (VList ([] ++ ref "a" :: [])), [], 1.
  repeat split; try reflexivity.
  - constructor.
  - apply leads_list; constructor.
Qed.

Lemma cycle_edge_a_b : edge cycle_dicts [] "object:a" "object:b".
Proof.
  split; [reflexivity|]. split; [reflexivity|].
  eexists. split; [reflexivity|]. split; [|reflexivity].
  simpl. auto.
Qed.

Lemma cycle_edge_b_a : edge cycle_dicts [] "object:b" "object:a".
Proof.
  split; [reflexivity|]. split; [reflexivity|].
  eexists. split; [reflexivity|]. split; [|reflexivity].
  simpl. auto.
Qed.

Lemma cycle_cyclic_a : cyclic cycle_dicts [] "object:a".
Proof.
  exists "object:b". split; [|exact cycle_edge_b_a].
  eapply reach_step; [apply reach_refl|exact cycle_edge_a_b].
Qed.

Lemma cycle_cyclic_b : cyclic cycle_dicts [] "object:b".
Proof.
  exists "object:a". split; [|exact cycle_edge_a_b].
  eapply reach_step; [apply reach_refl|exact cycle_edge_b_a].
Qed.

(** only the two sections are reached from [a] *)
Lemma cycle_reach (z : string) :
  reach cycle_dicts [] "object:a" z -> z = "object:a" \/ z = "object:b".
Proof.
  induction 1 as [|y z Hy IH He]; [left; reflexivity|].
  destruct He as (_ & _ & d & Hd & Hin & Hr).
  destruct IH as [-> | ->]; simpl in Hd; injection Hd as <-;
    simpl in Hin.
  - destruct Hin as [<-|[<-|[]]]; [discriminate Hr|right; reflexivity].
  - destruct Hin as [<-|[]]. left. reflexivity.
Qed.

Lemma cycle_sound_from : sound_from sample_construct cycle_dicts [] "object:a".
Proof.
  intros z Hz _ _. destruct (cycle_reach z Hz) as [-> | ->].
  - exists [("class", VObj Link); ("label", VStr "x");
            ("next", VStr "object:b")], (VObj Link), Link.
    repeat split. intros H. elim H. exact cycle_cyclic_a.
  - exists [("class", VObj Link); ("next", VList [VStr "object:a"])],
      (VObj Link), Link.
    repeat split. intros H. elim H. exact cycle_cyclic_b.
Qed.

Lemma chain_top : chain chain_dicts 1 "top".
Proof.
  apply chain_link with (next := "net").
  - exists [("class", VObj Link); ("next", VStr "object:net")], Link, [],
      "next", [].
    repeat split; try reflexivity. exists (VObj Link). split; reflexivity.
  - apply chain_end with (this_dict := [("class", VObj Net); ("size", VInt 128)]);
      reflexivity.
Qed.

Lemma get_object_depth_guard_witness :
  get_config_dicts sample_import_module sample_getattr sample_time_stamp
    cycle_file
  = Ok cycle_dicts
  /\ get_object sample_construct (ref "a") cycle_dicts [] 0 (mkState [] [])
     = (Raise DepthExceeded, mkState [] [])
  /\ get_object sample_construct (ref "b") cycle_dicts [] 0 (mkState [] [])
     = (Raise DepthExceeded, mkState [] [])
  /\ (exists st',
         get_object sample_construct (VStr "object:a") cycle_dicts [] 0
           (mkState [] [])
         = (Raise DepthExceeded, st'))
  /\ fst (get_object sample_construct (ref "top") chain_dicts [] 0
            (mkState [] []))
     <> Raise DepthExceeded.
Proof.
  split; [reflexivity|].
  destruct (get_object_depth_guard sample_construct cycle_dicts [])
    as (_ & Hpair & _ & Hcyc & _).
  destruct (Hpair "a" "b" 0 (mkState [] []) cycle_link_a_b cycle_link_b_a
              eq_refl eq_refl eq_refl eq_refl) as [Ha Hb].
  split; [exact Ha|]. split; [exact Hb|]. split.
  - apply (Hcyc "object:a" 0 (mkState [] [])
             (invariant_empty cycle_dicts []) cycle_cyclic_a eq_refl).
    exact cycle_sound_from.
  - destruct (get_object_depth_guard sample_construct chain_dicts [])
      as (_ & _ & _ & _ & _ & _ & Hchain).
    apply (Hchain 1 "top" 0 (mkState [] []) chain_top). lia.
Defined.

(** Two keys of the main block and an argument of the section [top] hold a
    reference to the section [net]. *)
Definition shared_file : list string :=
  ["[main]"; "model=<net>"; "other=<net>"; "top=<top>";
   "[net]"; "class=pkg.Net"; "size=128";
   "[top]"; "class=pkg.Link"; "next=<net>"].

Definition shared_state : build_state :=
  mkState [("object:net", VInst 0); ("object:top", VInst 1)]
          [mkInstance "net" Net [("size", VInt 128)];
           mkInstance "top" Link [("next", VInst 0)]].

Lemma load_config_file_one_instance_witness :
  load_config_file sample_import_module sample_getattr sample_time_stamp
    sample_construct shared_file []
  = (Ok [("model", VInst 0); ("other", VInst 0); ("top", VInst 1)], shared_state)
  /\ NoDup (map inst_name (heap shared_state))
  /\ (forall config_dicts id inst,
         get_config_dicts sample_import_module sample_getattr sample_time_stamp
           shared_file = Ok config_dicts ->
         nth_error (heap shared_state) id = Some inst ->
         get ("object:" ++ inst_name inst) (existing_objects shared_state)
         = Some (VInst id)
         /\ exists this_dict,
              get (inst_name inst) config_dicts = Some this_dict
              /\ inst_kwargs inst
                 = resolved_args (existing_objects shared_state) this_dict
              /\ forall y, In y (arg_strings this_dict) ->
                           is_ref [] y = true -> cached shared_state y)
  /\ (forall configuration,
         Ok [("model", VInst 0); ("other", VInst 0); ("top", VInst 1)]
         = Ok configuration ->
         exists config_dicts main_config,
           get_config_dicts sample_import_module sample_getattr
             sample_time_stamp shared_file = Ok config_dicts
           /\ get "main" config_dicts = Some main_config
           /\ configuration
              = map (fun kv =>
                       (fst kv, resolved (existing_objects shared_state) (snd kv)))
                    (main_entries [] main_config)
           /\ forall y, In y (main_strings [] main_config) ->
                        is_ref [] y = true -> cached shared_state y).
Proof.
  split; [reflexivity|].
  apply (load_config_file_one_instance sample_import_module sample_getattr
           sample_time_stamp sample_construct shared_file []).
  reflexivity.
Defined.


(** ** Runs of the further properties *)

Lemma split_on_commas_join_witness :
  split_on_commas "a, (b, c)" = Ok ["a"; "(b, c)"]
  /\ without_spaces (PyStr.join "," ["a"; "(b, c)"])
     = without_spaces "a, (b, c)".
Proof.
  split; [reflexivity|].
  apply (split_on_commas_join "a, (b, c)" ["a"; "(b, c)"]). reflexivity.
Defined.

Lemma split_on_commas_no_leading_space_witness :
  Forall (fun x => starts_with_space x = false) ["a"; "(b, c)"].
Proof.
  apply (split_on_commas_no_leading_space "a, (b, c)"). reflexivity.
Defined.

Lemma split_on_commas_plain_witness :
  split_on_commas "a, b,c" = Ok ["a"; "b"; "c"].
Proof.
  apply (split_on_commas_plain "a, b,c"). reflexivity.
Defined.

Lemma format_value_digits_witness :
  format_value sample_import_module sample_getattr "42" = Ok (VInt 42).
Proof.
  apply (format_value_digits sample_import_module sample_getattr "4" "2").
  reflexivity.
Defined.

Lemma format_value_reference_witness :
  format_value sample_import_module sample_getattr "<net>" = Ok (ref "net")
  /\ get_object sample_construct (ref "net") [] [] 0 (mkState [] [])
     = (Raise (ObjectNotDefined "net"), mkState [] []).
Proof.
  destruct (format_value_reference sample_import_module sample_getattr
              sample_construct "net" eq_refl) as [H1 H2].
  split; [exact H1|].
  apply (H2 [] [] 0 (mkState [] [])); reflexivity.
Defined.

Lemma format_value_list_homogeneous_witness :
  format_value sample_import_module sample_getattr "[1, 2]"
  = Ok (VList [VInt 1; VInt 2])
  /\ type_of (VInt 1) = type_of (VInt 2).
Proof.
  split; [reflexivity|].
  apply (format_value_list_homogeneous sample_import_module sample_getattr
           "[1, 2]" [VInt 1; VInt 2]).
  - reflexivity.
  - reflexivity.
  - simpl. left. reflexivity.
  - simpl. right. left. reflexivity.
Defined.

Lemma comment_and_time_stamp_witness :
  Re.strip_comments false "a=1 # note" = "a=1 "
  /\ Re.sub_TIME sample_time_stamp "a=1 " = "a=1 ".
Proof.
  destruct (comment_and_time_stamp sample_time_stamp "a=1 " " note"
              eq_refl eq_refl) as [H1 H2].
  split; [exact H1|]. apply H2. reflexivity.
Defined.

Lemma get_config_dicts_ignored_line_witness :
  get_config_dicts sample_import_module sample_getattr sample_time_stamp
    ["[a]"; "# note"; "x=1"]
  = Ok [("a", [("x", VInt 1)])].
Proof.
  apply (get_config_dicts_ignored_line sample_import_module sample_getattr
           sample_time_stamp ["[a]"] ["x=1"] "# note").
  - reflexivity.
  - reflexivity.
Defined.

Lemma get_config_dicts_key_before_section_witness :
  get_config_dicts sample_import_module sample_getattr sample_time_stamp
    ["# note"; EmptyString; "x=1"; "[a]"]
  = Raise (IniSyntaxError 2 ErrorMessage (Some (KeyError None))).
Proof.
  apply (get_config_dicts_key_before_section sample_import_module
           sample_getattr sample_time_stamp ["# note"; EmptyString] ["[a]"]
           "x=1" "x" "1").
  - reflexivity.
  - reflexivity.
Defined.

Lemma get_config_dicts_duplicate_section_witness :
  get_config_dicts sample_import_module sample_getattr sample_time_stamp
    ["[a]"; "x=1"; "[a]"]
  = Raise (IniSyntaxError 2 (DuplicitObjectKey "a" 2) None)
  \/ exists i m o,
       i < 2
       /\ get_config_dicts sample_import_module sample_getattr
            sample_time_stamp ["[a]"; "x=1"; "[a]"]
          = Raise (IniSyntaxError i m o).
Proof.
  apply (get_config_dicts_duplicate_section sample_import_module
           sample_getattr sample_time_stamp [] ["x=1"] [] "[a]" "[a]" "a").
  - reflexivity.
  - reflexivity.
Defined.

Lemma get_config_dicts_duplicate_key_witness :
  get_config_dicts sample_import_module sample_getattr sample_time_stamp
    ["[a]"; "x=1"; "y=2"; "x=3"]
  = Raise (IniSyntaxError 3 (DuplicitKey "x" 3) None)
  \/ exists i m o,
       i < 3
       /\ get_config_dicts sample_import_module sample_getattr
            sample_time_stamp ["[a]"; "x=1"; "y=2"; "x=3"]
          = Raise (IniSyntaxError i m o).
Proof.
  apply (get_config_dicts_duplicate_key sample_import_module
           sample_getattr sample_time_stamp ["[a]"] ["y=2"] [] "x=1" "x=3"
           "x" "1" "3").
  - reflexivity.
  - reflexivity.
  - reflexivity.
Defined.

Lemma load_config_file_keys_witness :
  exists config_dicts main_config,
    get_config_dicts sample_import_module sample_getattr sample_time_stamp
      shared_file = Ok config_dicts
    /\ get "main" config_dicts = Some main_config
    /\ keys [("model", VInst 0); ("top", VInst 1)]
       = filter (fun k => negb (PyList.mem k ["other"])) (keys main_config).
Proof.
  apply (load_config_file_keys sample_import_module sample_getattr
           sample_time_stamp sample_construct shared_file ["other"]
           [("model", VInst 0); ("top", VInst 1)] shared_state).
  reflexivity.
Defined.

Lemma load_config_file_errors_witness :
  (exists i m o,
      MainBlockMissing = IniSyntaxError i m o
      /\ get_config_dicts sample_import_module sample_getattr
           sample_time_stamp ["[net]"; "class=pkg.Net"]
         = Raise MainBlockMissing
      /\ mkState [] [] = mkState empty [])
  \/ (MainBlockMissing = MainBlockMissing
      /\ (exists config_dicts,
             get_config_dicts sample_import_module sample_getattr
               sample_time_stamp ["[net]"; "class=pkg.Net"]
             = Ok config_dicts
             /\ get "main" config_dicts = None)
      /\ mkState [] [] = mkState empty [])
  \/ exists config_dicts main_config key value exc st0,
       get_config_dicts sample_import_module sample_getattr
         sample_time_stamp ["[net]"; "class=pkg.Net"] = Ok config_dicts
       /\ get "main" config_dicts = Some main_config
       /\ In (key, value) main_config
       /\ PyList.mem key [] = false
       /\ MainBlockMissing = ConfigBuildException key exc
       /\ get_object sample_construct value config_dicts [] 0 st0
          = (Raise exc, mkState [] []).
Proof.
  apply (load_config_file_errors sample_import_module sample_getattr
           sample_time_stamp sample_construct ["[net]"; "class=pkg.Net"] []
           MainBlockMissing (mkState [] [])).
  reflexivity.
Defined.

Lemma load_main_ignored_entry_witness :
  load_main sample_construct
    [("a", VInt 1); ("skip", VStr "object:missing")] [] ["skip"]
    (mkState [] [])
  = load_main sample_construct [("a", VInt 1)] [] ["skip"] (mkState [] []).
Proof.
  apply (load_main_ignored_entry sample_construct [("a", VInt 1)] []
           "skip" (VStr "object:missing") [] ["skip"] (mkState [] [])).
  reflexivity.
Defined.

Lemma get_object_plain_witness :
  get_object sample_construct (VTuple [VInt 1; VStr "x"]) [] [] 25
    (mkState [] [])
  = (Ok (VList [VInt 1; VStr "x"]), mkState [] []).
Proof.
  apply (get_object_plain sample_construct [] []
           (VTuple [VInt 1; VStr "x"]) (mkState [] [])).
  intros y Hy. simpl in Hy. destruct Hy as [<-|[]]. reflexivity.
Defined.

Lemma get_object_extends_witness :
  get_object sample_construct (ref "net")
    [("net", [("class", VObj Net); ("size", VInt 128)])] [] 0 (mkState [] [])
  = (Ok (VInst 0),
     mkState [("object:net", VInst 0)]
             [mkInstance "net" Net [("size", VInt 128)]])
  /\ invariant [("net", [("class", VObj Net); ("size", VInt 128)])] []
       (mkState [("object:net", VInst 0)]
                [mkInstance "net" Net [("size", VInt 128)]])
  /\ heap_grows (mkState [] [])
       (mkState [("object:net", VInst 0)]
                [mkInstance "net" Net [("size", VInt 128)]]).
Proof.
  split; [reflexivity|].
  destruct (get_object_extends sample_construct
              [("net", [("class", VObj Net); ("size", VInt 128)])] []
              (ref "net") 0 (mkState [] [])
              (mkState [("object:net", VInst 0)]
                       [mkInstance "net" Net [("size", VInt 128)]])
              (Ok (VInst 0))
              (invariant_empty _ _) eq_refl) as (H1 & _ & _ & H4 & _).
  split; assumption.
Defined.

Lemma get_config_dicts_sections_witness :
  keys [("a", [("x", VInt 1)]); ("b", [])]
  = header_names sample_time_stamp ["[a]"; "x=1"; "[b]"]
  /\ NoDup (keys [("a", [("x", VInt 1)]); ("b", @nil (string * pyvalue))]).
Proof.
  apply (get_config_dicts_sections sample_import_module sample_getattr
           sample_time_stamp ["[a]"; "x=1"; "[b]"]
           [("a", [("x", VInt 1)]); ("b", [])]).
  reflexivity.
Defined.

Lemma get_config_dicts_values_witness :
  exists line value_string,
    In line ["[a]"; "x = 1"]
    /\ Re.KEY_VALUE_PAIR (preprocess sample_time_stamp line)
       = Some ("x", value_string)
    /\ format_value sample_import_module sample_getattr value_string
       = Ok (VInt 1).
Proof.
  apply (get_config_dicts_values sample_import_module sample_getattr
           sample_time_stamp ["[a]"; "x = 1"] [("a", [("x", VInt 1)])]
           "a" "x" [("x", VInt 1)] (VInt 1)).
  - reflexivity.
  - reflexivity.
  - reflexivity.
Defined.

Lemma format_value_point_witness :
  format_value sample_import_module sample_getattr "." = Raise (ValueError ".")
  /\ format_value sample_import_module sample_getattr "1.5"
     = Ok (VFloat "1.5").
Proof.
  split.
  - apply (format_value_point sample_import_module sample_getattr
             EmptyString EmptyString); reflexivity.
  - apply (format_value_point sample_import_module sample_getattr "1" "5");
      reflexivity.
Defined.
